(** * Video search and transcription API: a shallow embedding of [main.py]

    The request handlers of [main.py] are embedded as Rocq functions:
    - Python values that arrive as JSON ([value]), with [int] as [Z] and
      [float] as IEEE-754 binary64 ([spec_float] at precision 53);
    - exceptions as a result type [Res] with its bind;
    - the file system, the external tools and the identifier generator as
      an explicit [World] threaded through the handlers.

    [search_keyword] is pure; [upload_video], [youtube], [generate_clip]
    and the routes that serve clips run in the world-passing monad [M]. *)

From Stdlib Require Import ZArith Lia SpecFloat String Ascii.
From stdpp Require Import base option list gmap strings pretty.

Local Open Scope Z_scope.

(** ** Python strings: sequences of Unicode code points *)

Definition codepoint := N.
Abbreviation str := (list codepoint).

(** An ASCII literal of the source, as a [str]. *)
Definition lit (s : string) : str :=
  map N_of_ascii (String.list_ascii_of_string s).

(** What the Python runtime and the deployment fix, taken as given: the
    case mapping and the printable code points of the Unicode database,
    the text [str] gives for a [float], the text [repr] gives for a signal
    number, and the directory of [main.py]. *)
Class Runtime := {
  str_lower : str → str;
  isprintable : codepoint → bool;
  float_str : spec_float → str;
  signal_repr : Z → option str;
  BASE_DIR : str;
  lower_empty : str_lower [] = []
}.

(** [s.startswith(p)] *)
Fixpoint startswith (s p : str) : bool :=
  match p, s with
  | [], _ => true
  | c :: p', d :: s' => (c =? d)%N && startswith s' p'
  | _ :: _, [] => false
  end.

(** [k in s] for two strings *)
Fixpoint str_contains (s k : str) : bool :=
  startswith s k ||
  match s with
  | [] => false
  | _ :: s' => str_contains s' k
  end.

(** [str.isspace] on one code point (the whitespace set of CPython). *)
Definition is_space (c : codepoint) : bool :=
  ((9 <=? c) && (c <=? 13) || (28 <=? c) && (c <=? 32) || (c =? 133) ||
   (c =? 160) || (c =? 5760) || (8192 <=? c) && (c <=? 8202) ||
   (c =? 8232) || (c =? 8233) || (c =? 8239) || (c =? 8287) ||
   (c =? 12288))%N.

Fixpoint lstrip (s : str) : str :=
  match s with
  | c :: s' => if is_space c then lstrip s' else s
  | [] => []
  end.

Definition rstrip (s : str) : str := rev (lstrip (rev s)).

(** [s.strip()] *)
Definition str_strip (s : str) : str := rstrip (lstrip s).

(** ** Exceptions *)

Inductive exn :=
| KeyError (key : str)
| AttributeError (msg : str)
| TypeError (msg : str)
| OverflowError (msg : str)
| FileNotFoundError (msg : str)
| OSError (msg : str)
| CalledProcessError (returncode : Z) (cmd : list str)
| HTTPException (status_code : Z) (detail : str).

Inductive Res (A : Type) :=
| Ok (a : A)
| Raise (e : exn).
Arguments Ok {A} a.
Arguments Raise {A} e.

#[global] Instance Res_ret : MRet Res := @Ok.
#[global] Instance Res_bind : MBind Res := λ A B f m,
  match m with
  | Ok a => f a
  | Raise e => Raise e
  end.

(** ** Python values as they arrive in a JSON body *)

#[warnings="-register-all"] Inductive value :=
| VNone
| VBool (b : bool)
| VInt (n : Z)
| VFloat (f : spec_float)
| VStr (s : str)
| VList (l : list value)
| VDict (d : gmap str value).

Abbreviation dict := (gmap str value).

Definition type_name (v : value) : str :=
  match v with
  | VNone => lit "NoneType"
  | VBool _ => lit "bool"
  | VInt _ => lit "int"
  | VFloat _ => lit "float"
  | VStr _ => lit "str"
  | VList _ => lit "list"
  | VDict _ => lit "dict"
  end.

(** [d[k]] *)
Definition getitem (d : dict) (k : str) : Res value :=
  match d !! k with
  | Some v => Ok v
  | None => Raise (KeyError k)
  end.

Definition no_attribute (v : value) (attr : string) : exn :=
  AttributeError (lit "'" ++ type_name v ++ lit "' object has no attribute '"
                  ++ lit attr ++ lit "'").

(** [v.lower()] *)
Definition py_lower `{Runtime} (v : value) : Res str :=
  match v with
  | VStr s => Ok (str_lower s)
  | _ => Raise (no_attribute v "lower")
  end.

(** [v.strip()] *)
Definition py_strip (v : value) : Res str :=
  match v with
  | VStr s => Ok (str_strip s)
  | _ => Raise (no_attribute v "strip")
  end.

(** ** Python floats: IEEE-754 binary64 *)

Module Float.

Definition prec : Z := 53.
Definition emax : Z := 1024.

Definition add : spec_float → spec_float → spec_float := SFadd prec emax.
Definition sub : spec_float → spec_float → spec_float := SFsub prec emax.
Definition valid : spec_float → bool := valid_binary prec emax.

Definition zero : spec_float := S754_zero false.

(** [float(n)] for an [int]: the nearest double, ties to even;
    [OverflowError] when that is out of range. *)
Definition of_int (n : Z) : Res spec_float :=
  match binary_normalize prec emax n 0 false with
  | S754_infinity _ =>
      Raise (OverflowError (lit "int too large to convert to float"))
  | f => Ok f
  end.

(** Comparison of an [int] with a [float]: Python compares the exact
    values, without converting the [int]. *)
Definition compare_int (n : Z) (f : spec_float) : option comparison :=
  match f with
  | S754_nan => None
  | S754_infinity s => Some (if s then Gt else Lt)
  | S754_zero _ => Some (n ?= 0)
  | S754_finite s m e =>
      let v := if s then Z.neg m else Z.pos m in
      Some (if 0 <=? e then n ?= v * 2 ^ e else n * 2 ^ (- e) ?= v)
  end.

(** [a / b] rounded to the nearest integer, ties to even ([0 < b]). *)
Definition rne_div (a b : Z) : Z :=
  let q := a / b in
  match 2 * (a mod b) ?= b with
  | Lt => q
  | Eq => if Z.even q then q else q + 1
  | Gt => q + 1
  end.

(** The number of binary digits of [n], for [0 <= n]. *)
Definition digits (n : Z) : Z :=
  if n =? 0 then 0 else Z.log2 n + 1.

(** Every double is a multiple of [2^-1074], the smallest positive one. *)
Definition emin : Z := 3 - emax - prec.

(** The double nearest to [a / b] (ties to even) with sign [s], for
    [0 <= a] and [0 < b]: what [strtod] returns on a decimal string.
    With [x] for [a / b] in units of [2^-1074], [e] counts the low bits
    of [x] that do not fit a significand of 53 bits, and [m] is [x]
    without them, rounded. [None] when the rounded value is out of
    range. *)
Definition nearest (s : bool) (a b : Z) : option spec_float :=
  let x := a * 2 ^ (- emin) in
  let e := digits (x / (b * 2 ^ prec)) in
  let m := rne_div x (b * 2 ^ e) in
  let '(m, e) := if m =? 2 ^ prec then (2 ^ (prec - 1), e + 1) else (m, e) in
  match m with
  | Z.pos p =>
      if e + emin <=? emax - prec then Some (S754_finite s p (e + emin))
      else None
  | _ => Some (S754_zero s)
  end.

(** The value [m * 2^e] in hundredths, rounded to the nearest integer
    with ties to even: the digits of the decimal string that [round]
    produces for two places. *)
Definition hundredths (m : positive) (e : Z) : Z :=
  rne_div (100 * Z.pos m * 2 ^ Z.max e 0) (2 ^ Z.max (- e) 0).

(** [round(x, 2)] on a [float]: to a decimal string with two places,
    correctly rounded, and back to the nearest double. Infinities and
    NaN round to themselves. *)
Definition round2 (x : spec_float) : Res spec_float :=
  match x with
  | S754_finite s m e =>
      match nearest s (hundredths m e) 100 with
      | Some r => Ok r
      | None => Raise (OverflowError (lit "rounded value too large to represent"))
      end
  | _ => Ok x
  end.

(** *** Exact values, for the proofs *)

(** [r] is [a / b] rounded to the nearest integer, ties to even. *)
Definition is_rne (a b r : Z) : Prop :=
  (2 * r - 1) * b <= 2 * a <= (2 * r + 1) * b
  ∧ (2 * a = (2 * r + 1) * b → Z.even r = true)
  ∧ (2 * a = (2 * r - 1) * b → Z.even r = true).

(** [a / b], a quantity in units of [2^-1074], rounded to a significand of
    53 bits. *)
Definition grid (a b : Z) : Z :=
  let e := digits (a / (b * 2 ^ prec)) in
  rne_div a (b * 2 ^ e) * 2 ^ e.

(** The state of the right shift of [M] after [k] steps: the bits shifted
    out are summed up in the round bit and the sticky bit. *)
Definition shifted (M k : Z) (mrs : shr_record) : Prop :=
  ∃ rb low, 2 * M = shr_m mrs * 2 ^ (k + 1) + rb * 2 ^ k + low
    ∧ 0 <= low < 2 ^ k ∧ (rb = 0 ∨ rb = 1)
    ∧ shr_r mrs = (rb =? 1) ∧ shr_s mrs = negb (low =? 0) ∧ 0 <= shr_m mrs.

(** What [nearest] returns, from the rounded significand [m0] and the
    exponent [en] in units. *)
Definition pack (s : bool) (m0 en : Z) : option spec_float :=
  let '(m, e) := if m0 =? 2 ^ prec then (2 ^ (prec - 1), en + 1) else (m0, en) in
  match m with
  | Z.pos p =>
      if e + emin <=? emax - prec then Some (S754_finite s p (e + emin)) else None
  | _ => Some (S754_zero s)
  end.

(** An overflow of [nearest] as the infinity. *)
Definition or_inf (s : bool) (o : option spec_float) : spec_float :=
  match o with Some f => f | None => S754_infinity s end.

(** The value of a finite double in units of [2^-1074], an integer. *)
Definition sval (f : spec_float) : Z :=
  match f with
  | S754_finite s m e => (if s then -1 else 1) * (Z.pos m * 2 ^ (e - emin))
  | _ => 0
  end.

(** The numbers and the two infinities, the numbers in units of [2^-1074]. *)
Inductive ext := NegInf | Fin (z : Z) | PosInf.

(** The order of these values. *)
Definition ext_compare (a b : ext) : comparison :=
  match a, b with
  | NegInf, NegInf | PosInf, PosInf => Eq
  | NegInf, _ | _, PosInf => Lt
  | _, NegInf | PosInf, _ => Gt
  | Fin x, Fin y => x ?= y
  end.

Definition ext_le (a b : ext) : Prop := ext_compare a b ≠ Gt.

(** The exact value of a double that is not a NaN. *)
Definition fval (f : spec_float) : option ext :=
  match f with
  | S754_nan => None
  | S754_infinity s => Some (if s then NegInf else PosInf)
  | _ => Some (Fin (sval f))
  end.

(** [2^1024] in units of [2^-1074]: what no double reaches. *)
Definition huge : Z := 2 ^ (emax - emin).

(** The sign as a factor. *)
Definition sgn (s : bool) : Z := if s then -1 else 1.

(** The integer 1 in units of [2^-1074]. *)
Definition scale : Z := 2 ^ (- emin).

(** An exact number of units rounded to a double. *)
Definition rnd (z : Z) : ext :=
  let v := grid (Z.abs z) 1 in
  if huge <=? v then (if z <? 0 then NegInf else PosInf)
  else Fin (Z.sgn z * v).

(** [round(x, 2)] on a number of units that is not negative. *)
Definition r2a (u : Z) : Z := grid (rne_div (100 * u) scale * scale) 100.

(** *** Rounding, as the specification has it *)

(** [v] units is a value that a double can have, its range apart: a
    significand of at most 53 bits times a power of two. *)
Definition representable (v : Z) : Prop :=
  ∃ m k, 0 <= m < 2 ^ prec ∧ 0 <= k ∧ Z.abs v = m * 2 ^ k.

(** [v] is such a value nearest to [a / b] units: no other is closer. *)
Definition nearest_double (a b v : Z) : Prop :=
  representable v
  ∧ ∀ v', representable v' → Z.abs (v * b - a) <= Z.abs (v' * b - a).

(** [h] hundredths is a multiple of 0.01 nearest to [u] units: it is at
    most half a hundredth away. *)
Definition nearest_hundredth (u h : Z) : Prop :=
  2 * Z.abs (100 * u - h * scale) <= scale.

(** [y] units is [x] units rounded to two decimal places: a double
    nearest to a multiple of 0.01 nearest to [x]. *)
Definition to_cents (x y : Z) : Prop :=
  ∃ h, nearest_hundredth x h ∧ nearest_double (h * scale) 100 y.

End Float.

(** ** Arithmetic of the search handler on Python values *)

Definition unsupported (op : string) (v : value) : exn :=
  TypeError (lit "unsupported operand type(s) for " ++ lit op ++ lit ": '"
             ++ type_name v ++ lit "' and 'int'").

(** [a - w] where [w] is an [int] *)
Definition py_sub (a : value) (w : Z) : Res value :=
  match a with
  | VInt n => Ok (VInt (n - w))
  | VBool b => Ok (VInt (Z.b2z b - w))
  | VFloat f => f' ← Float.of_int w; Ok (VFloat (Float.sub f f'))
  | _ => Raise (unsupported "-" a)
  end.

(** [a + w] where [w] is an [int] *)
Definition py_add (a : value) (w : Z) : Res value :=
  match a with
  | VInt n => Ok (VInt (n + w))
  | VBool b => Ok (VInt (Z.b2z b + w))
  | VFloat f => f' ← Float.of_int w; Ok (VFloat (Float.add f f'))
  | VStr _ | VList _ =>
      Raise (TypeError (lit "can only concatenate " ++ type_name a
                        ++ lit " (not " ++ [34%N] ++ lit "int" ++ [34%N]
                        ++ lit ") to " ++ type_name a))
  | _ => Raise (unsupported "+" a)
  end.

(** [0 > x], the comparison [max(x, 0)] makes *)
Definition py_zero_gt (x : value) : Res bool :=
  match x with
  | VInt n => Ok (n <? 0)
  | VBool b => Ok false
  | VFloat f => Ok (SFltb f Float.zero)
  | _ => Raise (TypeError (lit "'>' not supported between instances of 'int' and '"
                           ++ type_name x ++ lit "'"))
  end.

(** [max(x, 0)]: the first argument unless the second is greater. *)
Definition py_max0 (x : value) : Res value :=
  b ← py_zero_gt x; Ok (if b : bool then VInt 0 else x).

(** [round(x, 2)] *)
Definition py_round2 (x : value) : Res value :=
  match x with
  | VInt n => Ok (VInt n)
  | VBool b => Ok (VInt (Z.b2z b))
  | VFloat f => r ← Float.round2 f; Ok (VFloat r)
  | _ => Raise (TypeError (lit "type " ++ type_name x
                           ++ lit " doesn't define __round__ method"))
  end.

(** The [int] a value is, a [bool] being one. *)
Definition int_of (v : value) : option Z :=
  match v with
  | VInt n => Some n
  | VBool b => Some (Z.b2z b)
  | _ => None
  end.

(** Comparison of two numbers as Python does it: exact, [None] when a NaN
    or a non-number is involved. *)
Definition num_compare (a b : value) : option comparison :=
  match int_of a, int_of b with
  | Some m, Some n => Some (m ?= n)
  | Some m, None =>
      match b with
      | VFloat g => Float.compare_int m g
      | _ => None
      end
  | None, Some n =>
      match a with
      | VFloat f => CompOpp <$> Float.compare_int n f
      | _ => None
      end
  | None, None =>
      match a, b with
      | VFloat f, VFloat g => SFcompare f g
      | _, _ => None
      end
  end.

(** [a < b] and [a <= b] *)
Definition py_lt (a b : value) : bool :=
  match num_compare a b with Some Lt => true | _ => false end.
Definition py_le (a b : value) : bool :=
  match num_compare a b with Some (Lt | Eq) => true | _ => false end.

(** ** The search handler *)

Record SearchRequest := {
  segments : list dict;
  keyword : str;
  window : Z
}.

(** One element of ["matches"]. *)
Record Match := {
  found_at : value;
  clip_start : value;
  clip_end : value;
  text : str
}.

Record SearchResponse := {
  resp_keyword : str;
  matches : list Match
}.

Section Search.
Context `{Runtime}.

(** The body of the [if] in the loop of [search_keyword]: the element
    appended for a segment that matched. *)
Definition search_hit (w : Z) (seg : dict) : Res Match :=
  s ← getitem seg (lit "start");
  d ← py_sub s w;
  start ← py_max0 d;
  e ← getitem seg (lit "end");
  end_ ← py_add e w;
  s' ← getitem seg (lit "start");
  fa ← py_round2 s';
  cs ← py_round2 start;
  ce ← py_round2 end_;
  t ← getitem seg (lit "text");
  tx ← py_strip t;
  Ok {| found_at := fa; clip_start := cs; clip_end := ce; text := tx |}.

(** The test of the [if]: [keyword in seg["text"].lower()]. *)
Definition search_test (kw : str) (seg : dict) : Res bool :=
  t ← getitem seg (lit "text");
  tl ← py_lower t;
  Ok (str_contains tl kw).

(** The [for] loop, with [results] as the list built so far. *)
Fixpoint search_loop (kw : str) (w : Z) (segs : list dict)
    (results : list Match) : Res (list Match) :=
  match segs with
  | [] => Ok results
  | seg :: rest =>
      b ← search_test kw seg;
      if b : bool then
        m ← search_hit w seg;
        search_loop kw w rest (results ++ [m])
      else search_loop kw w rest results
  end.

(** The handler (lines 214 to 234) calls nothing of the file system, of
    the tools or of the identifiers, and writes to no object but its own
    list [results]: it is a function of the request. *)
Definition search_keyword (data : SearchRequest) : Res SearchResponse :=
  let kw := str_lower (keyword data) in
  results ← search_loop kw (window data) (segments data) [];
  Ok {| resp_keyword := keyword data; matches := results |}.

End Search.

(** ** Text of values and exceptions: [repr] and [str] *)

Definition hex_digit (n : N) : codepoint :=
  (if n <? 10 then 48 + n else 87 + n)%N.

(** [width] lowercase hexadecimal digits of [n], most significant first. *)
Fixpoint hex (width : nat) (n : N) : str :=
  match width with
  | O => []
  | S k => hex k (n / 16)%N ++ [hex_digit (n mod 16)%N]
  end.

Section Repr.
Context `{Runtime}.

(** One character of [repr(s)], inside the quotes [q]. *)
Definition repr_char (q c : codepoint) : str :=
  if ((c =? q) || (c =? 92))%N then [92%N; c]
  else if (c =? 9)%N then lit "\t"
  else if (c =? 10)%N then lit "\n"
  else if (c =? 13)%N then lit "\r"
  else if ((c <? 32) || (c =? 127))%N then lit "\x" ++ hex 2 c
  else if (c <? 127)%N then [c]
  else if isprintable c then [c]
  else if (c <? 256)%N then lit "\x" ++ hex 2 c
  else if (c <? 65536)%N then lit "\u" ++ hex 4 c
  else lit "\U" ++ hex 8 c.

(** [repr(s)] for a [str]: single quotes, unless the string has a single
    quote and no double quote. *)
Definition repr_str (s : str) : str :=
  let q : codepoint :=
    if bool_decide (39%N ∈ s) && negb (bool_decide (34%N ∈ s))
    then 34%N else 39%N in
  [q] ++ flat_map (repr_char q) s ++ [q].

(** [", ".join(l)] *)
Fixpoint join_comma (l : list str) : str :=
  match l with
  | [] => []
  | [x] => x
  | x :: rest => x ++ lit ", " ++ join_comma rest
  end.

(** [repr(l)] for a list of strings *)
Definition repr_list (l : list str) : str :=
  lit "[" ++ join_comma (map repr_str l) ++ lit "]".

(** [str(e)] *)
Definition exn_str (e : exn) : str :=
  match e with
  | KeyError k => repr_str k
  | AttributeError m | TypeError m | OverflowError m
  | FileNotFoundError m | OSError m => m
  | CalledProcessError rc cmd =>
      if rc <? 0 then
        match signal_repr (- rc) with
        | Some sig =>
            lit "Command '" ++ repr_list cmd ++ lit "' died with "
            ++ sig ++ lit "."
        | None =>
            lit "Command '" ++ repr_list cmd
            ++ lit "' died with unknown signal " ++ lit (pretty (- rc))
            ++ lit "."
        end
      else
        lit "Command '" ++ repr_list cmd
        ++ lit "' returned non-zero exit status " ++ lit (pretty rc)
        ++ lit "."
  | HTTPException sc d => lit (pretty sc) ++ lit ": " ++ d
  end.

End Repr.

(** ** Paths ([os.path], POSIX) *)

Definition slash : codepoint := 47%N.
Definition dot : codepoint := 46%N.

(** [os.path.join(a, b)] *)
Definition path_join (a b : str) : str :=
  if startswith b [slash] then b
  else if bool_decide (a = []) || bool_decide (last a = Some slash) then a ++ b
  else a ++ [slash] ++ b.

(** The index of the last [c] in [s], counted from [i], the index of the
    head of [s]: [s.rfind(c)], with [None] for [-1]. *)
Fixpoint rfind_from (c : codepoint) (s : str) (i : nat) : option nat :=
  match s with
  | [] => None
  | d :: s' =>
      match rfind_from c s' (S i) with
      | Some j => Some j
      | None => if (d =? c)%N then Some i else None
      end
  end.

(** [os.path.splitext(p)[1]]: the extension starts at the last dot, when
    that dot comes after the last slash and after a character of the file
    name that is not a dot. *)
Definition splitext_ext (p : str) : str :=
  match rfind_from dot p 0 with
  | None => []
  | Some dotIndex =>
      let filenameIndex :=
        match rfind_from slash p 0 with
        | Some sepIndex => S sepIndex
        | None => 0%nat
        end in
      if bool_decide (filenameIndex ≤ dotIndex)%nat &&
         existsb (λ c, negb (c =? dot)%N)
                 (take (dotIndex - filenameIndex) (drop filenameIndex p))
      then drop dotIndex p
      else []
  end.

Section Dirs.
Context `{Runtime}.
Definition VIDEO_DIR : str := path_join BASE_DIR (lit "videos").
Definition TEMP_DIR : str := path_join BASE_DIR (lit "temp").
Definition CLIPS_DIR : str := path_join BASE_DIR (lit "clips").
Definition AUDIO_DIR : str := path_join BASE_DIR (lit "audio").
End Dirs.

(** ** The world of a request: files, external tools, identifiers *)

(** How a command ends: it ran, left the files [ran_files] and exited with
    [ran_code]; or it could not be started. *)
Inductive ran :=
| Ran (ran_files : gset str) (ran_code : Z)
| NotStarted (e : exn).

(** How [open(path, "wb")] followed by [write] ends: the file is written;
    or it could not be opened; or it was created and the write failed. *)
Inductive written :=
| Written
| OpenFailed (e : exn)
| WriteFailed (e : exn).

(** Only the existence of a file is kept, not its content. The four
    directories exist from start-up and are not files of the model. *)
Record World := {
  files : gset str;
  tool : list str → gset str → ran;
  writing : str → written;
  removal : str → option exn;
  uuids : nat → str;
  drawn : nat;
  invoked : list (list str)
}.

Definition set_files (fs : gset str) (w : World) : World :=
  {| files := fs; tool := tool w; writing := writing w; removal := removal w;
     uuids := uuids w; drawn := drawn w; invoked := invoked w |}.

Definition log_command (cmd : list str) (w : World) : World :=
  {| files := files w; tool := tool w; writing := writing w;
     removal := removal w; uuids := uuids w; drawn := drawn w;
     invoked := invoked w ++ [cmd] |}.

Definition next_uuid (w : World) : World :=
  {| files := files w; tool := tool w; writing := writing w;
     removal := removal w; uuids := uuids w; drawn := S (drawn w);
     invoked := invoked w |}.

(** Handlers: a result or an exception, and the world they leave. *)
Definition M (A : Type) : Type := World → Res A * World.

#[global] Instance M_ret : MRet M := λ A a w, (Ok a, w).
#[global] Instance M_bind : MBind M := λ A B f m w,
  match m w with
  | (Ok a, w') => f a w'
  | (Raise e, w') => (Raise e, w')
  end.

Definition raise {A} (e : exn) : M A := λ w, (Raise e, w).

(** [try: body  except Exception as e: handler e] *)
Definition try_except {A} (body : M A) (handler : exn → M A) : M A := λ w,
  match body w with
  | (Ok a, w') => (Ok a, w')
  | (Raise e, w') => handler e w'
  end.

(** [try: body  except: pass] *)
Definition try_pass (body : M ()) : M () :=
  try_except body (λ _, mret ()).

(** [str(uuid.uuid4())] *)
Definition uuid4 : M str := λ w, (Ok (uuids w (drawn w)), next_uuid w).

(** [os.path.exists(p)]. The path is taken as it is written: the world
    holds the files under the names they were made with, and a [..] in
    [p] is not resolved. The model is that of the file system for paths
    whose names below the four directories hold no slash. *)
Definition path_exists (p : str) : M bool := λ w,
  (Ok (bool_decide (p ∈ files w)), w).

(** The characters of [s] before its first slash. *)
Fixpoint first_component (s : str) : str :=
  match s with
  | [] => []
  | c :: s' => if (c =? slash)%N then [] else c :: first_component s'
  end.

(** The first component of [p] below the directory [d], if [p] is below.
    The test is on the text of the path, with no [.] or [..] resolved:
    it is that of the file system for the paths the handlers build from
    a directory and a name with no slash in it. *)
Definition entry_of (d p : str) : option str :=
  let pre := d ++ [slash] in
  if startswith p pre then
    match first_component (drop (length pre) p) with
    | [] => None
    | n => Some n
    end
  else None.

(** The names in the directory [d], in the order the file system gives. *)
Definition dir_names (d : str) (w : World) : list str :=
  remove_dups (omap (entry_of d) (elements (files w))).

(** [os.listdir(d)] *)
Definition listdir (d : str) : M (list str) := λ w, (Ok (dir_names d w), w).

(** [os.remove(p)] *)
Definition os_remove `{Runtime} (p : str) : M () := λ w,
  if bool_decide (p ∈ files w) then
    match removal w p with
    | Some e => (Raise e, w)
    | None => (Ok (), set_files (files w ∖ {[p]}) w)
    end
  else
    (Raise (OSError (lit "[Errno 2] No such file or directory: " ++ repr_str p)), w).

(** [with open(p, "wb") as f: f.write(...)] *)
Definition write_file (p : str) : M () := λ w,
  match writing w p with
  | Written => (Ok (), set_files ({[p]} ∪ files w) w)
  | OpenFailed e => (Raise e, w)
  | WriteFailed e => (Raise e, set_files ({[p]} ∪ files w) w)
  end.

(** [subprocess.run(cmd, check=True, ...)] *)
Definition subprocess_run (cmd : list str) : M () := λ w,
  match tool w cmd (files w) with
  | Ran fs rc =>
      let w' := log_command cmd (set_files fs w) in
      if rc =? 0 then (Ok (), w') else (Raise (CalledProcessError rc cmd), w')
  | NotStarted e => (Raise e, log_command cmd w)
  end.

(** ** Helpers of [main.py] *)

(** [try: body  except subprocess.CalledProcessError: handler] *)
Definition except_called {A} (body handler : M A) : M A :=
  try_except body (λ e,
    match e with
    | CalledProcessError _ _ => handler
    | _ => raise e
    end).

Definition extract_audio (video_path audio_path : str) : M () :=
  subprocess_run
    [lit "ffmpeg"; lit "-y"; lit "-i"; video_path; lit "-ac"; lit "1";
     lit "-ar"; lit "16000"; audio_path].

(** Transcription is disabled: no segments. *)
Definition transcribe_audio (audio_path : str) : M (list dict) := mret [].

Section Clips.
Context `{Runtime}.

Definition create_video_clip (video_path : str)
    (start_time end_time : spec_float) (output_path : str) : M () :=
  let duration := Float.sub end_time start_time in
  except_called
    (subprocess_run
       [lit "ffmpeg"; lit "-y"; lit "-i"; video_path;
        lit "-ss"; float_str start_time; lit "-t"; float_str duration;
        lit "-c"; lit "copy"; output_path])
    (subprocess_run
       [lit "ffmpeg"; lit "-y"; lit "-i"; video_path;
        lit "-ss"; float_str start_time; lit "-t"; float_str duration;
        lit "-c:v"; lit "libx264"; lit "-c:a"; lit "aac"; output_path]).

Definition create_audio_clip (audio_path : str)
    (start_time end_time : spec_float) (output_path : str) : M () :=
  let duration := Float.sub end_time start_time in
  subprocess_run
    [lit "ffmpeg"; lit "-y"; lit "-i"; audio_path;
     lit "-ss"; float_str start_time; lit "-t"; float_str duration;
     lit "-ac"; lit "1"; lit "-ar"; lit "16000"; output_path].

End Clips.

(** ** The ingestion handlers *)

Record UploadFile := {
  filename : option str
}.

Record IngestResponse := {
  video_id : str;
  ingest_segments : list dict
}.

Section Ingest.
Context `{Runtime}.

(** The body of the [try] of [upload_video]. *)
Definition upload_body (vid video_path audio_path : str) : M IngestResponse :=
  write_file video_path;;
  extract_audio video_path audio_path;;
  segs ← transcribe_audio audio_path;
  mret {| video_id := vid; ingest_segments := segs |}.

Definition upload_video (file : UploadFile) : M IngestResponse :=
  vid ← uuid4;
  match filename file with
  | None =>
      raise (TypeError (lit "expected str, bytes or os.PathLike object, not NoneType"))
  | Some name =>
      let ext := splitext_ext name in
      let file_ext := if bool_decide (ext = []) then lit ".mp4" else ext in
      let video_path := path_join VIDEO_DIR (vid ++ file_ext) in
      let audio_path := path_join TEMP_DIR (vid ++ lit ".wav") in
      try_except (upload_body vid video_path audio_path) (λ e,
        ex ← path_exists video_path;
        (if ex : bool then os_remove video_path else mret ());;
        raise e)
  end.

(** [[f for f in os.listdir(VIDEO_DIR) if f.startswith(prefix)]] *)
Definition video_files_of (prefix : str) : M (list str) :=
  names ← listdir VIDEO_DIR;
  mret (filter (λ f, startswith f prefix = true) names).

(** The download by [yt_dlp]: the preferred format first, any format when
    that fails. *)
Definition download (video_template url : str) : M () :=
  except_called
    (subprocess_run
       [lit "python"; lit "-m"; lit "yt_dlp"; lit "-f";
        lit "best[ext=mp4]/best"; lit "-o"; video_template; url])
    (subprocess_run
       [lit "python"; lit "-m"; lit "yt_dlp"; lit "-o"; video_template; url]).

(** The body of the [try] of [youtube]. *)
Definition youtube_body (vid video_template audio_path url : str)
    : M IngestResponse :=
  download video_template url;;
  video_files ← video_files_of vid;
  match video_files with
  | [] => raise (FileNotFoundError (lit "Video download failed"))
  | first :: _ =>
      let video_path := path_join VIDEO_DIR first in
      extract_audio video_path audio_path;;
      segs ← transcribe_audio audio_path;
      mret {| video_id := vid; ingest_segments := segs |}
  end.

(** [for vf in video_files: try: os.remove(...) except: pass] *)
Fixpoint remove_all (video_files : list str) : M () :=
  match video_files with
  | [] => mret ()
  | vf :: rest =>
      try_pass (os_remove (path_join VIDEO_DIR vf));;
      remove_all rest
  end.

(** The [if]/[elif]/[else] on [str(e)] that picks the error reported. *)
Definition classify (e : exn) : exn :=
  let error_msg := exn_str e in
  if str_contains error_msg (lit "Video download failed") then
    HTTPException 400
      (lit "Failed to download video. Please check the URL and try again.")
  else if str_contains error_msg (lit "yt_dlp")
          || str_contains error_msg (lit "yt-dlp") then
    HTTPException 500
      (lit "YouTube downloader error. Please ensure yt-dlp is installed: pip install yt-dlp")
  else
    HTTPException 500 (lit "Error processing YouTube video: " ++ error_msg).

Definition youtube (url : str) : M IngestResponse :=
  vid ← uuid4;
  let video_template := path_join VIDEO_DIR (vid ++ lit ".%(ext)s") in
  let audio_path := path_join TEMP_DIR (vid ++ lit ".wav") in
  try_except (youtube_body vid video_template audio_path url) (λ e,
    video_files ← video_files_of vid;
    remove_all video_files;;
    raise (classify e)).

End Ingest.

(** ** Clip generation *)

Record ClipRequest := {
  req_video_id : str;
  start_time : spec_float;
  end_time : spec_float
}.

Inductive ClipResponse :=
| ClipError (error : str)
| ClipCreated (clip_id video_clip : str) (audio_clip : option str).

Section GenerateClip.
Context `{Runtime}.

(** The body of the [try] of [generate_clip]. *)
Definition clip_body (data : ClipRequest)
    (video_path audio_path clip_id clip_video_path clip_audio_path : str)
    : M ClipResponse :=
  create_video_clip video_path (start_time data) (end_time data) clip_video_path;;
  has_audio ← path_exists audio_path;
  (if has_audio : bool
   then create_audio_clip audio_path (start_time data) (end_time data) clip_audio_path
   else mret ());;
  made_audio ← path_exists clip_audio_path;
  mret (ClipCreated clip_id
          (lit "/clips/" ++ clip_id ++ lit ".mp4")
          (if made_audio : bool
           then Some (lit "/audio/" ++ clip_id ++ lit ".wav") else None)).

(** The [except] of [generate_clip]. *)
Definition clip_cleanup (clip_video_path : str) : M () :=
  ex ← path_exists clip_video_path;
  if ex : bool then try_pass (os_remove clip_video_path) else mret ().

Definition generate_clip (data : ClipRequest) : M ClipResponse :=
  video_files ← video_files_of (req_video_id data);
  match video_files with
  | [] => mret (ClipError (lit "Video file not found"))
  | first :: _ =>
      let video_path := path_join VIDEO_DIR first in
      let audio_path := path_join TEMP_DIR (req_video_id data ++ lit ".wav") in
      clip_id ← uuid4;
      let clip_video_path := path_join CLIPS_DIR (clip_id ++ lit ".mp4") in
      let clip_audio_path := path_join AUDIO_DIR (clip_id ++ lit ".wav") in
      try_except
        (clip_body data video_path audio_path clip_id clip_video_path clip_audio_path)
        (λ e, clip_cleanup clip_video_path;; raise e)
  end.

End GenerateClip.

(** The status FastAPI answers with: 200 for a returned body, the status
    of an [HTTPException], 500 for any other exception. A returned body
    is taken to be one that can be written as JSON: a body with an
    infinite or NaN [float] in it makes FastAPI answer 500, which this
    function does not model. *)
Definition http_status {A} (r : Res A) : Z :=
  match r with
  | Ok _ => 200
  | Raise (HTTPException sc _) => sc
  | Raise _ => 500
  end.

(** ** The routes that serve what is there *)

(** What a serving route returns: the file at a path with its media
    type, or the body with an error. *)
Inductive ServeResponse :=
| FileResponse (path media_type : str)
| ServeError (error : str).

Section Serve.
Context `{Runtime}.

Definition get_video_clip (clip_id : str) : M ServeResponse :=
  let clip_path := path_join CLIPS_DIR (clip_id ++ lit ".mp4") in
  ex ← path_exists clip_path;
  if ex : bool then mret (FileResponse clip_path (lit "video/mp4"))
  else mret (ServeError (lit "Clip not found")).

Definition get_audio_clip (clip_id : str) : M ServeResponse :=
  let audio_path := path_join AUDIO_DIR (clip_id ++ lit ".wav") in
  ex ← path_exists audio_path;
  if ex : bool then mret (FileResponse audio_path (lit "audio/wav"))
  else mret (ServeError (lit "Audio clip not found")).

End Serve.

(** The two routes with a fixed body, as lists of key and value. *)
Definition root : M (list (str * str)) :=
  mret [(lit "message", lit "Video Transcription & Search API");
        (lit "status", lit "running")].

Definition health : M (list (str * str)) :=
  mret [(lit "status", lit "healthy")].

(** ** The properties of the search, in the words of the specification *)

(** [k] occurs in [s]. *)
Definition substring (k s : str) : Prop := ∃ pre suf, s = pre ++ k ++ suf.

(** The positions in [idx] go up: no position twice, and in the order of
    the list they index. *)
Definition increasing (idx : list nat) : Prop :=
  ∀ a b i j, idx !! a = Some i → idx !! b = Some j → (a < b)%nat → (i < j)%nat.

(** A number of a JSON body; a [float] is a double. *)
Definition is_number (v : value) : Prop :=
  match v with
  | VInt _ | VBool _ => True
  | VFloat f => Float.valid f = true
  | _ => False
  end.

(** The segment has the three keys the handler reads. *)
Definition has_keys (seg : dict) : bool :=
  bool_decide (is_Some (seg !! lit "text"))
  && bool_decide (is_Some (seg !! lit "start"))
  && bool_decide (is_Some (seg !! lit "end")).

(** A segment of the data model: a text and two times. *)
Definition is_segment (seg : dict) : Prop :=
  ∃ t s e, seg !! lit "text" = Some (VStr t) ∧ seg !! lit "start" = Some s
           ∧ seg !! lit "end" = Some e ∧ is_number s ∧ is_number e.

(** The exact value of a number of a JSON body, in units of [2^-1074]. *)
Definition xv (v : value) : option Float.ext :=
  match v with
  | VInt n => Some (Float.Fin (n * Float.scale))
  | VBool b => Some (Float.Fin (Z.b2z b * Float.scale))
  | VFloat f => Float.fval f
  | _ => None
  end.

(** [round(v, 2)] on a number that is not negative, by the kind of [v]:
    an [int], a zero, the infinity, or a positive double. *)
Definition round2_case (v : value) (x : Float.ext) (r : value) : Prop :=
  (∃ n, int_of v = Some n ∧ x = Float.Fin (n * Float.scale) ∧ xv r = Some x)
  ∨ (x = Float.Fin 0 ∧ xv r = Some (Float.Fin 0))
  ∨ (x = Float.PosInf ∧ xv r = Some Float.PosInf)
  ∨ (∃ m e, Float.valid (S754_finite false m e) = true
            ∧ x = Float.Fin (Z.pos m * 2 ^ (e - Float.emin))
            ∧ xv r = Some (Float.Fin (Float.r2a (Z.pos m * 2 ^ (e - Float.emin))))).

(** The window is in the range of [float]. *)
Definition window_ok (w : Z) : Prop := ∃ f, Float.of_int w = Ok f.

(** *** The fields of an element, in exact numbers *)

(** The number [v] has the value of [x] units of [2^-1074]; an infinity
    and a NaN have none. *)
Definition has_value (v : value) (x : Z) : Prop := xv v = Some (Float.Fin x).

Definition is_float (v : value) : Prop := ∃ f, v = VFloat f.

(** [r] is [v] rounded to two decimal places: an [int] is an [int] with
    the same value, and a [float] is a [float] with the value of [v]
    rounded to two places. *)
Definition rounded2 (v r : value) : Prop :=
  match int_of v with
  | Some n => r = VInt n
  | None => ∃ x y, has_value v x ∧ is_float r ∧ has_value r y ∧ Float.to_cents x y
  end.

(** [d] is [v - w] for the [int] [w]: the exact difference of two
    [int]s, and for a [float] [v] the double nearest to the difference
    of [v] and the double nearest to [w]. *)
Definition difference_of (v : value) (w : Z) (d : value) : Prop :=
  match int_of v with
  | Some n => d = VInt (n - w)
  | None =>
      ∃ x xw y, has_value v x ∧ Float.nearest_double (w * Float.scale) 1 xw
                ∧ Float.nearest_double (x - xw) 1 y ∧ is_float d ∧ has_value d y
  end.

(** [d] is [v + w] for the [int] [w], likewise. *)
Definition sum_of (v : value) (w : Z) (d : value) : Prop :=
  match int_of v with
  | Some n => d = VInt (n + w)
  | None =>
      ∃ x xw y, has_value v x ∧ Float.nearest_double (w * Float.scale) 1 xw
                ∧ Float.nearest_double (x + xw) 1 y ∧ is_float d ∧ has_value d y
  end.

(** [c] is [max(d, 0)]: the [int] 0 where [d] is negative, and [d]
    itself where it is not. *)
Definition clamped0 (d c : value) : Prop :=
  ∃ x, has_value d x ∧ ((x < 0 ∧ c = VInt 0) ∨ (0 <= x ∧ c = d)).

(** [u] is [t] without the whitespace at its two ends: [t] is [u] with
    whitespace before and after it, and [u] neither begins nor ends with
    a whitespace character. *)
Definition stripped (t u : str) : Prop :=
  (∃ pre suf, t = pre ++ u ++ suf
     ∧ Forall (λ c, is_space c = true) pre ∧ Forall (λ c, is_space c = true) suf)
  ∧ (∀ c, head u = Some c → is_space c = false)
  ∧ (∀ c, last u = Some c → is_space c = false).

(** The element of section 4.1 for a segment: [found_at] is the start
    rounded, [clip_start] is the start less the window, not below 0,
    rounded, [clip_end] is the end plus the window, rounded, with
    nothing else done to it, and [text] is the text stripped. *)
Definition element_of (w : Z) (seg : dict) (m : Match) : Prop :=
  ∃ t s e d c g,
    seg !! lit "text" = Some (VStr t) ∧ seg !! lit "start" = Some s
    ∧ seg !! lit "end" = Some e
    ∧ rounded2 s (found_at m)
    ∧ difference_of s w d ∧ clamped0 d c ∧ rounded2 c (clip_start m)
    ∧ sum_of e w g ∧ rounded2 g (clip_end m)
    ∧ stripped t (text m).

(** A time of at most [2^1022] seconds in size, an [int] or a [float]:
    sums and differences of two of them are in the range of [float]. *)
Definition moderate (v : value) : Prop :=
  is_number v ∧ ∃ x, has_value v x ∧ Z.abs x <= 2 ^ 1022 * Float.scale.

(** *** Containment without regard to case *)

Definition is_ascii (c : codepoint) : Prop := (c < 128)%N.

(** [a] and [b] are the same character, or the capital and the small
    form of one of the letters A to Z. *)
Definition same_letter (a b : codepoint) : Prop :=
  a = b ∨ ((65 <= a <= 90)%N ∧ b = (a + 32)%N)
  ∨ ((65 <= b <= 90)%N ∧ a = (b + 32)%N).

(** [t] contains [k] as a case-insensitive substring: a part of [t] is
    [k], letter for letter, but for the case of the letters. *)
Definition occurs_nocase (k t : str) : Prop :=
  ∃ pre mid suf, t = pre ++ mid ++ suf ∧ Forall2 same_letter mid k.

Definition seg_matches_nocase (k : str) (seg : dict) : Prop :=
  ∃ t, seg !! lit "text" = Some (VStr t) ∧ occurs_nocase k t.

Section SearchSpec.
Context `{Runtime}.

(** The test of the handler on a text [t] and a keyword [k]: the
    lower-case form of [t] contains the lower-case form of [k]. *)
Definition contains_ci (t k : str) : Prop :=
  substring (str_lower k) (str_lower t).

Definition seg_matches (k : str) (seg : dict) : Prop :=
  ∃ t, seg !! lit "text" = Some (VStr t) ∧ contains_ci t k.

(** The element of the result that the specification gives for a
    segment: the four fields of section 4.1. *)
Definition element_for (w : Z) (seg : dict) (m : Match) : Prop :=
  ∃ t s e,
    seg !! lit "text" = Some (VStr t) ∧ seg !! lit "start" = Some s
    ∧ seg !! lit "end" = Some e
    ∧ py_round2 s = Ok (found_at m)
    ∧ (d ← py_sub s w; c ← py_max0 d; py_round2 c) = Ok (clip_start m)
    ∧ (d ← py_add e w; py_round2 d) = Ok (clip_end m)
    ∧ text m = str_strip t.

(** The result list picks, in order, one element for each segment that
    matches and none for the others. *)
Inductive selects (k : str) (w : Z) : list dict → list Match → Prop :=
| selects_nil : selects k w [] []
| selects_hit seg m S R :
    seg_matches k seg → element_for w seg m → selects k w S R →
    selects k w (seg :: S) (m :: R)
| selects_skip seg t S R :
    seg !! lit "text" = Some (VStr t) → ¬ contains_ci t k →
    selects k w S R → selects k w (seg :: S) R.

(** The result [R] holds, in the order of the segments, one element for
    each segment that satisfies [P], and nothing else: its elements are
    those of the segments at the increasing positions [idx], and these
    are the positions of the segments that satisfy [P]. *)
Definition picks (P : dict → Prop) (w : Z) (segs : list dict)
    (R : list Match) : Prop :=
  ∃ idx : list nat,
    length idx = length R
    ∧ (∀ j i m, idx !! j = Some i → R !! j = Some m →
         ∃ seg, segs !! i = Some seg ∧ P seg ∧ element_for w seg m)
    ∧ (∀ i seg, segs !! i = Some seg → P seg → i ∈ idx)
    ∧ increasing idx.

End SearchSpec.

(** A character that [repr] leaves as it is, inside either quote. *)
Definition plain (c : codepoint) : bool :=
  ((32 <=? c) && (c <? 127) && negb (c =? 34) && negb (c =? 39)
   && negb (c =? 92))%N.

(** ** A runtime for examples *)

Definition ascii_lower (s : str) : str :=
  map (λ c, if (65 <=? c)%N && (c <=? 90)%N then (c + 32)%N else c) s.

Definition ascii_printable (c : codepoint) : bool :=
  (32 <=? c)%N && (c <? 127)%N.

(** The text of zeros, infinities, NaN and integers below [10^16] as
    CPython prints them; of any other double, its integer part. *)
Definition example_float_str (f : spec_float) : str :=
  match f with
  | S754_zero s => lit (if s then "-0.0" else "0.0")
  | S754_infinity s => lit (if s then "-inf" else "inf")
  | S754_nan => lit "nan"
  | S754_finite s m e =>
      (if s then lit "-" else []) ++
      lit (pretty (if 0 <=? e then Z.pos m * 2 ^ e else Z.pos m / 2 ^ (- e)))
      ++ lit ".0"
  end.

Definition example_signal_repr (n : Z) : option str :=
  if n =? 9 then Some (lit "<Signals.SIGKILL: 9>")
  else if n =? 15 then Some (lit "<Signals.SIGTERM: 15>")
  else None.

(** ASCII case mapping, and [main.py] in [/app]. *)
Definition example_runtime : Runtime := {|
  str_lower := ascii_lower;
  isprintable := ascii_printable;
  float_str := example_float_str;
  signal_repr := example_signal_repr;
  BASE_DIR := lit "/app";
  lower_empty := eq_refl
|}.

(** [str.lower] of the runtime on ASCII text, as CPython has it: the
    letters A to Z become a to z, every other character is kept. *)
Definition lowers_ascii `{Runtime} : Prop :=
  ∀ s, Forall is_ascii s → str_lower s = ascii_lower s.

(** ** A runtime with Greek letters *)

(** [str.lower] of CPython on text of ASCII characters and the Greek
    letters Α to Ω and α to ω. A capital becomes its small letter, 32
    code points up. A capital sigma (931) becomes the final small sigma
    (962) where a cased letter comes before it and none after it,
    case-ignorable characters skipped on both sides, and the small sigma
    (963) elsewhere: [handle_capital_sigma] of [unicodeobject.c]. *)
Definition greek_capital (c : codepoint) : bool :=
  ((913 <=? c) && (c <=? 937) && negb (c =? 930))%N.

Definition is_cased (c : codepoint) : bool :=
  ((65 <=? c) && (c <=? 90) || (97 <=? c) && (c <=? 122)
   || greek_capital c || (945 <=? c) && (c <=? 969))%N.

(** The apostrophe, the full stop, the colon, the circumflex and the
    grave accent. *)
Definition is_case_ignorable (c : codepoint) : bool :=
  ((c =? 39) || (c =? 46) || (c =? 58) || (c =? 94) || (c =? 96))%N.

Definition lower_char (c : codepoint) : codepoint :=
  if ((65 <=? c) && (c <=? 90))%N || greek_capital c then (c + 32)%N else c.

Fixpoint skip_ignorable (s : str) : str :=
  match s with
  | c :: s' => if is_case_ignorable c then skip_ignorable s' else s
  | [] => []
  end.

(** The first character of [s] that is not case-ignorable is cased. *)
Definition cased_next (s : str) : bool :=
  match skip_ignorable s with
  | c :: _ => is_cased c
  | [] => false
  end.

(** The sigma between [before], the text before it read backwards, and
    [after] is in final position. *)
Definition final_sigma (before after : str) : bool :=
  cased_next before && negb (cased_next after).

Fixpoint greek_lower_from (before s : str) : str :=
  match s with
  | [] => []
  | c :: rest =>
      (if (c =? 931)%N then (if final_sigma before rest then 962%N else 963%N)
       else lower_char c)
      :: greek_lower_from (c :: before) rest
  end.

Definition greek_lower (s : str) : str := greek_lower_from [] s.

Definition greek_runtime : Runtime := {|
  str_lower := greek_lower;
  isprintable := ascii_printable;
  float_str := example_float_str;
  signal_repr := example_signal_repr;
  BASE_DIR := lit "/app";
  lower_empty := eq_refl
|}.

(** The double with the value of an integer ([10.0] for [10]). *)
Definition float_lit (n : Z) : value :=
  VFloat (binary_normalize Float.prec Float.emax n 0 false).

Definition segment (t : string) (s e : value) : dict :=
  <[lit "text" := VStr (lit t)]> (<[lit "start" := s]> (<[lit "end" := e]> ∅)).

(** A world for examples: no files, every command exits with status 1,
    every write succeeds, the operating system refuses every removal. *)
Definition hostile_world : World := {|
  files := ∅;
  tool := λ cmd fs, Ran fs 1;
  writing := λ p, Written;
  removal := λ p, Some (OSError (lit "[Errno 13] Permission denied: " ++ @repr_str example_runtime p));
  uuids := λ n, lit "id" ++ lit (pretty n);
  drawn := 0;
  invoked := []
|}.

Definition bad_url : str := lit "https://example.com/Video download failed".

(** A world for examples: the video [abc.mp4] and its audio are there;
    a command that writes an [.mp4] succeeds, any other leaves its output
    file and exits with status 1; removals are permitted. *)
Definition clip_world : World := {|
  files := {[ lit "/app/videos/abc.mp4"; lit "/app/temp/abc.wav" ]};
  tool := λ cmd fs,
    let out := default [] (last cmd) in
    Ran ({[ out ]} ∪ fs) (if bool_decide (last out = Some 52%N) then 0 else 1);
  writing := λ p, Written;
  removal := λ p, None;
  uuids := λ n, lit "id" ++ lit (pretty n);
  drawn := 0;
  invoked := []
|}.

Definition clip_request : ClipRequest := {|
  req_video_id := lit "abc";
  start_time := S754_zero false;
  end_time := S754_finite false 5629499534213120 (-50)
|}.


(** The scenario of the specification: one segment, "Hello world" from
    10.0 to 12.0, searched for "world" with a window of 5. *)
Definition hello_segment : dict :=
  segment "Hello world" (float_lit 10) (float_lit 12).

(** The request, the element and the response of that scenario. *)
Definition hello_request : SearchRequest :=
  {| segments := [hello_segment]; keyword := lit "world"; window := 5 |}.

Definition hello_match : Match :=
  {| found_at := float_lit 10; clip_start := float_lit 5;
     clip_end := float_lit 17; text := lit "Hello world" |}.

Definition hello_response : SearchResponse :=
  {| resp_keyword := lit "world"; matches := [hello_match] |}.

(** The text "ΑΣΑ" and the keyword "ΑΣ": the text begins with the
    keyword. *)
Definition sigma_text : str := [913; 931; 913]%N.
Definition sigma_keyword : str := [913; 931]%N.

Definition sigma_request : SearchRequest :=
  {| segments := [<[lit "text" := VStr sigma_text]>
                    (<[lit "start" := VInt 0]> (<[lit "end" := VInt 1]> ∅))];
     keyword := sigma_keyword; window := 5 |}.

(** Three segments searched for "WORLD" with a window of 5: the first
    has "World", the third "world". *)
Definition shout_request : SearchRequest :=
  {| segments := [segment "Hello World" (float_lit 10) (float_lit 12);
                  segment "Nothing here" (float_lit 12) (float_lit 14);
                  segment "world's end" (float_lit 14) (float_lit 16)];
     keyword := lit "WORLD"; window := 5 |}.

Definition shout_response : SearchResponse :=
  {| resp_keyword := lit "WORLD";
     matches := [{| found_at := float_lit 10; clip_start := float_lit 5;
                    clip_end := float_lit 17; text := lit "Hello World" |};
                 {| found_at := float_lit 14; clip_start := float_lit 9;
                    clip_end := float_lit 21; text := lit "world's end" |}] |}.

(** A segment from 3.14159 to 4.456 with whitespace around its text,
    searched for "world" with a window of 5: the element has [found_at]
    3.14, [clip_start] 0 and [clip_end] 9.46. *)
Definition pi_segment : dict :=
  segment "  Hello World  "
    (VFloat (S754_finite false 7074231776675438 (-51)))
    (VFloat (S754_finite false 5017009984890733 (-50))).

Definition pi_request : SearchRequest :=
  {| segments := [pi_segment]; keyword := lit "world"; window := 5 |}.

Definition pi_match : Match :=
  {| found_at := VFloat (S754_finite false 7070651414971679 (-51));
     clip_start := VInt 0;
     clip_end := VFloat (S754_finite false 5325506559365612 (-49));
     text := lit "Hello World" |}.

Definition pi_response : SearchResponse :=
  {| resp_keyword := lit "world"; matches := [pi_match] |}.

(** A segment from 0.0 to 1.0, searched with a window of -10. *)
Definition early_segment : dict := segment "a" (float_lit 0) (float_lit 1).

Definition early_request : SearchRequest :=
  {| segments := [early_segment]; keyword := lit "a"; window := -10 |}.

(** A segment with no "end". *)
Definition open_segment : dict :=
  <[lit "text" := VStr (lit "a")]> (<[lit "start" := VInt 0]> ∅).

(** The failure of the audio step in [clip_world]. *)
Definition audio_failure : exn :=
  CalledProcessError 1
    [lit "ffmpeg"; lit "-y"; lit "-i"; lit "/app/temp/abc.wav";
     lit "-ss"; lit "0.0"; lit "-t"; lit "5.0";
     lit "-ac"; lit "1"; lit "-ar"; lit "16000"; lit "/app/audio/id0.wav"].

(** A world for examples: the video [abc.mp4] and its audio are there;
    every command leaves its last argument as a file and ends with
    status 0; writes succeed and removals are permitted. *)
Definition studio_world : World := {|
  files := {[ lit "/app/videos/abc.mp4"; lit "/app/temp/abc.wav" ]};
  tool := λ cmd fs, Ran ({[ default [] (last cmd) ]} ∪ fs) 0;
  writing := λ p, Written;
  removal := λ p, None;
  uuids := λ n, lit "id" ++ lit (pretty n);
  drawn := 0;
  invoked := []
|}.

(** A world for examples: no files; every command leaves a part of a
    download and ends with status 1; removals are permitted. *)
Definition partial_world : World := {|
  files := ∅;
  tool := λ cmd fs, Ran ({[ lit "/app/videos/id0.part" ]} ∪ fs) 1;
  writing := λ p, Written;
  removal := λ p, None;
  uuids := λ n, lit "id" ++ lit (pretty n);
  drawn := 0;
  invoked := []
|}.

(** A world for examples: no files; every command leaves the download
    [id0.webm] and ends with status 0. *)
Definition download_world : World := {|
  files := ∅;
  tool := λ cmd fs, Ran ({[ lit "/app/videos/id0.webm" ]} ∪ fs) 0;
  writing := λ p, Written;
  removal := λ p, None;
  uuids := λ n, lit "id" ++ lit (pretty n);
  drawn := 0;
  invoked := []
|}.

Definition watch_url : str := lit "https://example.com/watch?v=1".

(** A world for examples: no files; every command leaves a part of a
    download and ends with status 1; the operating system refuses every
    removal. *)
Definition stubborn_world : World := {|
  files := ∅;
  tool := λ cmd fs, Ran ({[ lit "/app/videos/id0.part" ]} ∪ fs) 1;
  writing := λ p, Written;
  removal := λ p, Some (OSError (lit "[Errno 13] Permission denied"));
  uuids := λ n, lit "id" ++ lit (pretty n);
  drawn := 0;
  invoked := []
|}.

(** * Properties *)

(** ** Strings *)

Lemma startswith_spec (s p : str) :
  startswith s p = true ↔ ∃ suf, s = p ++ suf.
Proof.
  revert s; induction p as [|c p IH]; intros s; simpl.
  - split; [intros _; by exists s | by destruct s].
  - destruct s as [|d s].
    + split; [done | intros [suf ?]; discriminate].
    + cbn. rewrite andb_true_iff, N.eqb_eq, IH. split.
      * intros [-> [suf ->]]. by exists suf.
      * intros [suf [= -> ->]]. eauto.
Qed.

Lemma str_contains_spec (s k : str) :
  str_contains s k = true ↔ substring k s.
Proof.
  induction s as [|d s IH].
  - cbn [str_contains]. rewrite orb_false_r, startswith_spec. split.
    + intros [suf ->]. by exists [], suf.
    + intros [pre [suf Heq]]. symmetry in Heq.
      apply app_eq_nil in Heq as [-> Heq]. apply app_eq_nil in Heq as [-> ->].
      by exists [].
  - cbn [str_contains]. rewrite orb_true_iff, startswith_spec, IH. split.
    + intros [[suf ->] | [pre [suf ->]]].
      * by exists [], suf.
      * by exists (d :: pre), suf.
    + intros [[|c pre] [suf Heq]].
      * left. by exists suf.
      * right. injection Heq as -> ->. by exists pre, suf.
Qed.

Lemma str_contains_nil (s : str) : str_contains s [] = true.
Proof. apply str_contains_spec. by exists [], s. Qed.

Lemma str_contains_refl (s : str) : str_contains s s = true.
Proof. apply str_contains_spec. exists [], []. by rewrite app_nil_r. Qed.

(** ** Stripping *)

Lemma lstrip_split (s : str) :
  ∃ pre, s = pre ++ lstrip s ∧ Forall (λ c, is_space c = true) pre.
Proof.
  induction s as [|c s (pre & IH & Hpre)]; cbn.
  - by exists [].
  - destruct (is_space c) eqn:Hc.
    + exists (c :: pre). split; [by rewrite IH at 1|by constructor].
    + by exists [].
Qed.

Lemma lstrip_head (s : str) c : head (lstrip s) = Some c → is_space c = false.
Proof.
  induction s as [|d s IH]; cbn; [done|].
  destruct (is_space d) eqn:Hd; [done|]. cbn. by intros [= <-].
Qed.

Lemma rstrip_split (s : str) :
  ∃ suf, s = rstrip s ++ suf ∧ Forall (λ c, is_space c = true) suf.
Proof.
  unfold rstrip. destruct (lstrip_split (rev s)) as (pre & Hs & Hpre).
  exists (rev pre). split.
  - rewrite <- rev_app_distr, <- Hs. by rewrite rev_involutive.
  - by apply Forall_rev.
Qed.

Lemma last_rev_head {A} (l : list A) : last (rev l) = head l.
Proof. destruct l as [|a l]; [done|]. cbn. by rewrite last_snoc. Qed.

Lemma rstrip_last (s : str) c : last (rstrip s) = Some c → is_space c = false.
Proof.
  unfold rstrip. rewrite last_rev_head. apply lstrip_head.
Qed.

Lemma head_app_prefix (s t : str) c : head s = Some c → head (s ++ t) = Some c.
Proof. by destruct s. Qed.

(** [s.strip()] is [s] without the whitespace at its two ends. *)
Lemma str_strip_spec (s : str) :
  (∃ pre suf, s = pre ++ str_strip s ++ suf
     ∧ Forall (λ c, is_space c = true) pre ∧ Forall (λ c, is_space c = true) suf)
  ∧ (∀ c, head (str_strip s) = Some c → is_space c = false)
  ∧ (∀ c, last (str_strip s) = Some c → is_space c = false).
Proof.
  unfold str_strip.
  destruct (lstrip_split s) as (pre & Hs & Hpre).
  destruct (rstrip_split (lstrip s)) as (suf & Hl & Hsuf).
  split; [|split].
  - exists pre, suf. split; [|done]. by rewrite <- Hl.
  - intros c Hc. apply (lstrip_head s). rewrite Hl. by apply head_app_prefix.
  - apply rstrip_last.
Qed.

(** ** Results and the search loop *)

Lemma bind_Ok {A B} (m : Res A) (f : A → Res B) (b : B) :
  m ≫= f = Ok b ↔ ∃ a, m = Ok a ∧ f a = Ok b.
Proof.
  destruct m as [a|e]; cbn; split.
  - eauto.
  - by intros [a' [[= ->] ?]].
  - done.
  - by intros [a' [? ?]].
Qed.

Lemma getitem_Ok (d : dict) k v : getitem d k = Ok v ↔ d !! k = Some v.
Proof. unfold getitem. destruct (d !! k); split; congruence. Qed.

Lemma py_strip_Ok v s : py_strip v = Ok s ↔ ∃ t, v = VStr t ∧ s = str_strip t.
Proof.
  destruct v; cbn; split; try done; try by intros [t [[=] _]].
  - intros [= <-]. eauto.
  - by intros [t [[= ->] ->]].
Qed.

Section SearchProps.
Context `{Runtime}.

Lemma search_test_Ok kw seg b :
  search_test kw seg = Ok b ↔
  ∃ t, seg !! lit "text" = Some (VStr t) ∧ b = str_contains (str_lower t) kw.
Proof.
  unfold search_test, getitem.
  destruct (seg !! lit "text") as [v|] eqn:Ht; cbn.
  - destruct v; cbn; split; try done; try by intros [t [[=] _]].
    + intros [= <-]. eauto.
    + intros [t [[= ->] ->]]. done.
  - split; [done | by intros [t [? _]]].
Qed.

Lemma search_hit_element w seg m :
  search_hit w seg = Ok m → element_for w seg m.
Proof.
  unfold search_hit, element_for. intros Hm.
  repeat (apply bind_Ok in Hm as [? [? Hm]]).
  repeat match goal with
         | H : getitem _ _ = Ok _ |- _ => apply getitem_Ok in H
         | H : py_strip _ = Ok _ |- _ => apply py_strip_Ok in H as [t [-> ->]]
         end.
  injection Hm as <-. simplify_eq. cbn.
  eexists _, _, _. repeat split; try eassumption.
  - rewrite H1. cbn. rewrite H2. done.
  - rewrite H4. done.
Qed.

Lemma element_search_hit w seg m :
  element_for w seg m → search_hit w seg = Ok m.
Proof.
  intros (t & s & e & Ht & Hs & He & Hfa & Hcs & Hce & Htx).
  unfold search_hit, getitem. rewrite Hs, He, Ht. cbn.
  apply bind_Ok in Hcs as (d & Hd & Hcs). apply bind_Ok in Hcs as (c & Hc & Hcs).
  apply bind_Ok in Hce as (d' & Hd' & Hce).
  rewrite Hd; cbn. rewrite Hc; cbn. rewrite Hd'; cbn.
  rewrite Hfa; cbn. rewrite Hcs; cbn. rewrite Hce; cbn.
  destruct m; cbn in *. by subst.
Qed.

Lemma search_loop_acc kw w segs acc :
  search_loop kw w segs acc =
  (R ← search_loop kw w segs []; Ok (acc ++ R)).
Proof.
  revert acc. induction segs as [|seg segs IH]; intros acc; cbn.
  - by rewrite app_nil_r.
  - destruct (search_test kw seg) as [[|]|e]; cbn; [|apply IH|done].
    destruct (search_hit w seg) as [m|e]; cbn; [|done].
    rewrite (IH (acc ++ [m])), (IH [m]).
    destruct (search_loop kw w segs []); cbn; [|done].
    by rewrite <- app_assoc.
Qed.

Lemma str_contains_ci t k :
  str_contains (str_lower t) (str_lower k) = true ↔ contains_ci t k.
Proof. apply str_contains_spec. Qed.

Lemma search_loop_selects k w segs R :
  search_loop (str_lower k) w segs [] = Ok R → selects k w segs R.
Proof.
  revert R. induction segs as [|seg segs IH]; intros R; cbn.
  - intros [= <-]. constructor.
  - intros HR. apply bind_Ok in HR as (b & Hb & HR).
    apply search_test_Ok in Hb as (t & Ht & ->).
    destruct (str_contains _ _) eqn:Hc.
    + apply bind_Ok in HR as (m & Hm & HR).
      rewrite search_loop_acc in HR. apply bind_Ok in HR as (R' & HR' & [= <-]).
      cbn. apply selects_hit; [|by apply search_hit_element|by apply IH].
      exists t. split; [done|]. by apply str_contains_ci.
    + eapply selects_skip; [done| |by apply IH].
      rewrite <- str_contains_ci, Hc. done.
Qed.

Lemma selects_search_loop k w segs R :
  selects k w segs R → search_loop (str_lower k) w segs [] = Ok R.
Proof.
  induction 1 as [|seg m L R (t & Ht & Hc) Hm _ IH|seg t L R Ht Hc _ IH]; cbn.
  - done.
  - unfold search_test, getitem. rewrite Ht. cbn.
    apply str_contains_ci in Hc. rewrite Hc.
    rewrite (element_search_hit _ _ _ Hm). cbn.
    rewrite search_loop_acc, IH. done.
  - unfold search_test, getitem. rewrite Ht. cbn.
    destruct (str_contains _ _) eqn:Hc'; [|done].
    apply str_contains_ci in Hc'. done.
Qed.

Lemma selects_indices k w segs R :
  selects k w segs R →
  ∃ idx : list nat,
    length idx = length R
    ∧ (∀ j i m, idx !! j = Some i → R !! j = Some m →
         ∃ seg, segs !! i = Some seg ∧ seg_matches k seg ∧ element_for w seg m)
    ∧ (∀ i seg, segs !! i = Some seg → seg_matches k seg → i ∈ idx)
    ∧ increasing idx.
Proof.
  induction 1 as [|seg m L R Hk Hm _ (idx & Hlen & Hel & Hall & Hinc)
                  |seg t L R Ht Hc _ (idx & Hlen & Hel & Hall & Hinc)].
  - exists []. repeat split; try done.
  - exists (0%nat :: (S <$> idx)). repeat split.
    + cbn. by rewrite length_fmap, Hlen.
    + intros [|j] i m' Hi Hj.
      * injection Hi as <-. injection Hj as <-. eauto.
      * change ((S <$> idx) !! j = Some i) in Hi. change (R !! j = Some m') in Hj.
        apply list_lookup_fmap_Some in Hi as (i' & -> & Hi'). eauto.
    + intros [|i] seg' Hi Hk'; [left|right].
      apply list_elem_of_fmap. eauto.
    + intros [|a] [|b] i j Ha Hb Hab; try lia.
      * injection Ha as <-. change ((S <$> idx) !! b = Some j) in Hb.
        apply list_lookup_fmap_Some in Hb as (j' & -> & _). lia.
      * change ((S <$> idx) !! a = Some i) in Ha.
        change ((S <$> idx) !! b = Some j) in Hb.
        apply list_lookup_fmap_Some in Ha as (i' & -> & Ha).
        apply list_lookup_fmap_Some in Hb as (j' & -> & Hb).
        assert (i' < j')%nat by (eapply Hinc; eauto; lia). lia.
  - exists (S <$> idx). repeat split.
    + by rewrite length_fmap.
    + intros j i m' Hi Hj.
      apply list_lookup_fmap_Some in Hi as (i' & -> & Hi'). eauto.
    + intros [|i] seg' Hi Hk'.
      * injection Hi as <-. destruct Hk' as (t' & Ht' & Hc').
        rewrite Ht in Ht'. injection Ht' as <-. done.
      * apply list_elem_of_fmap. eauto.
    + intros a b i j Ha Hb Hab.
      apply list_lookup_fmap_Some in Ha as (i' & -> & Ha).
      apply list_lookup_fmap_Some in Hb as (j' & -> & Hb).
      assert (i' < j')%nat by (eapply Hinc; eauto). lia.
Qed.
End SearchProps.

(** ** The search handler against its specification *)

Section SearchClaims.
Context `{Runtime}.

Lemma search_keyword_Ok data resp :
  search_keyword data = Ok resp ↔
  resp_keyword resp = keyword data
  ∧ selects (keyword data) (window data) (segments data) (matches resp).
Proof.
  unfold search_keyword. split.
  - intros Hr. apply bind_Ok in Hr as (R & HR & [= <-]). cbn.
    split; [done|]. by apply search_loop_selects.
  - intros [Hk Hs]. rewrite (selects_search_loop _ _ _ _ Hs). cbn.
    destruct resp; cbn in *. by subst.
Qed.

Lemma selects_elements k w segs R :
  selects k w segs R →
  (∀ m, m ∈ R → ∃ seg, seg ∈ segs ∧ seg_matches k seg ∧ element_for w seg m)
  ∧ (∀ seg, seg ∈ segs → seg_matches k seg → ∃ m, m ∈ R ∧ element_for w seg m).
Proof.
  induction 1 as [|seg m L R Hk Hm _ [IH1 IH2]|seg t L R Ht Hc _ [IH1 IH2]].
  - split; intros ? Hin; by apply elem_of_nil in Hin.
  - split.
    + intros m' [->|Hin]%elem_of_cons.
      * exists seg. split; [left|done].
      * destruct (IH1 _ Hin) as (seg' & ? & ?). exists seg'. split; [by right|done].
    + intros seg' [->|Hin]%elem_of_cons Hk'.
      * exists m. split; [left|done].
      * destruct (IH2 _ Hin Hk') as (m' & ? & ?). exists m'. split; [by right|done].
  - split.
    + intros m' Hin. destruct (IH1 _ Hin) as (seg' & ? & ?).
      exists seg'. split; [by right|done].
    + intros seg' [->|Hin]%elem_of_cons Hk'.
      * destruct Hk' as (t' & Ht' & Hc'). rewrite Ht in Ht'. by injection Ht' as <-.
      * by apply IH2.
Qed.

Lemma has_keys_spec seg :
  has_keys seg = true ↔
  is_Some (seg !! lit "text") ∧ is_Some (seg !! lit "start")
  ∧ is_Some (seg !! lit "end").
Proof.
  unfold has_keys. rewrite !andb_true_iff, !bool_decide_eq_true. tauto.
Qed.

Lemma element_has_keys w seg m : element_for w seg m → has_keys seg = true.
Proof.
  intros (t & s & e & Ht & Hs & He & _). apply has_keys_spec.
  rewrite Ht, Hs, He. eauto.
Qed.

(** What a run of the loop that ends without an exception has found in
    each segment. *)
Lemma selects_keys k w segs R :
  selects k w segs R →
  Forall (λ seg, ∃ t, seg !! lit "text" = Some (VStr t)
                      ∧ (contains_ci t k → has_keys seg = true)) segs.
Proof.
  induction 1 as [|seg m L R (t & Ht & Hc) Hm _ IH|seg t L R Ht Hc _ IH].
  - constructor.
  - constructor; [|done]. exists t. split; [done|].
    intros _. by eapply element_has_keys.
  - constructor; [|done]. exists t. split; done.
Qed.

Lemma contains_ci_refl t : contains_ci t t.
Proof. apply str_contains_ci, str_contains_refl. Qed.

Lemma Res_cases {A} (r : Res A) : (∃ a, r = Ok a) ∨ (∃ e, r = Raise e).
Proof. destruct r; eauto. Qed.

(** C9: the search answers every keyword only when each segment has the
    keys "text", "start" and "end": if some segment lacks one of them,
    there is a keyword for which the handler raises instead of
    returning; and a segment with no "text" makes it raise for every
    keyword. *)
Theorem search_needs_keys segs w :
  Exists (λ seg, has_keys seg = false) segs →
  (∃ k e, search_keyword {| segments := segs; keyword := k; window := w |}
          = Raise e)
  ∧ (Exists (λ seg, seg !! lit "text" = None) segs →
     ∀ k, ∃ e, search_keyword {| segments := segs; keyword := k; window := w |}
               = Raise e).
Proof.
  intros Hex. split.
  - apply Exists_exists in Hex as (seg & Hin & Hk).
    set (k := match seg !! lit "text" with Some (VStr t) => t | _ => [] end).
    exists k.
    destruct (Res_cases (search_keyword {| segments := segs; keyword := k; window := w |}))
      as [[resp Hr]|[e He]]; [|eauto].
    apply search_keyword_Ok in Hr as [_ Hs]. cbn in Hs.
    apply selects_keys in Hs. rewrite Forall_forall in Hs.
    destruct (Hs _ Hin) as (t & Ht & Himp).
    subst k. rewrite Ht in Himp. rewrite Himp in Hk; [done|apply contains_ci_refl].
  - intros Hno k.
    destruct (Res_cases (search_keyword {| segments := segs; keyword := k; window := w |}))
      as [[resp Hr]|[e He]]; [|eauto].
    apply search_keyword_Ok in Hr as [_ Hs]. cbn in Hs.
    apply selects_keys in Hs. rewrite Forall_forall in Hs.
    apply Exists_exists in Hno as (seg & Hin & Hnone).
    destruct (Hs _ Hin) as (t & Ht & _). congruence.
Qed.

Lemma selects_none k w segs :
  Forall (λ seg, ∃ t, seg !! lit "text" = Some (VStr t) ∧ ¬ contains_ci t k) segs →
  selects k w segs [].
Proof.
  induction 1 as [|seg L (t & Ht & Hc) _ IH]; [constructor|].
  by eapply selects_skip.
Qed.
End SearchClaims.

(** ** The handlers that touch the world *)

Section ClipProps.
Context `{Runtime}.

Lemma filter_none {A} (P : A → Prop) `{∀ x, Decision (P x)} (l : list A) :
  Forall (λ x, ¬ P x) l → filter P l = [].
Proof.
  induction 1 as [|x l Hx _ IH]; [done|].
  by rewrite filter_cons_False.
Qed.

Lemma path_join_last a b : b ≠ [] → last (path_join a b) = last b.
Proof.
  intros Hb. unfold path_join. destruct (startswith b [slash]); [done|].
  destruct (_ || _).
  - rewrite last_app. destruct (last b) eqn:Hl; [done|].
    apply last_None in Hl. done.
  - rewrite !last_app. destruct (last b) eqn:Hl; [done|].
    apply last_None in Hl. done.
Qed.

Lemma clip_paths_differ (clip_id : str) :
  path_join AUDIO_DIR (clip_id ++ lit ".wav")
  ≠ path_join CLIPS_DIR (clip_id ++ lit ".mp4").
Proof.
  intros Heq. apply (f_equal last) in Heq.
  rewrite !path_join_last, !last_app in Heq by (by destruct clip_id).
  discriminate.
Qed.

Lemma video_files_of_run prefix w :
  video_files_of prefix w
  = (Ok (filter (λ f, startswith f prefix = true) (dir_names VIDEO_DIR w)), w).
Proof. reflexivity. Qed.

Lemma generate_clip_unfold data w :
  generate_clip data w =
  match filter (λ f, startswith f (req_video_id data) = true)
          (dir_names VIDEO_DIR w) with
  | [] => (Ok (ClipError (lit "Video file not found")), w)
  | first :: _ =>
      let clip_id := uuids w (drawn w) in
      let clip_video_path := path_join CLIPS_DIR (clip_id ++ lit ".mp4") in
      match clip_body data (path_join VIDEO_DIR first)
              (path_join TEMP_DIR (req_video_id data ++ lit ".wav"))
              clip_id clip_video_path
              (path_join AUDIO_DIR (clip_id ++ lit ".wav")) (next_uuid w) with
      | (Ok a, w') => (Ok a, w')
      | (Raise e, w') =>
          match clip_cleanup clip_video_path w' with
          | (Ok _, w'') => (Raise e, w'')
          | (Raise e', w'') => (Raise e', w'')
          end
      end
  end.
Proof.
  unfold generate_clip, mbind, M_bind. rewrite video_files_of_run.
  destruct (filter _ _); reflexivity.
Qed.

(** C8: when the identifier of the request is a prefix of no name in the
    videos directory, [generate_clip] returns the body with the error
    "Video file not found", which FastAPI sends with status 200; no
    command is run and the world is as before. *)
Theorem generate_clip_not_found data w :
  Forall (λ f, startswith f (req_video_id data) = false) (dir_names VIDEO_DIR w) →
  generate_clip data w = (Ok (ClipError (lit "Video file not found")), w)
  ∧ http_status (generate_clip data w).1 = 200
  ∧ invoked (generate_clip data w).2 = invoked w.
Proof.
  intros Hno.
  assert (generate_clip data w = (Ok (ClipError (lit "Video file not found")), w)) as ->.
  { rewrite generate_clip_unfold, filter_none; [done|].
    eapply Forall_impl; [exact Hno|]. cbn. intros f ->. done. }
  done.
Qed.

(** The cleanup of [generate_clip]: the only file it can take away is
    the video clip, and it does when the file is there and the
    operating system permits. *)
Lemma clip_cleanup_run p w :
  ∃ w', clip_cleanup p w = (Ok (), w')
    ∧ (removal w p = None → p ∉ files w')
    ∧ (∀ q, q ≠ p → q ∈ files w' ↔ q ∈ files w)
    ∧ invoked w' = invoked w.
Proof.
  unfold clip_cleanup, mbind, M_bind, path_exists.
  destruct (bool_decide (p ∈ files w)) eqn:Hin.
  - unfold try_pass, try_except, os_remove. rewrite Hin.
    destruct (removal w p) as [e|] eqn:Hrm.
    + exists w. repeat split; done.
    + eexists. split; [done|]. cbn. split; [|split; [|done]].
      * intros _. rewrite elem_of_difference, elem_of_singleton. tauto.
      * intros q Hq. rewrite elem_of_difference, elem_of_singleton. tauto.
  - exists w. apply bool_decide_eq_false in Hin. repeat split; done.
Qed.

(** C10: when a step of the clip sequence of [generate_clip] fails,
    whichever it is, the handler raises the exception of that step
    after its cleanup; the cleanup removes the video clip file (it is
    gone unless the operating system refuses the removal, which the
    handler ignores) and no other file: an audio clip file written so
    far stays. *)
Theorem generate_clip_cleanup data w first rest e :
  filter (λ f, startswith f (req_video_id data) = true) (dir_names VIDEO_DIR w)
    = first :: rest →
  let clip_id := uuids w (drawn w) in
  let clip_video_path := path_join CLIPS_DIR (clip_id ++ lit ".mp4") in
  let clip_audio_path := path_join AUDIO_DIR (clip_id ++ lit ".wav") in
  let run :=
    clip_body data (path_join VIDEO_DIR first)
      (path_join TEMP_DIR (req_video_id data ++ lit ".wav"))
      clip_id clip_video_path clip_audio_path (next_uuid w) in
  run.1 = Raise e →
  (generate_clip data w).1 = Raise e
  ∧ (removal run.2 clip_video_path = None →
     clip_video_path ∉ files (generate_clip data w).2)
  ∧ (clip_audio_path ∈ files (generate_clip data w).2
     ↔ clip_audio_path ∈ files run.2)
  ∧ (∀ p, p ≠ clip_video_path →
       p ∈ files (generate_clip data w).2 ↔ p ∈ files run.2)
  ∧ invoked (generate_clip data w).2 = invoked run.2.
Proof.
  intros Hfiles clip_id clip_video_path clip_audio_path run Hrun.
  rewrite generate_clip_unfold, Hfiles. cbv zeta.
  fold clip_id clip_video_path clip_audio_path run.
  destruct run as [r w2] eqn:Hr. cbn in Hrun. subst r. cbn [fst snd].
  destruct (clip_cleanup_run clip_video_path w2) as (w3 & -> & Hgone & Hrest & Hinv).
  cbn [fst snd]. repeat split; try done.
  - apply Hrest, clip_paths_differ.
  - apply Hrest, clip_paths_differ.
  - by apply Hrest.
  - by apply Hrest.
Qed.

(** The cleanup of [upload_video] where the removal is permitted: the
    exception of the failing step is raised and the video file is gone. *)
Lemma upload_video_cleanup name w e :
  let vid := uuids w (drawn w) in
  let ext := splitext_ext name in
  let video_path :=
    path_join VIDEO_DIR (vid ++ if bool_decide (ext = []) then lit ".mp4" else ext) in
  let run := upload_body vid video_path (path_join TEMP_DIR (vid ++ lit ".wav"))
               (next_uuid w) in
  run.1 = Raise e →
  removal run.2 video_path = None →
  (upload_video {| filename := Some name |} w).1 = Raise e
  ∧ video_path ∉ files (upload_video {| filename := Some name |} w).2.
Proof.
  intros vid ext video_path run Hrun Hrm.
  unfold upload_video, mbind, M_bind, uuid4, try_except. cbn [filename].
  fold vid ext video_path run.
  destruct run as [r w2] eqn:Hr. cbn in Hrun, Hrm. subst r.
  unfold path_exists.
  destruct (bool_decide (video_path ∈ files w2)) eqn:Hin.
  - unfold os_remove. rewrite Hin, Hrm. cbn. split; [done|].
    rewrite elem_of_difference, elem_of_singleton. tauto.
  - cbn. split; [done|]. by apply bool_decide_eq_false in Hin.
Qed.
End ClipProps.

(** C6 (where the code departs from it): the extraction fails with a
    [CalledProcessError], the cleanup finds the video file and the
    operating system refuses its removal; [upload_video] then raises the
    error of the removal, not the one of the extraction, and the video
    file is still there. *)
Theorem upload_removal_error_masks_failure :
  let file := {| filename := Some (lit "talk.mov") |} in
  let video_path := lit "/app/videos/id0.mov" in
  let audio_path := lit "/app/temp/id0.wav" in
  (@upload_body (lit "id0") video_path audio_path (next_uuid hostile_world)).1
    = Raise (CalledProcessError 1
               [lit "ffmpeg"; lit "-y"; lit "-i"; video_path; lit "-ac"; lit "1";
                lit "-ar"; lit "16000"; audio_path])
  ∧ (@upload_video example_runtime file hostile_world).1
    = Raise (OSError (lit "[Errno 13] Permission denied: '/app/videos/id0.mov'"))
  ∧ video_path ∈ files (@upload_video example_runtime file hostile_world).2.
Proof.
  cbv zeta. split; [|split].
  - vm_compute. reflexivity.
  - vm_compute. reflexivity.
  - apply (bool_decide_unpack _). vm_compute. exact I.
Qed.

(** C7 (where the code departs from it): the download tool fails on both
    attempts, so the body of [youtube] raises a [CalledProcessError] of the
    [yt_dlp] command; the text of that exception carries the URL, the URL
    contains "Video download failed", and the handler reports the
    failure as a download that produced no file, with status 400. *)
Theorem youtube_misreports_tool_failure :
  (@youtube_body example_runtime (lit "id0") (lit "/app/videos/id0.%(ext)s")
     (lit "/app/temp/id0.wav") bad_url (next_uuid hostile_world)).1
    = Raise (CalledProcessError 1
               [lit "python"; lit "-m"; lit "yt_dlp"; lit "-o";
                lit "/app/videos/id0.%(ext)s"; bad_url])
  ∧ (@youtube example_runtime bad_url hostile_world).1
    = Raise (HTTPException 400
               (lit "Failed to download video. Please check the URL and try again."))
  ∧ http_status (@youtube example_runtime bad_url hostile_world).1 = 400.
Proof.
  split; [|split]; vm_compute; reflexivity.
Qed.

(** ** Doubles: rounding, exact values and order *)

Import Float.

(** *** Quotients rounded to the nearest integer *)

Lemma rne_div_spec a b : 0 < b → is_rne a b (rne_div a b).
Proof.
  intros Hb. unfold is_rne, rne_div.
  pose proof (Z.div_mod a b ltac:(lia)) as Hdm.
  pose proof (Z.mod_pos_bound a b Hb) as Hm.
  set (q := a / b) in *. set (m := a mod b) in *.
  assert (Z.even q = false → Z.even (q + 1) = true) as Hodd.
  { intros Hev. by rewrite Z.even_add, Hev. }
  destruct (Z.compare_spec (2 * m) b) as [Heq|Hlt|Hgt];
    [destruct (Z.even q) eqn:Hev|..];
    (split; [lia|split; intros; first [lia|done|by apply Hodd]]).
Qed.

Lemma is_rne_mono a1 b1 r1 a2 b2 r2 :
  0 < b1 → 0 < b2 → is_rne a1 b1 r1 → is_rne a2 b2 r2 →
  a1 * b2 <= a2 * b1 → r1 <= r2.
Proof.
  intros Hb1 Hb2 ([Hl1 Hu1] & He1 & Ho1) ([Hl2 Hu2] & He2 & Ho2) Hle.
  destruct (Z_le_gt_dec r1 r2) as [|Hgt]; [done|exfalso].
  assert ((2 * r1 - 1) * b1 * b2 <= 2 * a1 * b2) by nia.
  assert (2 * a2 * b1 <= (2 * r2 + 1) * b2 * b1) by nia.
  assert ((2 * r1 - 1) * (b1 * b2) <= (2 * r2 + 1) * (b1 * b2)) by nia.
  assert (0 < b1 * b2) by nia.
  assert (2 * r1 - 1 <= 2 * r2 + 1) by nia.
  assert (r1 = r2 + 1) as -> by lia.
  assert (2 * a1 = (2 * (r2 + 1) - 1) * b1) by nia.
  assert (2 * a2 = (2 * r2 + 1) * b2) by nia.
  specialize (Ho1 ltac:(done)). specialize (He2 ltac:(done)).
  rewrite Z.even_add in Ho1. rewrite He2 in Ho1. done.
Qed.

Lemma rne_div_mono a1 b1 a2 b2 :
  0 < b1 → 0 < b2 → a1 * b2 <= a2 * b1 → rne_div a1 b1 <= rne_div a2 b2.
Proof.
  intros Hb1 Hb2 Hle.
  exact (is_rne_mono _ _ _ _ _ _ Hb1 Hb2 (rne_div_spec _ _ Hb1)
           (rne_div_spec _ _ Hb2) Hle).
Qed.

Lemma rne_div_exact n b : 0 < b → rne_div (n * b) b = n.
Proof.
  intros Hb. unfold rne_div.
  rewrite Z.div_mul, Z.mod_mul by lia.
  destruct (Z.compare_spec (2 * 0) b); lia.
Qed.

Lemma rne_div_scale a b k : 0 < b → 0 < k → rne_div (a * k) (b * k) = rne_div a b.
Proof.
  intros Hb Hk. apply Z.le_antisymm; apply rne_div_mono; nia.
Qed.

Lemma rne_div_le a b n : 0 < b → a <= n * b → rne_div a b <= n.
Proof.
  intros Hb Hle. trans (rne_div (n * 1) 1).
  - apply rne_div_mono; lia.
  - by rewrite rne_div_exact.
Qed.

Lemma rne_div_ge a b n : 0 < b → n * b <= a → n <= rne_div a b.
Proof.
  intros Hb Hle. trans (rne_div (n * 1) 1).
  - by rewrite rne_div_exact.
  - apply rne_div_mono; lia.
Qed.

(** *** Binary digits *)

Lemma div_frac_mono a1 b1 a2 b2 :
  0 < b1 → 0 < b2 → a1 * b2 <= a2 * b1 → a1 / b1 <= a2 / b2.
Proof.
  intros Hb1 Hb2 Hle. apply Z.div_le_lower_bound; [done|].
  pose proof (Z.mul_div_le a1 b1 Hb1). nia.
Qed.

Lemma digits_nonneg n : 0 <= digits n.
Proof.
  unfold digits. destruct (Z.eqb_spec n 0); [done|].
  pose proof (Z.log2_nonneg n). lia.
Qed.

Lemma digits_spec n : 0 < n → 2 ^ (digits n - 1) <= n < 2 ^ digits n.
Proof.
  intros Hn. unfold digits. destruct (Z.eqb_spec n 0); [lia|].
  replace (Z.log2 n + 1 - 1) with (Z.log2 n) by lia.
  replace (Z.log2 n + 1) with (Z.succ (Z.log2 n)) by lia.
  apply Z.log2_spec. done.
Qed.

Lemma digits_pos n : 0 < n → 0 < digits n.
Proof.
  intros Hn. unfold digits. destruct (Z.eqb_spec n 0); [lia|].
  pose proof (Z.log2_nonneg n). lia.
Qed.

Lemma digits_unique n k : 0 < k → 2 ^ (k - 1) <= n < 2 ^ k → digits n = k.
Proof.
  intros Hk Hn. unfold digits.
  assert (0 < 2 ^ (k - 1)) by (apply Z.pow_pos_nonneg; lia).
  destruct (Z.eqb_spec n 0); [lia|].
  rewrite (Z.log2_unique n (k - 1)); [lia|lia|].
  replace (Z.succ (k - 1)) with k by lia. done.
Qed.

Lemma digits_mono m n : 0 <= m <= n → digits m <= digits n.
Proof.
  intros Hmn. unfold digits.
  destruct (Z.eqb_spec m 0), (Z.eqb_spec n 0); try lia.
  - pose proof (Z.log2_nonneg n). lia.
  - pose proof (Z.log2_le_mono m n). lia.
Qed.

Lemma digits_lt_pow n k : 0 <= k → 0 <= n < 2 ^ k → digits n <= k.
Proof.
  intros Hk Hn. destruct (Z.eq_dec n 0) as [->|]; [done|].
  pose proof (digits_spec n ltac:(lia)) as [Hlo _].
  destruct (Z_le_gt_dec (digits n) k); [done|].
  assert (2 ^ k <= 2 ^ (digits n - 1)) by (apply Z.pow_le_mono_r; lia). lia.
Qed.

(** *** The grid of 53-bit significands *)

(** Rounding to the grid keeps the order. *)
Lemma grid_mono a1 b1 a2 b2 :
  0 <= a1 → 0 < b1 → 0 < b2 → a1 * b2 <= a2 * b1 → grid a1 b1 <= grid a2 b2.
Proof.
  intros Ha1 Hb1 Hb2 Hle. unfold grid.
  assert (Hp : 0 < 2 ^ prec) by done.
  assert (0 <= a2) by nia.
  set (n1 := a1 / (b1 * 2 ^ prec)). set (n2 := a2 / (b2 * 2 ^ prec)).
  assert (0 <= n1) by (apply Z.div_pos; nia).
  assert (Hn : n1 <= n2) by (apply div_frac_mono; nia).
  pose proof (digits_mono n1 n2 ltac:(lia)) as He.
  pose proof (digits_nonneg n1) as He1.
  set (e1 := digits n1) in *. set (e2 := digits n2) in *.
  assert (0 < 2 ^ e1) by (apply Z.pow_pos_nonneg; lia).
  assert (0 < 2 ^ e2) by (apply Z.pow_pos_nonneg; lia).
  destruct (Z.eq_dec e1 e2) as [Heq|Hne].
  - rewrite <- Heq. apply Z.mul_le_mono_nonneg_r; [lia|].
    apply rne_div_mono; nia.
  - assert (Hlt : e1 < e2) by lia.
    assert (0 < n2).
    { destruct (Z.eq_dec n2 0) as [Hz|]; [|lia]. subst e2. rewrite Hz in Hlt.
      cbn in Hlt. lia. }
    pose proof (digits_spec n2 ltac:(done)) as [Hlo2 _]. fold e2 in Hlo2.
    assert (Hn1 : n1 < 2 ^ e1).
    { destruct (Z.eq_dec n1 0) as [->|]; [lia|].
      apply (digits_spec n1). lia. }
    (* a1 < b1 * 2^prec * 2^e1 and b2 * 2^prec * 2^(e2-1) <= a2 *)
    assert (Ha1' : a1 < b1 * 2 ^ prec * 2 ^ e1).
    { pose proof (Z.mul_succ_div_gt a1 (b1 * 2 ^ prec) ltac:(nia)) as Hd.
      fold n1 in Hd. nia. }
    assert (Ha2' : b2 * 2 ^ prec * 2 ^ (e2 - 1) <= a2).
    { pose proof (Z.mul_div_le a2 (b2 * 2 ^ prec) ltac:(nia)) as Hd.
      fold n2 in Hd. nia. }
    assert (rne_div a1 (b1 * 2 ^ e1) <= 2 ^ prec) by (apply rne_div_le; nia).
    assert (2 ^ (prec - 1) <= rne_div a2 (b2 * 2 ^ e2)).
    { apply rne_div_ge; [nia|].
      replace (2 ^ e2) with (2 * 2 ^ (e2 - 1)).
      2:{ rewrite <- Z.pow_succ_r by lia. f_equal. lia. }
      change (2 ^ prec) with (2 * 2 ^ (prec - 1)) in Ha2'. nia. }
    assert (2 ^ prec * 2 ^ e1 <= 2 ^ (prec - 1) * 2 ^ e2).
    { change (2 ^ prec) with (2 ^ (prec - 1) * 2).
      rewrite <- Z.mul_assoc. apply Z.mul_le_mono_nonneg_l; [done|].
      rewrite <- Z.pow_succ_r by lia. apply Z.pow_le_mono_r; lia. }
    nia.
Qed.


(** *** The shift register of [SpecFloat] *)

Lemma is_rne_unique a b r1 r2 :
  0 < b → is_rne a b r1 → is_rne a b r2 → r1 = r2.
Proof.
  intros Hb H1 H2. apply Z.le_antisymm; eapply is_rne_mono; eauto; lia.
Qed.

Lemma digits2_pos_spec m :
  2 ^ (Z.pos (digits2_pos m) - 1) <= Z.pos m < 2 ^ Z.pos (digits2_pos m).
Proof.
  induction m as [m IH|m IH|]; cbn [digits2_pos]; [| |done].
  - rewrite Pos2Z.inj_succ.
    replace (Z.succ (Z.pos (digits2_pos m)) - 1) with (Z.succ (Z.pos (digits2_pos m) - 1)) by lia.
    rewrite !Z.pow_succ_r by lia. lia.
  - rewrite Pos2Z.inj_succ.
    replace (Z.succ (Z.pos (digits2_pos m)) - 1) with (Z.succ (Z.pos (digits2_pos m) - 1)) by lia.
    rewrite !Z.pow_succ_r by lia. lia.
Qed.

Lemma digits2_pos_digits m : Z.pos (digits2_pos m) = digits (Z.pos m).
Proof. symmetry. apply digits_unique; [lia|apply digits2_pos_spec]. Qed.

Lemma Zdigits2_digits n : 0 <= n → Zdigits2 n = digits n.
Proof.
  intros Hn. destruct n as [|p|p]; [done| |lia].
  apply digits2_pos_digits.
Qed.

Lemma shifted_start M : 0 <= M →
  shifted M 0 {| shr_m := M; shr_r := false; shr_s := false |}.
Proof. intros HM. exists 0, 0. cbn. repeat split; lia. Qed.

Lemma shifted_step M k mrs :
  0 <= k → shifted M k mrs → shifted M (k + 1) (shr_1 mrs).
Proof.
  intros Hk (rb & low & HM & Hlow & Hrb & Hr & Hs & Hm).
  destruct mrs as [m r s]. cbn in *.
  assert (0 < 2 ^ k) by (apply Z.pow_pos_nonneg; lia).
  assert (Hk1 : 2 ^ (k + 1) = 2 * 2 ^ k) by (rewrite Z.pow_add_r; lia).
  assert (Hk2 : 2 ^ (k + 1 + 1) = 4 * 2 ^ k) by (rewrite !Z.pow_add_r; lia).
  assert (Hor : (r || s) = negb (rb * 2 ^ k + low =? 0)).
  { rewrite Hr, Hs. destruct Hrb as [-> | ->].
    - cbn. done.
    - cbn. symmetry. apply negb_true_iff, Z.eqb_neq. lia. }
  destruct m as [|[p|p|]|p]; try lia; cbn [shr_1 shr_m shr_r shr_s];
    [exists 0, (rb * 2 ^ k + low) | exists 1, (rb * 2 ^ k + low)
    |exists 0, (rb * 2 ^ k + low) | exists 1, (rb * 2 ^ k + low)];
    rewrite Hk1, Hk2 in *; cbn [shr_m shr_r shr_s];
    repeat split; try lia; try done; destruct Hrb; subst; lia.
Qed.

Lemma shifted_iter M p : ∀ k mrs,
  0 <= k → shifted M k mrs → shifted M (k + Z.pos p) (SpecFloat.iter_pos shr_1 p mrs).
Proof.
  induction p as [p IH|p IH|]; intros k mrs Hk Hs; cbn [SpecFloat.iter_pos].
  - replace (k + Z.pos p~1) with (k + 1 + Z.pos p + Z.pos p) by lia.
    apply IH; [lia|]. apply IH; [lia|]. by apply shifted_step.
  - replace (k + Z.pos p~0) with (k + Z.pos p + Z.pos p) by lia.
    apply IH; [lia|]. by apply IH.
  - by apply shifted_step.
Qed.

Lemma shifted_round M k mrs :
  0 <= k → shifted M k mrs →
  round_nearest_even (shr_m mrs) (loc_of_shr_record mrs) = rne_div M (2 ^ k).
Proof.
  intros Hk (rb & low & HM & Hlow & Hrb & Hr & Hs & Hm).
  assert (Hp : 0 < 2 ^ k) by (apply Z.pow_pos_nonneg; lia).
  assert (Hk1 : 2 ^ (k + 1) = 2 * 2 ^ k) by (rewrite Z.pow_add_r; lia).
  rewrite Hk1 in HM.
  apply (is_rne_unique M (2 ^ k)); [done| |by apply rne_div_spec].
  destruct mrs as [m r s]. cbn in *. unfold is_rne.
  assert (Z.even m = false → Z.even (m + 1) = true) as Hodd.
  { intros Hev. by rewrite Z.even_add, Hev. }
  destruct Hrb as [-> | ->]; cbn in Hr; subst r;
    destruct (Z.eqb_spec low 0) as [Hl|Hl]; cbn in Hs; subst s; cbn.
  - split; [nia|]. split; intros; nia.
  - split; [nia|]. split; intros; nia.
  - destruct (Z.even m) eqn:Hev.
    + split; [nia|]. split; intros; [done|nia].
    + split; [nia|]. split; intros; [nia|by apply Hodd].
  - split; [nia|]. split; intros; nia.
Qed.


(** *** [nearest] against the rounding of [SpecFloat] *)

Lemma fexp_eq e : SpecFloat.fexp prec emax e = Z.max (e - prec) emin.
Proof. reflexivity. Qed.

Lemma pow2_pos k : 0 <= k → 0 < 2 ^ k.
Proof. intros. apply Z.pow_pos_nonneg; lia. Qed.

Lemma digits_shift m k : 0 < m → 0 <= k → digits (m * 2 ^ k) = digits m + k.
Proof.
  intros Hm Hk. pose proof (digits_spec m Hm) as [Hlo Hhi].
  pose proof (digits_pos m Hm). pose proof (pow2_pos k Hk).
  apply digits_unique; [lia|].
  replace (digits m + k - 1) with (digits m - 1 + k) by lia.
  rewrite !Z.pow_add_r by lia. nia.
Qed.

Lemma digits_div_pow x p :
  0 <= x → 0 <= p → digits (x / 2 ^ p) = Z.max (digits x - p) 0.
Proof.
  intros Hx Hp. pose proof (pow2_pos p Hp).
  destruct (Z.eq_dec x 0) as [->|Hx0].
  { rewrite Z.div_0_l by lia. cbn. lia. }
  pose proof (digits_spec x ltac:(lia)) as [Hlo Hhi].
  pose proof (digits_pos x ltac:(lia)).
  destruct (Z_le_gt_dec (digits x) p) as [Hle|Hgt].
  - assert (x < 2 ^ p).
    { eapply Z.lt_le_trans; [exact Hhi|]. apply Z.pow_le_mono_r; lia. }
    rewrite Z.div_small by lia. cbn. lia.
  - rewrite Z.max_l by lia. apply digits_unique; [lia|].
    split.
    + apply Z.div_le_lower_bound; [lia|].
      rewrite Z.mul_comm, <- Z.pow_add_r by lia.
      replace (digits x - p - 1 + p) with (digits x - 1) by lia. done.
    + apply Z.div_lt_upper_bound; [lia|].
      rewrite <- Z.pow_add_r by lia.
      replace (p + (digits x - p)) with (digits x) by lia. done.
Qed.

Lemma shl_pos m d : Z.pos (Pos.iter xO m d) = Z.pos m * 2 ^ Z.pos d.
Proof.
  change (Pos.iter xO m d) with (shift_pos d m).
  rewrite shift_pos_correct, Zpower_pos_nat, Zpower_nat_Z, positive_nat_Z. lia.
Qed.

Lemma shr_fexp_noshift m e l :
  SpecFloat.fexp prec emax (Zdigits2 m + e) - e <= 0 →
  shr_fexp prec emax m e l = (shr_record_of_loc m l, e).
Proof.
  intros Hn. unfold shr_fexp, shr.
  destruct (SpecFloat.fexp prec emax (Zdigits2 m + e) - e); [done|lia|done].
Qed.

Lemma shr_fexp_shift m e p :
  0 <= m →
  SpecFloat.fexp prec emax (Zdigits2 m + e) - e = Z.pos p →
  ∃ mrs, shr_fexp prec emax m e loc_Exact = (mrs, e + Z.pos p)
         ∧ shifted m (Z.pos p) mrs.
Proof.
  intros Hm Hn. unfold shr_fexp, shr. rewrite Hn. eexists. split; [done|].
  apply (shifted_iter m p 0); [lia|]. by apply shifted_start.
Qed.

Lemma binary_round_aux_noshift s m e :
  SpecFloat.fexp prec emax (Z.pos (digits2_pos m) + e) - e <= 0 →
  binary_round_aux prec emax s (Z.pos m) e loc_Exact =
  if e <=? emax - prec then S754_finite s m e else S754_infinity s.
Proof.
  intros Hn. unfold binary_round_aux.
  rewrite shr_fexp_noshift by done. cbn [shr_record_of_loc shr_m loc_of_shr_record round_nearest_even].
  rewrite shr_fexp_noshift by done. done.
Qed.

Lemma nearest_pack s a b :
  nearest s a b =
  let x := a * 2 ^ (- emin) in
  let en := digits (x / (b * 2 ^ prec)) in
  pack s (rne_div x (b * 2 ^ en)) en.
Proof. reflexivity. Qed.

Lemma binary_round_aux_shift s m e p :
  emin <= e →
  SpecFloat.fexp prec emax (Z.pos (digits2_pos m) + e) - e = Z.pos p →
  binary_round_aux prec emax s (Z.pos m) e loc_Exact =
  or_inf s (pack s (rne_div (Z.pos m) (2 ^ Z.pos p)) (e + Z.pos p - emin)).
Proof.
  intros He Hn. unfold binary_round_aux.
  destruct (shr_fexp_shift (Z.pos m) e p ltac:(lia) Hn) as (mrs & -> & Hsh).
  rewrite (shifted_round (Z.pos m) (Z.pos p) mrs ltac:(lia) Hsh).
  set (m1 := rne_div (Z.pos m) (2 ^ Z.pos p)).
  set (E := e + Z.pos p) in *.
  assert (HE : E = Z.max (Z.pos (digits2_pos m) + e - prec) emin).
  { subst E. rewrite fexp_eq in Hn. lia. }
  pose proof (digits2_pos_spec m) as [_ Hhi].
  assert (Hm1 : 0 <= m1 <= 2 ^ prec).
  { split.
    - apply rne_div_ge; [apply pow2_pos; lia|lia].
    - apply rne_div_le; [apply pow2_pos; lia|].
      rewrite <- Z.pow_add_r by (unfold prec; lia).
      eapply Z.le_trans; [apply Z.lt_le_incl, Hhi|].
      apply Z.pow_le_mono_r; lia. }
  unfold pack.
  destruct (Z.eqb_spec m1 (2 ^ prec)) as [Heq|Hne].
  - rewrite Heq.
    assert (Hs : SpecFloat.fexp prec emax (Zdigits2 (2 ^ prec) + E) - E = 1).
    { rewrite fexp_eq. change (Zdigits2 (2 ^ prec)) with 54. unfold prec. lia. }
    unfold shr_fexp. rewrite Hs. cbn [shr shr_record_of_loc].
    change (SpecFloat.iter_pos shr_1 1 {| shr_m := 2 ^ prec; shr_r := false; shr_s := false |})
      with {| shr_m := 2 ^ (prec - 1); shr_r := false; shr_s := false |}.
    cbn [shr_m]. change (2 ^ (prec - 1)) with (Z.pos 4503599627370496).
    cbn iota beta. replace (E - emin + 1 + emin) with (E + 1) by lia.
    destruct (E + 1 <=? emax - prec); done.
  - rewrite shr_fexp_noshift.
    2:{ rewrite fexp_eq, Zdigits2_digits by lia.
        assert (digits m1 <= prec).
        { apply digits_lt_pow; [done|lia]. }
        lia. }
    cbn [shr_record_of_loc shr_m]. replace (E - emin + emin) with E by lia.
    destruct m1 as [|p0|p0]; [done| |lia].
    by destruct (E <=? emax - prec).
Qed.


Lemma pos_lt_pow_digits m : Z.pos (digits2_pos m) <= prec → Z.pos m < 2 ^ prec.
Proof.
  intros Hd. pose proof (digits2_pos_spec m) as [_ Hhi].
  eapply Z.lt_le_trans; [exact Hhi|]. apply Z.pow_le_mono_r; lia.
Qed.

Lemma pack_small s m e :
  Z.pos m < 2 ^ prec →
  or_inf s (pack s (Z.pos m) (e - emin)) =
  if e <=? emax - prec then S754_finite s m e else S754_infinity s.
Proof.
  intros Hm. unfold pack.
  destruct (Z.eqb_spec (Z.pos m) (2 ^ prec)) as [Heq|_]; [lia|].
  replace (e - emin + emin) with e by lia.
  by destruct (e <=? emax - prec).
Qed.

(** [binary_round], with which [SpecFloat] rounds sums, differences and
    conversions, is [nearest] on [mx * 2^ex]. *)
Lemma binary_round_nearest s mx ex :
  emin <= ex →
  binary_round prec emax s mx ex =
  or_inf s (nearest s (Z.pos mx * 2 ^ (ex - emin)) (2 ^ (- emin))).
Proof.
  intros He. unfold binary_round. rewrite nearest_pack. cbv zeta.
  set (U := 2 ^ (- emin)). set (k := ex - emin).
  set (X := Z.pos mx * 2 ^ k).
  assert (HU : 0 < U) by (apply pow2_pos; unfold emin, emax, prec; lia).
  assert (Hk : 0 <= k) by (unfold k; lia).
  pose proof (pow2_pos k Hk) as H2k.
  assert (HX : 0 < X) by (unfold X; nia).
  assert (Hdiv : X * U / (U * 2 ^ prec) = X / 2 ^ prec).
  { rewrite (Z.mul_comm U). apply Z.div_mul_cancel_r; [done|lia]. }
  set (d := Z.pos (digits2_pos mx)).
  assert (HdX : digits X = d + k).
  { unfold X. rewrite digits_shift, <- digits2_pos_digits by lia. done. }
  rewrite Hdiv, digits_div_pow, HdX by (done || lia).
  rewrite fexp_eq.
  set (E := Z.max (d + ex - prec) emin).
  assert (HEN : Z.max (d + k - prec) 0 = E - emin) by (unfold E, k; lia).
  rewrite HEN.
  assert (Hrne : rne_div (X * U) (U * 2 ^ (E - emin)) = rne_div X (2 ^ (E - emin))).
  { rewrite (Z.mul_comm U). apply rne_div_scale; [apply pow2_pos; unfold E; lia|done]. }
  rewrite Hrne.
  unfold shl_align.
  destruct (E - ex) as [|p|dd] eqn:Hsh.
  - (* no shift at all *)
    assert (E = ex) as HEe by lia.
    rewrite binary_round_aux_noshift by (rewrite fexp_eq; fold d E; lia).
    replace (E - emin) with k by (unfold k; lia).
    unfold X. rewrite rne_div_exact by done.
    rewrite <- (pack_small s mx ex); [done|].
    apply pos_lt_pow_digits. fold d. unfold E in HEe. lia.
  - (* shift right *)
    rewrite (binary_round_aux_shift s mx ex p He) by (rewrite fexp_eq; fold d E; lia).
    replace (ex + Z.pos p - emin) with (E - emin) by lia.
    assert (rne_div X (2 ^ (E - emin)) = rne_div (Z.pos mx) (2 ^ Z.pos p)) as ->; [|done].
    replace (E - emin) with (Z.pos p + k) by (unfold k; lia).
    rewrite Z.pow_add_r by lia. unfold X.
    apply rne_div_scale; [apply pow2_pos; lia|done].
  - (* shift left *)
    assert (Hmz : Z.pos (Pos.iter xO mx dd) = Z.pos mx * 2 ^ Z.pos dd) by apply shl_pos.
    assert (Hdz : Z.pos (digits2_pos (Pos.iter xO mx dd)) = d + Z.pos dd).
    { rewrite digits2_pos_digits, Hmz, digits_shift, <- digits2_pos_digits by lia. done. }
    rewrite binary_round_aux_noshift.
    2:{ rewrite fexp_eq, Hdz. fold E. unfold E. lia. }
    assert (Hexact : X = Z.pos (Pos.iter xO mx dd) * 2 ^ (E - emin)).
    { rewrite Hmz. unfold X. rewrite <- Z.mul_assoc, <- Z.pow_add_r by (unfold E; lia).
      f_equal. f_equal. unfold k. lia. }
    rewrite Hexact, rne_div_exact by (apply pow2_pos; unfold E; lia).
    rewrite <- (pack_small s _ E); [done|].
    apply pos_lt_pow_digits. rewrite Hdz. unfold E. lia.
Qed.


(** *** Values of the results of [nearest] *)

Lemma grid_scale a b k : 0 < b → 0 < k → grid (a * k) (b * k) = grid a b.
Proof.
  intros Hb Hk. unfold grid.
  replace (b * k * 2 ^ prec) with (b * 2 ^ prec * k) by lia.
  rewrite Z.div_mul_cancel_r by (unfold prec; lia).
  set (e := digits _). pose proof (pow2_pos e (digits_nonneg _)).
  replace (b * k * 2 ^ e) with (b * 2 ^ e * k) by lia.
  rewrite rne_div_scale by nia. done.
Qed.

Lemma grid_nonneg a b : 0 <= a → 0 < b → 0 <= grid a b.
Proof.
  intros Ha Hb. unfold grid. set (e := digits _).
  pose proof (pow2_pos e (digits_nonneg _)).
  apply Z.mul_nonneg_nonneg; [|lia].
  apply rne_div_ge; nia.
Qed.

Lemma grid_zero b : 0 < b → grid 0 b = 0.
Proof.
  intros Hb. unfold grid. rewrite Z.div_0_l by (unfold prec; lia).
  cbn [digits Z.eqb]. rewrite Z.mul_1_r, Z.mul_1_r.
  apply (rne_div_exact 0 b Hb).
Qed.

(** A significand of at most 53 bits at any exponent is on the grid. *)
Lemma grid_exact m k b :
  0 <= m < 2 ^ prec → 0 <= k → 0 < b → grid (m * 2 ^ k * b) b = m * 2 ^ k.
Proof.
  intros Hm Hk Hb. pose proof (pow2_pos k Hk) as H2k.
  rewrite <- (Z.mul_1_l b) at 2. rewrite grid_scale by lia.
  unfold grid. rewrite !Z.mul_1_l.
  set (x := m * 2 ^ k). set (e := digits (x / 2 ^ prec)).
  assert (He : 0 <= e <= k).
  { split; [apply digits_nonneg|].
    apply digits_lt_pow; [done|]. split.
    - apply Z.div_pos; [unfold x; nia|done].
    - apply Z.div_lt_upper_bound; [done|]. unfold x. nia. }
  pose proof (pow2_pos e ltac:(lia)) as H2e.
  assert (Hx : x = m * 2 ^ (k - e) * 2 ^ e).
  { unfold x. rewrite <- Z.mul_assoc, <- Z.pow_add_r by lia.
    do 2 f_equal. lia. }
  rewrite Hx at 1. rewrite rne_div_exact by done. lia.
Qed.

Lemma grid_bounds a b :
  0 <= a → 0 < b →
  let e := digits (a / (b * 2 ^ prec)) in
  let m := rne_div a (b * 2 ^ e) in
  0 <= m <= 2 ^ prec ∧ (0 < e → 2 ^ (prec - 1) <= m).
Proof.
  intros Ha Hb e m. assert (Hp : 0 < 2 ^ prec) by done.
  set (n := a / (b * 2 ^ prec)) in *.
  assert (Hn : 0 <= n) by (apply Z.div_pos; nia).
  pose proof (digits_nonneg n) as He. fold e in He.
  pose proof (pow2_pos e He) as H2e.
  pose proof (Z.mul_succ_div_gt a (b * 2 ^ prec) ltac:(nia)) as Hhi. fold n in Hhi.
  pose proof (Z.mul_div_le a (b * 2 ^ prec) ltac:(nia)) as Hlo. fold n in Hlo.
  assert (Hne : n < 2 ^ e).
  { destruct (Z.eq_dec n 0) as [Hz|]; [lia|]. apply (digits_spec n). lia. }
  split; [split|].
  - apply rne_div_ge; nia.
  - apply rne_div_le; nia.
  - intros Hpos.
    assert (0 < n).
    { destruct (Z.eq_dec n 0) as [Hz|]; [|lia]. unfold e in Hpos. rewrite Hz in Hpos.
      cbn in Hpos. lia. }
    pose proof (digits_spec n ltac:(done)) as [Hlo2 _]. fold e in Hlo2.
    apply rne_div_ge; [nia|].
    replace (2 ^ e) with (2 * 2 ^ (e - 1)).
    2:{ rewrite <- Z.pow_succ_r by lia. f_equal. lia. }
    change (2 ^ prec) with (2 * 2 ^ (prec - 1)) in Hlo. nia.
Qed.

Lemma valid_finite s m e :
  valid (S754_finite s m e) = true ↔
  Z.max (digits (Z.pos m) + e - prec) emin = e ∧ e <= emax - prec.
Proof.
  unfold valid, valid_binary, bounded, canonical_mantissa.
  rewrite andb_true_iff, Z.eqb_eq, Z.leb_le, fexp_eq, digits2_pos_digits. done.
Qed.

Lemma pow2_le a b : 0 <= a <= b → 2 ^ a <= 2 ^ b.
Proof. intros. apply Z.pow_le_mono_r; lia. Qed.

Lemma pack_cases s m0 en :
  0 <= m0 <= 2 ^ prec → 0 <= en → (0 < en → 2 ^ (prec - 1) <= m0) →
  match pack s m0 en with
  | Some f =>
      valid f = true ∧ fval f = Some (Fin (sgn s * (m0 * 2 ^ en)))
      ∧ (f = S754_zero s ∨ ∃ m e, f = S754_finite s m e)
      ∧ m0 * 2 ^ en < huge
  | None => huge <= m0 * 2 ^ en
  end.
Proof.
  intros Hm Hen Hnorm. unfold pack.
  assert (H2en : 0 < 2 ^ en) by (by apply pow2_pos).
  assert (Hemin : emin = -1074) by done.
  assert (Hemax : emax - prec = 971) by done.
  assert (Hprec : prec = 53) by done.
  assert (Hh : huge = 2 ^ (prec - 1) * 2 ^ (emax - emin - (prec - 1))).
  { unfold huge. rewrite <- Z.pow_add_r by (unfold emin, emax, prec; lia).
    f_equal; lia. }
  assert (Hpp : 2 ^ prec = 2 * 2 ^ (prec - 1)) by done.
  assert (H52 : 0 < 2 ^ (prec - 1)) by done.
  destruct (Z.eqb_spec m0 (2 ^ prec)) as [Heq|Hne].
  - change (2 ^ (prec - 1)) with (Z.pos 4503599627370496) at 1.
    cbn iota beta.
    destruct (Z.leb_spec (en + 1 + emin) (emax - prec)) as [Hle|Hgt].
    + split; [|split; [|split]].
      * apply valid_finite. change (digits _) with 53. lia.
      * cbn [fval sval]. do 2 f_equal. fold (sgn s). rewrite Heq.
        replace (en + 1 + emin - emin) with (en + 1) by lia.
        rewrite Z.pow_add_r by lia. change (Z.pos 4503599627370496) with (2 ^ (prec - 1)).
        rewrite Hpp, Z.pow_1_r. ring.
      * right. eauto.
      * rewrite Heq, Hh, Hpp.
        assert (2 * (2 * 2 ^ en) <= 2 ^ (emax - emin - (prec - 1))).
        { rewrite <- !Z.pow_succ_r by lia. apply pow2_le. lia. }
        nia.
    + rewrite Heq, Hh, Hpp.
      assert (2 ^ (emax - emin - (prec - 1)) <= 2 * 2 ^ en).
      { rewrite <- Z.pow_succ_r by lia. apply pow2_le. lia. }
      nia.
  - destruct m0 as [|p|p]; [| |lia].
    + split; [done|]. split; [|split; [by left|]].
      * cbn [fval sval]. do 2 f_equal. lia.
      * unfold huge. apply pow2_pos. lia.
    + destruct (Z.leb_spec (en + emin) (emax - prec)) as [Hle|Hgt].
      * split; [|split; [|split]].
        -- apply valid_finite. split; [|done].
           assert (digits (Z.pos p) <= prec).
           { apply digits_lt_pow; [lia|lia]. }
           destruct (Z.eq_dec en 0) as [->|Hpos]; [lia|].
           assert (digits (Z.pos p) = prec).
           { apply digits_unique; [lia|]. split; [apply Hnorm|]; lia. }
           lia.
        -- cbn [fval sval]. do 2 f_equal. fold (sgn s).
           replace (en + emin - emin) with en by lia. done.
        -- right. eauto.
        -- rewrite Hh.
           assert (2 * 2 ^ en <= 2 ^ (emax - emin - (prec - 1))).
           { rewrite <- Z.pow_succ_r by lia. apply pow2_le. lia. }
           nia.
      * rewrite Hh. specialize (Hnorm ltac:(lia)).
        assert (2 ^ (emax - emin - (prec - 1)) <= 2 ^ en) by (apply pow2_le; lia).
        nia.
Qed.

Lemma nearest_cases s a b :
  0 <= a → 0 < b →
  match nearest s a b with
  | Some f =>
      valid f = true ∧ fval f = Some (Fin (sgn s * grid (a * 2 ^ (- emin)) b))
      ∧ (f = S754_zero s ∨ ∃ m e, f = S754_finite s m e)
      ∧ grid (a * 2 ^ (- emin)) b < huge
  | None => huge <= grid (a * 2 ^ (- emin)) b
  end.
Proof.
  intros Ha Hb. rewrite nearest_pack. cbv zeta.
  assert (0 < 2 ^ (- emin)) by (by apply pow2_pos).
  pose proof (grid_bounds (a * 2 ^ (- emin)) b ltac:(nia) Hb) as [Hm Hnorm].
  apply pack_cases; [done|apply digits_nonneg|done].
Qed.


(** *** Exact values of sums and differences *)

Lemma scale_pos : 0 < scale.
Proof. by apply pow2_pos. Qed.

Lemma valid_finite_bounds s m e :
  valid (S754_finite s m e) = true →
  emin <= e <= emax - prec ∧ Z.pos m < 2 ^ prec.
Proof.
  intros [Hc He]%valid_finite.
  pose proof (digits_spec (Z.pos m) ltac:(lia)) as [_ Hhi].
  split; [lia|]. eapply Z.lt_le_trans; [exact Hhi|]. apply pow2_le.
  pose proof (digits_pos (Z.pos m) ltac:(lia)). lia.
Qed.

Lemma huge_split k : 0 <= k <= emax - prec - emin → 2 ^ prec * 2 ^ k <= huge.
Proof.
  intros Hk. unfold huge. rewrite <- Z.pow_add_r by (unfold prec; lia).
  apply pow2_le. unfold prec, emax, emin in *. lia.
Qed.

Lemma rnd_exact_abs m k :
  0 <= m < 2 ^ prec → 0 <= k <= emax - prec - emin →
  grid (m * 2 ^ k) 1 = m * 2 ^ k ∧ m * 2 ^ k < huge.
Proof.
  intros Hm Hk. split.
  - rewrite <- (Z.mul_1_r (m * 2 ^ k)) at 1. apply grid_exact; lia.
  - pose proof (huge_split k Hk). pose proof (pow2_pos k ltac:(lia)). nia.
Qed.

Lemma rnd_exact f v : valid f = true → fval f = Some (Fin v) → rnd v = Fin v.
Proof.
  intros Hv Hf. destruct f as [s|[|]| |s m e]; try done.
  - injection Hf as <-. cbn [sval]. unfold rnd. cbn [Z.abs].
    rewrite grid_zero by lia. done.
  - injection Hf as <-. cbn [sval].
    pose proof (valid_finite_bounds s m e Hv) as [He Hm].
    pose proof (rnd_exact_abs (Z.pos m) (e - emin) ltac:(lia) ltac:(lia)) as [Hg Hh].
    pose proof (pow2_pos (e - emin) ltac:(lia)).
    unfold rnd.
    assert (Z.abs ((if s then -1 else 1) * (Z.pos m * 2 ^ (e - emin)))
            = Z.pos m * 2 ^ (e - emin)) as -> by (destruct s; nia).
    rewrite Hg. destruct (Z.leb_spec huge (Z.pos m * 2 ^ (e - emin))); [lia|].
    f_equal. destruct s; nia.
Qed.

Lemma ext_le_refl a : ext_le a a.
Proof. destruct a; unfold ext_le; cbn; try done. by rewrite Z.compare_refl. Qed.

Lemma ext_le_trans a b c : ext_le a b → ext_le b c → ext_le a c.
Proof.
  unfold ext_le. destruct a, b, c; cbn; try done.
  rewrite !Z.compare_gt_iff. lia.
Qed.

Lemma ext_le_Fin x y : ext_le (Fin x) (Fin y) ↔ x <= y.
Proof. unfold ext_le. cbn. rewrite Z.compare_gt_iff. lia. Qed.

Lemma rnd_mono z1 z2 : z1 <= z2 → ext_le (rnd z1) (rnd z2).
Proof.
  intros Hz. unfold rnd.
  pose proof (grid_nonneg (Z.abs z1) 1 ltac:(lia) ltac:(lia)) as Hg1.
  pose proof (grid_nonneg (Z.abs z2) 1 ltac:(lia) ltac:(lia)) as Hg2.
  assert (Hh : 0 < huge) by (by apply pow2_pos).
  destruct (Z.ltb_spec z1 0) as [Hn1|Hp1], (Z.ltb_spec z2 0) as [Hn2|Hp2]; try lia.
  - (* both negative *)
    assert (grid (Z.abs z2) 1 <= grid (Z.abs z1) 1) by (apply grid_mono; lia).
    destruct (Z.leb_spec huge (grid (Z.abs z1) 1)), (Z.leb_spec huge (grid (Z.abs z2) 1));
      try done; [lia|]. apply ext_le_Fin. nia.
  - (* negative, then not *)
    destruct (Z.leb_spec huge (grid (Z.abs z1) 1)), (Z.leb_spec huge (grid (Z.abs z2) 1));
      try done. apply ext_le_Fin. nia.
  - (* both not negative *)
    assert (grid (Z.abs z1) 1 <= grid (Z.abs z2) 1) by (apply grid_mono; lia).
    destruct (Z.leb_spec huge (grid (Z.abs z1) 1)), (Z.leb_spec huge (grid (Z.abs z2) 1));
      try done; [lia|]. apply ext_le_Fin. nia.
Qed.

(** The double [or_inf s (nearest s v scale)] has the value [rnd] gives. *)
Lemma nearest_units s v :
  0 < v →
  let f := or_inf s (nearest s v scale) in
  valid f = true ∧ fval f = Some (rnd (sgn s * v)).
Proof.
  intros Hv f. subst f.
  pose proof (nearest_cases s v scale ltac:(lia) scale_pos) as Hc.
  assert (Hg : grid (v * 2 ^ (- emin)) scale = grid v 1).
  { fold scale. rewrite <- (Z.mul_1_l scale) at 2.
    apply grid_scale; [lia|apply scale_pos]. }
  rewrite !Hg in Hc.
  unfold rnd.
  assert (Z.abs (sgn s * v) = v) as -> by (destruct s; cbn; lia).
  assert ((sgn s * v <? 0) = s) as ->.
  { destruct s; cbn; [apply Z.ltb_lt|apply Z.ltb_ge]; lia. }
  assert (Z.sgn (sgn s * v) = sgn s) as -> by (destruct s; cbn; lia).
  destruct (nearest s v scale) as [f|]; cbn [or_inf].
  - destruct Hc as (Hvalid & Hf & _ & Hlt).
    split; [done|]. rewrite Hf.
    destruct (Z.leb_spec huge (grid v 1)); [lia|done].
  - split; [done|]. cbn [fval].
    destruct (Z.leb_spec huge (grid v 1)); [done|lia].
Qed.

Lemma binary_normalize_units M e :
  emin <= e → M ≠ 0 →
  let f := binary_normalize prec emax M e false in
  valid f = true ∧ fval f = Some (rnd (M * 2 ^ (e - emin))).
Proof.
  intros He HM f. subst f.
  pose proof (pow2_pos (e - emin) ltac:(lia)).
  destruct M as [|p|p]; [done| |]; cbn [binary_normalize];
    rewrite binary_round_nearest by done; fold scale.
  - pose proof (nearest_units false (Z.pos p * 2 ^ (e - emin)) ltac:(nia)) as [Hv Hf].
    split; [done|]. rewrite Hf. do 2 f_equal. cbn. lia.
  - pose proof (nearest_units true (Z.pos p * 2 ^ (e - emin)) ltac:(nia)) as [Hv Hf].
    split; [done|]. rewrite Hf. do 2 f_equal. cbn [sgn]. lia.
Qed.

Lemma rnd_zero : rnd 0 = Fin 0.
Proof. unfold rnd. cbn [Z.abs]. rewrite grid_zero by lia. done. Qed.

Lemma shl_align_fst mx ex ez :
  ez <= ex → Z.pos (fst (shl_align mx ex ez)) = Z.pos mx * 2 ^ (ex - ez).
Proof.
  intros Hle. unfold shl_align.
  destruct (ez - ex) as [|p|p] eqn:Hd; cbn [fst]; try lia.
  - replace (ex - ez) with 0 by lia. lia.
  - rewrite shl_pos. do 2 f_equal. lia.
Qed.

Lemma cond_Zopp_sgn s m : cond_Zopp s m = sgn s * m.
Proof. destruct s; cbn; lia. Qed.

Lemma sval_finite s m e : sval (S754_finite s m e) = sgn s * (Z.pos m * 2 ^ (e - emin)).
Proof. reflexivity. Qed.

(** The exponents of two doubles aligned on the smaller one. *)
Lemma aligned_units mx ex ez :
  emin <= ez <= ex →
  Z.pos (fst (shl_align mx ex ez)) * 2 ^ (ez - emin) = Z.pos mx * 2 ^ (ex - emin).
Proof.
  intros He. rewrite shl_align_fst by lia.
  rewrite <- Z.mul_assoc, <- Z.pow_add_r by lia. do 2 f_equal. lia.
Qed.

Lemma add_finite sx mx ex sy my ey :
  valid (S754_finite sx mx ex) = true → valid (S754_finite sy my ey) = true →
  let f := add (S754_finite sx mx ex) (S754_finite sy my ey) in
  valid f = true
  ∧ fval f = Some (rnd (sval (S754_finite sx mx ex) + sval (S754_finite sy my ey))).
Proof.
  intros Hx Hy f. subst f.
  pose proof (valid_finite_bounds _ _ _ Hx) as [Hex _].
  pose proof (valid_finite_bounds _ _ _ Hy) as [Hey _].
  unfold add. cbn [SFadd]. set (ez := Z.min ex ey).
  set (M := cond_Zopp sx _ + cond_Zopp sy _).
  assert (HM : M * 2 ^ (ez - emin) =
               sval (S754_finite sx mx ex) + sval (S754_finite sy my ey)).
  { unfold M. rewrite !cond_Zopp_sgn, !sval_finite, Z.mul_add_distr_r.
    rewrite <- !Z.mul_assoc, !aligned_units by (unfold ez; lia). done. }
  destruct (Z.eq_dec M 0) as [Hz|Hnz].
  - rewrite Hz in *. cbn [binary_normalize]. split; [done|].
    rewrite <- HM. cbn [fval sval]. by rewrite Z.mul_0_l, rnd_zero.
  - rewrite <- HM. apply binary_normalize_units; [unfold ez; lia|done].
Qed.

Lemma sub_finite sx mx ex sy my ey :
  valid (S754_finite sx mx ex) = true → valid (S754_finite sy my ey) = true →
  let f := sub (S754_finite sx mx ex) (S754_finite sy my ey) in
  valid f = true
  ∧ fval f = Some (rnd (sval (S754_finite sx mx ex) - sval (S754_finite sy my ey))).
Proof.
  intros Hx Hy f. subst f.
  pose proof (valid_finite_bounds _ _ _ Hx) as [Hex _].
  pose proof (valid_finite_bounds _ _ _ Hy) as [Hey _].
  unfold sub. cbn [SFsub]. set (ez := Z.min ex ey).
  set (M := cond_Zopp sx _ - cond_Zopp sy _).
  assert (HM : M * 2 ^ (ez - emin) =
               sval (S754_finite sx mx ex) - sval (S754_finite sy my ey)).
  { unfold M. rewrite !cond_Zopp_sgn, !sval_finite, Z.mul_sub_distr_r.
    rewrite <- !Z.mul_assoc, !aligned_units by (unfold ez; lia). done. }
  destruct (Z.eq_dec M 0) as [Hz|Hnz].
  - rewrite Hz in *. cbn [binary_normalize]. split; [done|].
    rewrite <- HM. cbn [fval sval]. by rewrite Z.mul_0_l, rnd_zero.
  - rewrite <- HM. apply binary_normalize_units; [unfold ez; lia|done].
Qed.


Lemma valid_opp s m e :
  valid (S754_finite s m e) = true → valid (S754_finite (negb s) m e) = true.
Proof. done. Qed.

Lemma fval_finite_cases f v :
  fval f = Some (Fin v) →
  (∃ s, f = S754_zero s ∧ v = 0) ∨ (∃ s m e, f = S754_finite s m e ∧ v = sval f).
Proof.
  destruct f as [s|[|]| |s m e]; try done; intros [= <-]; eauto 6.
Qed.

Lemma add_fval x y vx vy :
  valid x = true → valid y = true →
  fval x = Some (Fin vx) → fval y = Some (Fin vy) →
  valid (add x y) = true ∧ fval (add x y) = Some (rnd (vx + vy)).
Proof.
  intros Hx Hy Hfx Hfy.
  pose proof (rnd_exact x vx Hx Hfx) as Hrx.
  pose proof (rnd_exact y vy Hy Hfy) as Hry.
  destruct (fval_finite_cases _ _ Hfx) as [(sx & -> & ->)|(sx & mx & ex & -> & ->)],
           (fval_finite_cases _ _ Hfy) as [(sy & -> & ->)|(sy & my & ey & -> & ->)].
  - split; [by destruct sx, sy|]. rewrite Z.add_0_l, rnd_zero. by destruct sx, sy.
  - split; [done|]. rewrite Z.add_0_l, Hry. done.
  - split; [done|]. rewrite Z.add_0_r, Hrx. done.
  - by apply add_finite.
Qed.

Lemma sub_fval x y vx vy :
  valid x = true → valid y = true →
  fval x = Some (Fin vx) → fval y = Some (Fin vy) →
  valid (sub x y) = true ∧ fval (sub x y) = Some (rnd (vx - vy)).
Proof.
  intros Hx Hy Hfx Hfy.
  pose proof (rnd_exact x vx Hx Hfx) as Hrx.
  destruct (fval_finite_cases _ _ Hfx) as [(sx & -> & ->)|(sx & mx & ex & -> & ->)],
           (fval_finite_cases _ _ Hfy) as [(sy & -> & ->)|(sy & my & ey & -> & ->)].
  - split; [by destruct sx, sy|]. rewrite Z.sub_0_r, rnd_zero. by destruct sx, sy.
  - split; [done|]. cbn [sub SFsub].
    assert (Hneg : fval (S754_finite (negb sy) my ey)
                   = Some (Fin (0 - sval (S754_finite sy my ey)))).
    { cbn [fval]. do 2 f_equal. rewrite !sval_finite. destruct sy; cbn; lia. }
    rewrite (rnd_exact _ _ (valid_opp _ _ _ Hy) Hneg). exact Hneg.
  - split; [done|]. rewrite Z.sub_0_r, Hrx. done.
  - by apply sub_finite.
Qed.

(** Adding a double that is not negative does not go below the first
    term; subtracting it does not go above. *)
Lemma add_ge x y a vy :
  valid x = true → valid y = true →
  fval x = Some a → fval y = Some (Fin vy) → 0 <= vy →
  valid (add x y) = true ∧ ∃ b, fval (add x y) = Some b ∧ ext_le a b.
Proof.
  intros Hx Hy Hfx Hfy Hvy. destruct a as [|vx|].
  - destruct x as [|[|]| |]; try done.
    destruct y as [|[|]| |]; try done; (split; [done|]); by exists NegInf.
  - destruct (add_fval x y vx vy Hx Hy Hfx Hfy) as [Hv Hf].
    split; [done|]. eexists. split; [done|].
    rewrite <- (rnd_exact x vx Hx Hfx). apply rnd_mono. lia.
  - destruct x as [|[|]| |]; try done.
    destruct y as [|[|]| |]; try done; (split; [done|]); by exists PosInf.
Qed.

Lemma sub_le x y a vy :
  valid x = true → valid y = true →
  fval x = Some a → fval y = Some (Fin vy) → 0 <= vy →
  valid (sub x y) = true ∧ ∃ b, fval (sub x y) = Some b ∧ ext_le b a.
Proof.
  intros Hx Hy Hfx Hfy Hvy. destruct a as [|vx|].
  - destruct x as [|[|]| |]; try done.
    destruct y as [|[|]| |]; try done; (split; [done|]); by exists NegInf.
  - destruct (sub_fval x y vx vy Hx Hy Hfx Hfy) as [Hv Hf].
    split; [done|]. eexists. split; [done|].
    rewrite <- (rnd_exact x vx Hx Hfx). apply rnd_mono. lia.
  - destruct x as [|[|]| |]; try done.
    destruct y as [|[|]| |]; try done; (split; [done|]); by exists PosInf.
Qed.

(** [float(n)] *)
Lemma of_int_fval n f :
  of_int n = Ok f →
  valid f = true ∧ ∃ v, fval f = Some (Fin v) ∧ (0 <= n → 0 <= v).
Proof.
  unfold of_int. intros Hf.
  destruct (Z.eq_dec n 0) as [->|Hn].
  { injection Hf as <-. split; [done|]. exists 0. done. }
  pose proof (binary_normalize_units n 0 ltac:(done) Hn) as [Hv Hfv].
  destruct (binary_normalize prec emax n 0 false) as [s|s| |s m e] eqn:Hb;
    try done; injection Hf as <-; (split; [done|]).
  - exists 0. done.
  - eexists. split; [done|]. intros Hpos.
    cbn [fval] in Hfv. injection Hfv as Hfv.
    assert (ext_le (rnd 0) (rnd (n * 2 ^ (0 - emin)))) as Hle.
    { apply rnd_mono. pose proof (pow2_pos (0 - emin) ltac:(done)). nia. }
    rewrite rnd_zero, <- Hfv in Hle. by apply ext_le_Fin in Hle.
Qed.

(** [float(n)] is [n] rounded. *)
Lemma of_int_rnd n f :
  of_int n = Ok f → valid f = true ∧ fval f = Some (rnd (n * scale)).
Proof.
  unfold of_int. intros Hf.
  destruct (Z.eq_dec n 0) as [->|Hn].
  { injection Hf as <-. split; [done|]. by rewrite Z.mul_0_l, rnd_zero. }
  pose proof (binary_normalize_units n 0 ltac:(done) Hn) as [Hv Hfv].
  change (2 ^ (0 - emin)) with scale in Hfv.
  destruct (binary_normalize prec emax n 0 false) as [s|s| |s m e] eqn:Hb;
    try done; injection Hf as <-; done.
Qed.

(** *** Comparisons *)

Lemma compare_mul_r a b k : 0 < k → (a * k ?= b * k) = (a ?= b).
Proof.
  intros Hk. destruct (Z.compare_spec a b) as [->|Hlt|Hgt].
  - apply Z.compare_refl.
  - apply Z.compare_lt_iff. nia.
  - apply Z.compare_gt_iff. nia.
Qed.

(** Comparison of doubles *)
Lemma canonical_lt m1 e1 m2 e2 s1 s2 :
  valid (S754_finite s1 m1 e1) = true → valid (S754_finite s2 m2 e2) = true →
  e1 < e2 → Z.pos m1 * 2 ^ (e1 - emin) < Z.pos m2 * 2 ^ (e2 - emin).
Proof.
  intros H1 H2 Hlt.
  pose proof (valid_finite_bounds _ _ _ H1) as [He1 Hm1].
  apply valid_finite in H2 as [Hc2 _].
  assert (digits (Z.pos m2) = prec) as Hd2 by lia.
  pose proof (digits_spec (Z.pos m2) ltac:(lia)) as [Hlo2 _]. rewrite Hd2 in Hlo2.
  pose proof (pow2_pos (e1 - emin) ltac:(lia)).
  assert (2 * 2 ^ (e1 - emin) <= 2 ^ (e2 - emin)).
  { rewrite <- Z.pow_succ_r by lia. apply pow2_le. lia. }
  change (2 ^ prec) with (2 * 2 ^ (prec - 1)) in Hm1. nia.
Qed.

Lemma canonical_compare m1 e1 m2 e2 s1 s2 :
  valid (S754_finite s1 m1 e1) = true → valid (S754_finite s2 m2 e2) = true →
  match e1 ?= e2 with
  | Lt => Lt
  | Gt => Gt
  | Eq => Pos.compare_cont Eq m1 m2
  end = (Z.pos m1 * 2 ^ (e1 - emin) ?= Z.pos m2 * 2 ^ (e2 - emin)).
Proof.
  intros H1 H2. symmetry.
  destruct (Z.compare_spec e1 e2) as [->|Hlt|Hgt].
  - pose proof (valid_finite_bounds _ _ _ H2) as [He2 _].
    pose proof (pow2_pos (e2 - emin) ltac:(lia)).
    rewrite compare_mul_r by done. done.
  - apply Z.compare_lt_iff. by eapply canonical_lt.
  - apply Z.compare_gt_iff. by eapply canonical_lt.
Qed.

Lemma SFcompare_fval x y a b :
  valid x = true → valid y = true →
  fval x = Some a → fval y = Some b →
  SFcompare x y = Some (ext_compare a b).
Proof.
  intros Hx Hy Hfx Hfy.
  destruct x as [sx|sx| |sx mx ex], y as [sy|sy| |sy my ey]; try done;
    cbn in Hfx, Hfy; injection Hfx as <-; injection Hfy as <-.
  - done.
  - by destruct sy.
  - cbn [SFcompare ext_compare]. f_equal.
    pose proof (valid_finite_bounds _ _ _ Hy) as [He _].
    pose proof (pow2_pos (ey - emin) ltac:(lia)).
    destruct sy; symmetry; [apply Z.compare_gt_iff|apply Z.compare_lt_iff]; nia.
  - by destruct sx.
  - by destruct sx, sy.
  - by destruct sx.
  - cbn [SFcompare ext_compare]. f_equal.
    pose proof (valid_finite_bounds _ _ _ Hx) as [He _].
    pose proof (pow2_pos (ex - emin) ltac:(lia)).
    destruct sx; symmetry; [apply Z.compare_lt_iff|apply Z.compare_gt_iff]; nia.
  - by destruct sy.
  - cbn [SFcompare ext_compare]. f_equal.
    pose proof (valid_finite_bounds _ _ _ Hx) as [Hex _].
    pose proof (valid_finite_bounds _ _ _ Hy) as [Hey _].
    pose proof (pow2_pos (ex - emin) ltac:(lia)).
    pose proof (pow2_pos (ey - emin) ltac:(lia)).
    destruct sx, sy.
    + trans (CompOpp (match ex ?= ey with
                      | Lt => Lt
                      | Gt => Gt
                      | Eq => Pos.compare_cont Eq mx my
                      end)); [by destruct (ex ?= ey)|].
      rewrite (canonical_compare mx ex my ey true true Hx Hy).
      rewrite <- Z.compare_antisym, Z.compare_opp. f_equal; lia.
    + symmetry. apply Z.compare_lt_iff. nia.
    + symmetry. apply Z.compare_gt_iff. nia.
    + rewrite (canonical_compare mx ex my ey false false Hx Hy). f_equal; lia.
Qed.

Lemma compare_int_fval n f b :
  valid f = true → fval f = Some b →
  compare_int n f = Some (ext_compare (Fin (n * scale)) b).
Proof.
  intros Hv Hf. pose proof scale_pos as HU.
  destruct f as [s|s| |s m e]; try done; cbn in Hf; injection Hf as <-.
  - cbn. f_equal. change 0 with (0 * scale) at 2.
    by rewrite compare_mul_r.
  - by destruct s.
  - cbn [compare_int ext_compare]. f_equal.
    pose proof (valid_finite_bounds _ _ _ Hv) as [He _].
    set (v := if s then Z.neg m else Z.pos m).
    assert (Hsv : (if s then -1 else 1) * (Z.pos m * 2 ^ (e - emin)) = v * 2 ^ (e - emin)).
    { unfold v. destruct s; lia. }
    rewrite Hsv. destruct (Z.leb_spec 0 e).
    + assert (2 ^ (e - emin) = 2 ^ e * scale) as ->.
      { unfold scale. rewrite <- Z.pow_add_r by (done || lia). f_equal; lia. }
      rewrite Z.mul_assoc, compare_mul_r by done. done.
    + assert (scale = 2 ^ (- e) * 2 ^ (e - emin)) as ->.
      { unfold scale. rewrite <- Z.pow_add_r by lia. f_equal; lia. }
      rewrite Z.mul_assoc, compare_mul_r by (apply pow2_pos; lia). done.
Qed.


(** *** [round(x, 2)] on doubles *)

Lemma hundredths_units m e :
  emin <= e → hundredths m e = rne_div (100 * (Z.pos m * 2 ^ (e - emin))) scale.
Proof.
  intros He. unfold hundredths.
  set (K := 2 ^ (e - emin - Z.max e 0)).
  assert (HK : 0 < K) by (apply pow2_pos; unfold emin, emax, prec in *; lia).
  rewrite <- (rne_div_scale _ _ K) by (done || apply pow2_pos; lia).
  f_equal.
  - unfold K. rewrite <- !Z.mul_assoc, <- Z.pow_add_r by (unfold emin, emax, prec in *; lia).
    do 3 f_equal. lia.
  - unfold K, scale. rewrite <- Z.pow_add_r by (unfold emin, emax, prec in *; lia).
    f_equal. lia.
Qed.

Lemma r2a_mono u1 u2 : 0 <= u1 <= u2 → r2a u1 <= r2a u2.
Proof.
  intros Hu. unfold r2a. pose proof scale_pos.
  assert (rne_div (100 * u1) scale <= rne_div (100 * u2) scale)
    by (apply rne_div_mono; nia).
  assert (0 <= rne_div (100 * u1) scale) by (apply rne_div_ge; lia).
  apply grid_mono; nia.
Qed.

Lemma r2a_exact m k : 0 <= m < 2 ^ prec → - emin <= k → r2a (m * 2 ^ k) = m * 2 ^ k.
Proof.
  intros Hm Hk. unfold r2a. pose proof scale_pos.
  assert (Hk' : 0 <= k + emin) by lia.
  assert (Hsplit : 2 ^ k = 2 ^ (k + emin) * scale).
  { unfold scale. rewrite <- Z.pow_add_r by (done || lia). f_equal; lia. }
  replace (100 * (m * 2 ^ k)) with (100 * m * 2 ^ (k + emin) * scale) by (rewrite Hsplit; lia).
  rewrite rne_div_exact by done.
  replace (100 * m * 2 ^ (k + emin) * scale) with (m * 2 ^ k * 100) by (rewrite Hsplit; lia).
  apply grid_exact; [done| |lia]. unfold emin, emax, prec in *. lia.
Qed.

Lemma r2a_nonneg u : 0 <= u → 0 <= r2a u.
Proof.
  intros Hu. unfold r2a. pose proof scale_pos.
  apply grid_nonneg; [|lia].
  assert (0 <= rne_div (100 * u) scale) by (apply rne_div_ge; lia). nia.
Qed.

(** The value of a double is an integer, or is below [2^52]. *)
Lemma valid_value_cases s m e :
  valid (S754_finite s m e) = true →
  let u := Z.pos m * 2 ^ (e - emin) in
  r2a u = u ∨ u < 2 ^ (prec - 1) * scale.
Proof.
  intros Hv u. pose proof (valid_finite_bounds _ _ _ Hv) as [He Hm].
  destruct (Z_le_gt_dec 0 e) as [Hpos|Hneg].
  - left. apply r2a_exact; lia.
  - right. unfold u, scale.
    assert (2 * 2 ^ (e - emin) <= 2 ^ (- emin)).
    { rewrite <- Z.pow_succ_r by lia. apply pow2_le. lia. }
    change (2 ^ prec) with (2 * 2 ^ (prec - 1)) in Hm.
    assert (0 < 2 ^ (prec - 1)) by done. nia.
Qed.

Lemma r2a_int n : 0 <= n <= 2 ^ (prec - 1) → r2a (n * scale) = n * scale.
Proof.
  intros Hn. apply r2a_exact; [|lia].
  change (2 ^ prec) with (2 * 2 ^ (prec - 1)). assert (0 < 2 ^ (prec - 1)) by done. lia.
Qed.

Lemma r2a_lt_huge s m e :
  valid (S754_finite s m e) = true → r2a (Z.pos m * 2 ^ (e - emin)) < huge.
Proof.
  intros Hv. pose proof (valid_finite_bounds _ _ _ Hv) as [He Hm].
  pose proof (pow2_pos (e - emin) ltac:(lia)).
  destruct (valid_value_cases s m e Hv) as [->|Hlt].
  - apply rnd_exact_abs; lia.
  - eapply Z.le_lt_trans.
    + apply (r2a_mono _ (2 ^ (prec - 1) * scale)). nia.
    + rewrite r2a_int by (split; [done|lia]).
      unfold scale. apply rnd_exact_abs; [done|]. unfold emin, emax, prec. lia.
Qed.

(** An integer at most the value of a double is at most its rounding to
    two places, and one at least the value is at least the rounding. *)
Lemma r2a_ge_int s m e n :
  valid (S754_finite s m e) = true →
  0 <= n → n * scale <= Z.pos m * 2 ^ (e - emin) →
  n * scale <= r2a (Z.pos m * 2 ^ (e - emin)).
Proof.
  intros Hv Hn Hle. pose proof scale_pos.
  destruct (valid_value_cases s m e Hv) as [->|Hlt]; [done|].
  rewrite <- (r2a_int n) by nia. apply r2a_mono. nia.
Qed.

Lemma r2a_le_int s m e n :
  valid (S754_finite s m e) = true →
  Z.pos m * 2 ^ (e - emin) <= n * scale →
  r2a (Z.pos m * 2 ^ (e - emin)) <= n * scale.
Proof.
  intros Hv Hle. pose proof scale_pos.
  pose proof (valid_finite_bounds _ _ _ Hv) as [He Hm].
  pose proof (pow2_pos (e - emin) ltac:(lia)).
  destruct (valid_value_cases s m e Hv) as [->|Hlt]; [done|].
  assert (0 < 2 ^ (prec - 1)) by done.
  set (n' := Z.min n (2 ^ (prec - 1))).
  trans (n' * scale); [|unfold n'; nia].
  rewrite <- (r2a_int n') by (unfold n'; nia).
  apply r2a_mono. unfold n'. nia.
Qed.

Lemma round2_finite s m e :
  valid (S754_finite s m e) = true →
  ∃ r, round2 (S754_finite s m e) = Ok r ∧ valid r = true
       ∧ fval r = Some (Fin (sgn s * r2a (Z.pos m * 2 ^ (e - emin))))
       ∧ (r = S754_zero s ∨ ∃ m' e', r = S754_finite s m' e').
Proof.
  intros Hv. pose proof (valid_finite_bounds _ _ _ Hv) as [He Hm].
  pose proof (pow2_pos (e - emin) ltac:(lia)). pose proof scale_pos.
  unfold round2. rewrite hundredths_units by lia.
  set (h := rne_div _ scale).
  assert (0 <= h) by (apply rne_div_ge; nia).
  pose proof (nearest_cases s h 100 ltac:(done) ltac:(lia)) as Hc.
  pose proof (r2a_lt_huge s m e Hv) as Hlt. unfold r2a in Hlt. fold h in Hlt.
  fold scale in Hc.
  destruct (nearest s h 100) as [r|]; [|lia].
  destruct Hc as (Hvr & Hfr & Hshape & _).
  exists r. done.
Qed.

Lemma round2_total x : valid x = true → ∃ r, round2 x = Ok r ∧ valid r = true.
Proof.
  intros Hv. destruct x as [s|s| |s m e]; try (by eexists).
  destruct (round2_finite s m e Hv) as (r & Hr & Hvr & _). eauto.
Qed.


(** *** Numbers of a JSON body *)

Lemma add_valid x y : valid x = true → valid y = true → valid (add x y) = true.
Proof.
  intros Hx Hy.
  destruct x as [[]|[]| |sx mx ex], y as [[]|[]| |sy my ey]; try done.
  by apply add_finite.
Qed.

Lemma sub_valid x y : valid x = true → valid y = true → valid (sub x y) = true.
Proof.
  intros Hx Hy.
  destruct x as [[]|[]| |sx mx ex], y as [[]|[]| |sy my ey]; try done.
  by apply sub_finite.
Qed.

Lemma ext_compare_antisym a b : CompOpp (ext_compare a b) = ext_compare b a.
Proof.
  destruct a, b; cbn; try done. symmetry. apply Z.compare_antisym.
Qed.

Lemma int_of_xv v n : int_of v = Some n → xv v = Some (Fin (n * scale)).
Proof. destruct v; try done; by intros [= <-]. Qed.

Lemma int_of_None v :
  is_number v → int_of v = None → ∃ f, v = VFloat f ∧ valid f = true.
Proof. destruct v; try done. eauto. Qed.

Lemma num_compare_xv a b x y :
  is_number a → is_number b → xv a = Some x → xv b = Some y →
  num_compare a b = Some (ext_compare x y).
Proof.
  intros Ha Hb Hx Hy. unfold num_compare.
  destruct (int_of a) as [m|] eqn:Hia, (int_of b) as [n|] eqn:Hib.
  - rewrite (int_of_xv _ _ Hia) in Hx. rewrite (int_of_xv _ _ Hib) in Hy.
    injection Hx as <-. injection Hy as <-. cbn.
    by rewrite compare_mul_r by apply scale_pos.
  - rewrite (int_of_xv _ _ Hia) in Hx. injection Hx as <-.
    destruct (int_of_None b Hb Hib) as (g & -> & Hg).
    by apply compare_int_fval.
  - rewrite (int_of_xv _ _ Hib) in Hy. injection Hy as <-.
    destruct (int_of_None a Ha Hia) as (f & -> & Hf).
    rewrite (compare_int_fval n f x Hf Hx).
    by rewrite <- (ext_compare_antisym (Fin (n * scale)) x).
  - destruct (int_of_None a Ha Hia) as (f & -> & Hf).
    destruct (int_of_None b Hb Hib) as (g & -> & Hg).
    by apply SFcompare_fval.
Qed.

Lemma num_compare_defined a b c :
  is_number a → is_number b → num_compare a b = Some c →
  ∃ x y, xv a = Some x ∧ xv b = Some y.
Proof.
  intros Ha Hb Hc.
  assert (∀ v, is_number v → xv v = None → v = VFloat S754_nan) as Hnan.
  { intros [| | |[| | |]| | |]; try done. }
  destruct (xv a) as [x|] eqn:Hx, (xv b) as [y|] eqn:Hy; eauto.
  - rewrite (Hnan b Hb Hy) in Hc. unfold num_compare in Hc.
    destruct (int_of a), a as [| | |[| | |]| | |]; done.
  - rewrite (Hnan a Ha Hx) in Hc. unfold num_compare in Hc.
    destruct (int_of b); [|destruct b]; done.
  - rewrite (Hnan a Ha Hx) in Hc. unfold num_compare in Hc.
    destruct (int_of b); [|destruct b]; done.
Qed.

Lemma py_le_xv a b :
  is_number a → is_number b →
  py_le a b = true ↔ ∃ x y, xv a = Some x ∧ xv b = Some y ∧ ext_le x y.
Proof.
  intros Ha Hb. unfold py_le, ext_le. split.
  - destruct (num_compare a b) as [c|] eqn:Hc; [|done].
    destruct (num_compare_defined a b c Ha Hb Hc) as (x & y & Hx & Hy).
    rewrite (num_compare_xv a b x y Ha Hb Hx Hy) in Hc. injection Hc as <-.
    intros H. exists x, y. repeat split; try done. by destruct (ext_compare x y).
  - intros (x & y & Hx & Hy & Hle).
    rewrite (num_compare_xv a b x y Ha Hb Hx Hy).
    by destruct (ext_compare x y).
Qed.

Lemma py_lt_xv a b x y :
  is_number a → is_number b → xv a = Some x → xv b = Some y →
  ext_le y x → py_lt a b = false.
Proof.
  intros Ha Hb Hx Hy Hle. unfold py_lt.
  rewrite (num_compare_xv a b x y Ha Hb Hx Hy).
  unfold ext_le in Hle. rewrite <- ext_compare_antisym in Hle.
  by destruct (ext_compare x y).
Qed.

(** [a - w] and [a + w] on numbers *)
Lemma py_sub_xv s w d x :
  is_number s → xv s = Some x → py_sub s w = Ok d →
  is_number d ∧ ∃ y, xv d = Some y ∧ (0 <= w → ext_le y x).
Proof.
  intros Hs Hx Hd. pose proof scale_pos.
  destruct s as [|b|n|f| | |]; try done; cbn in *.
  - injection Hd as <-. injection Hx as <-. split; [done|]. eexists. split; [done|].
    intros Hw. apply ext_le_Fin. nia.
  - injection Hd as <-. injection Hx as <-. split; [done|]. eexists. split; [done|].
    intros Hw. apply ext_le_Fin. nia.
  - apply bind_Ok in Hd as (fw & Hfw & [= <-]).
    destruct (of_int_fval w fw Hfw) as (Hvw & vw & Hfvw & Hpos).
    cbn. split; [by apply sub_valid|].
    destruct (Z_le_gt_dec 0 w) as [Hw|Hw].
    + destruct (sub_le f fw x vw Hs Hvw Hx Hfvw (Hpos Hw)) as (_ & y & Hy & Hle).
      exists y. done.
    + destruct x as [|vx|].
      * destruct f as [|[|]| |]; try done.
        destruct fw as [|[|]| |]; try done; exists NegInf; (split; [done|lia]).
      * destruct (sub_fval f fw vx vw Hs Hvw Hx Hfvw) as [_ Hf].
        eexists. split; [done|lia].
      * destruct f as [|[|]| |]; try done.
        destruct fw as [|[|]| |]; try done; exists PosInf; (split; [done|lia]).
Qed.

Lemma py_add_xv e w g x :
  is_number e → xv e = Some x → 0 <= w → py_add e w = Ok g →
  is_number g ∧ ∃ y, xv g = Some y ∧ ext_le x y.
Proof.
  intros He Hx Hw Hg. pose proof scale_pos.
  destruct e as [|b|n|f| | |]; try done; cbn in *.
  - injection Hg as <-. injection Hx as <-. split; [done|]. eexists. split; [done|].
    apply ext_le_Fin. nia.
  - injection Hg as <-. injection Hx as <-. split; [done|]. eexists. split; [done|].
    apply ext_le_Fin. nia.
  - apply bind_Ok in Hg as (fw & Hfw & [= <-]).
    destruct (of_int_fval w fw Hfw) as (Hvw & vw & Hfvw & Hpos).
    destruct (add_ge f fw x vw He Hvw Hx Hfvw (Hpos Hw)) as (Hv & y & Hy & Hle).
    cbn. split; [done|]. exists y. done.
Qed.

(** [max(d, 0)] *)
Lemma py_max0_xv d c y :
  is_number d → xv d = Some y → py_max0 d = Ok c →
  is_number c ∧ ∃ z, xv c = Some z ∧ ext_le (Fin 0) z
    ∧ ∀ u, ext_le y u → ext_le (Fin 0) u → ext_le z u.
Proof.
  intros Hd Hy Hc. unfold py_max0 in Hc.
  apply bind_Ok in Hc as (b & Hb & [= <-]).
  assert (Hcmp : num_compare d (VInt 0) = Some (ext_compare y (Fin 0))).
  { by apply num_compare_xv. }
  assert (Hb' : b = match ext_compare y (Fin 0) with Lt => true | _ => false end).
  { destruct d as [|b'|n|f| | |]; try done; cbn in Hb, Hy; injection Hb as <-.
    - injection Hy as <-. cbn. by destruct b'.
    - injection Hy as <-. cbn [ext_compare].
      replace (n * scale ?= 0) with (n ?= 0)
        by (symmetry; apply (compare_mul_r n 0 scale scale_pos)).
      done.
    - unfold SFltb. by rewrite (SFcompare_fval f zero y (Fin 0) Hd eq_refl Hy eq_refl). }
  subst b. destruct (ext_compare y (Fin 0)) eqn:Hc0.
  - split; [done|]. exists y. repeat split; try done;
      unfold ext_le; by rewrite <- ext_compare_antisym, Hc0.
  - split; [done|]. exists (Fin 0). cbn. repeat split; try done;
      apply ext_le_refl.
  - split; [done|]. exists y. repeat split; try done;
      unfold ext_le; by rewrite <- ext_compare_antisym, Hc0.
Qed.

Lemma fval_nonneg_shape f x :
  valid f = true → fval f = Some x → ext_le (Fin 0) x →
  (∃ s, f = S754_zero s ∧ x = Fin 0) ∨ (f = S754_infinity false ∧ x = PosInf)
  ∨ (∃ m e, f = S754_finite false m e ∧ x = Fin (Z.pos m * 2 ^ (e - emin))).
Proof.
  intros Hv Hf Hle. destruct f as [s|[|]| |s m e]; try done; injection Hf as <-.
  - left. eauto.
  - by destruct Hle.
  - right. left. done.
  - right. right. exists m, e.
    pose proof (valid_finite_bounds _ _ _ Hv) as [He _].
    pose proof (pow2_pos (e - emin) ltac:(lia)). destruct s.
    + rewrite ext_le_Fin in Hle. cbn [sval] in Hle. lia.
    + split; [done|]. f_equal. cbn [sval]. lia.
Qed.

Lemma py_round2_cases v x r :
  is_number v → xv v = Some x → ext_le (Fin 0) x → py_round2 v = Ok r →
  is_number r ∧ round2_case v x r.
Proof.
  intros Hv Hx Hle Hr.
  destruct v as [|b|n|f| | |]; try done; cbn in Hr.
  - injection Hr as <-. injection Hx as <-. split; [done|]. left. exists (Z.b2z b). done.
  - injection Hr as <-. injection Hx as <-. split; [done|]. left. exists n. done.
  - apply bind_Ok in Hr as (r' & Hr' & [= <-]). cbn in Hx, Hv.
    destruct (fval_nonneg_shape f x Hv Hx Hle)
      as [(s & -> & ->)|[[-> ->]|(m & e & -> & ->)]].
    + injection Hr' as <-. split; [done|]. right. left. done.
    + injection Hr' as <-. split; [done|]. right. right. left. done.
    + destruct (round2_finite false m e Hv) as (r & Hr & Hvr & Hfr & _).
      rewrite Hr in Hr'. injection Hr' as <-. split; [done|].
      right. right. right. exists m, e. cbn [sgn] in Hfr.
      rewrite Z.mul_1_l in Hfr. done.
Qed.

Lemma round2_case_nonneg v x r x' :
  round2_case v x r → ext_le (Fin 0) x → xv r = Some x' → ext_le (Fin 0) x'.
Proof.
  intros [(n & _ & -> & Hr)|[[-> Hr]|[[-> Hr]|(m & e & Hv & -> & Hr)]]] Hle Hx';
    rewrite Hr in Hx'; injection Hx' as <-; try done.
  apply ext_le_Fin, r2a_nonneg.
  pose proof (valid_finite_bounds _ _ _ Hv) as [He _].
  pose proof (pow2_pos (e - emin) ltac:(lia)). nia.
Qed.

(** Rounding to two places keeps the order of numbers that are not
    negative, whether they are [int] or [float]. *)
Lemma py_round2_mono c g x y cs ce :
  is_number c → is_number g → xv c = Some x → xv g = Some y →
  ext_le (Fin 0) x → ext_le x y →
  py_round2 c = Ok cs → py_round2 g = Ok ce →
  is_number cs ∧ is_number ce
  ∧ ∃ x' y', xv cs = Some x' ∧ xv ce = Some y' ∧ ext_le (Fin 0) x' ∧ ext_le x' y'.
Proof.
  intros Hc Hg Hx Hy H0 Hle Hcs Hce.
  assert (H0y : ext_le (Fin 0) y) by (by eapply ext_le_trans).
  destruct (py_round2_cases c x cs Hc Hx H0 Hcs) as [Hncs Hcc].
  destruct (py_round2_cases g y ce Hg Hy H0y Hce) as [Hnce Hcg].
  split; [done|]. split; [done|].
  assert (∃ x', xv cs = Some x') as [x' Hx'].
  { destruct Hcc as [(? & _ & _ & ?)|[[_ ?]|[[_ ?]|(? & ? & _ & _ & ?)]]]; eauto. }
  assert (∃ y', xv ce = Some y') as [y' Hy'].
  { destruct Hcg as [(? & _ & _ & ?)|[[_ ?]|[[_ ?]|(? & ? & _ & _ & ?)]]]; eauto. }
  exists x', y'. split; [done|]. split; [done|].
  split; [exact (round2_case_nonneg c x cs x' Hcc H0 Hx')|].
  pose proof (round2_case_nonneg g y ce y' Hcg H0y Hy') as H0y'.
  pose proof scale_pos as HU.
  destruct Hcc as [(n & _ & -> & Hr)|[[-> Hr]|[[-> Hr]|(m & e & Hv & -> & Hr)]]];
    rewrite Hr in Hx'; injection Hx' as <-; try done.
  - (* an int first *)
    destruct Hcg as [(n' & _ & -> & Hr')|[[-> Hr']|[[-> Hr']|(m' & e' & Hv' & -> & Hr')]]];
      rewrite Hr' in Hy'; injection Hy' as <-; try done.
    apply ext_le_Fin. rewrite ext_le_Fin in Hle, H0.
    eapply r2a_ge_int; [done|nia|done].
  - (* the infinity first *)
    destruct Hcg as [(n' & _ & -> & Hr')|[[-> Hr']|[[-> Hr']|(m' & e' & Hv' & -> & Hr')]]];
      rewrite Hr' in Hy'; injection Hy' as <-; done.
  - (* a positive double first *)
    pose proof (valid_finite_bounds _ _ _ Hv) as [He _].
    pose proof (pow2_pos (e - emin) ltac:(lia)).
    destruct Hcg as [(n' & _ & -> & Hr')|[[-> Hr']|[[-> Hr']|(m' & e' & Hv' & -> & Hr')]]];
      rewrite Hr' in Hy'; injection Hy' as <-; try done.
    + apply ext_le_Fin. rewrite ext_le_Fin in Hle. by eapply r2a_le_int.
    + rewrite ext_le_Fin in Hle. exfalso.
      assert (0 < Z.pos m * 2 ^ (e - emin)) by (apply Z.mul_pos_pos; lia). lia.
    + apply ext_le_Fin. rewrite ext_le_Fin in Hle. apply r2a_mono.
      assert (0 < Z.pos m * 2 ^ (e - emin)) by (apply Z.mul_pos_pos; lia). lia.
Qed.


(** *** The nearest double and the nearest hundredth *)

Lemma is_rne_nearest a B q z :
  0 < B → is_rne a B q → Z.abs (q * B - a) <= Z.abs (z * B - a).
Proof.
  intros HB ([Hlo Hhi] & _).
  destruct (Z.eq_dec z q) as [->|Hne]; [lia|].
  assert (z <= q - 1 ∨ q + 1 <= z) as [Hz|Hz] by lia; nia.
Qed.

Lemma representable_0 : representable 0.
Proof. exists 0, 0. done. Qed.

Lemma representable_opp v : representable v → representable (- v).
Proof. intros (m & k & ? & ? & Hv). exists m, k. rewrite Z.abs_opp. done. Qed.

Lemma representable_mul m k :
  0 <= m <= 2 ^ prec → 0 <= k → representable (m * 2 ^ k).
Proof.
  intros Hm Hk. pose proof (pow2_pos k Hk).
  destruct (Z.eq_dec m (2 ^ prec)) as [->|Hne].
  - exists (2 ^ (prec - 1)), (k + 1). split; [done|]. split; [lia|].
    rewrite Z.abs_eq by nia. rewrite Z.pow_add_r by lia.
    change (2 ^ prec) with (2 ^ (prec - 1) * 2). lia.
  - exists m, k. split; [lia|]. split; [done|]. apply Z.abs_eq. nia.
Qed.

Lemma representable_pow2 k : 0 <= k → representable (2 ^ k * scale).
Proof.
  intros Hk. exists 1, (k - emin). split; [done|].
  assert (0 <= k - emin) as Hke. { unfold emin, emax, prec. lia. }
  split; [done|].
  pose proof (pow2_pos k Hk). pose proof scale_pos.
  rewrite Z.abs_eq by nia. unfold scale.
  rewrite <- Z.pow_add_r by (unfold emin, emax, prec; lia).
  rewrite Z.mul_1_l. f_equal; lia.
Qed.

(** Rounding to 53 bits gives a nearest value: where the low bits are
    cut, the values of fewer bits lie below all that is rounded there. *)
Lemma grid_nearest a b : 0 <= a → 0 < b → nearest_double a b (grid a b).
Proof.
  intros Ha Hb. pose proof (grid_bounds a b Ha Hb) as [[Hm0 Hm1] Hm2].
  unfold grid. set (n := a / (b * 2 ^ prec)) in *. set (e := digits n) in *.
  set (q := rne_div a (b * 2 ^ e)) in *.
  assert (Hp : 0 < 2 ^ prec) by done.
  pose proof (digits_nonneg n) as He. fold e in He.
  pose proof (pow2_pos e He) as H2e.
  assert (Hq : is_rne a (b * 2 ^ e) q) by (apply rne_div_spec; nia).
  split; [by apply representable_mul|].
  assert (Hz : ∀ z, Z.abs (q * 2 ^ e * b - a) <= Z.abs (z * 2 ^ e * b - a)).
  { intros z. pose proof (is_rne_nearest a (b * 2 ^ e) q z ltac:(nia) Hq) as Hn.
    replace (q * 2 ^ e * b) with (q * (b * 2 ^ e)) by lia.
    replace (z * 2 ^ e * b) with (z * (b * 2 ^ e)) by lia. done. }
  assert (Hneg : ∀ v', v' <= 0 → Z.abs (q * 2 ^ e * b - a) <= Z.abs (v' * b - a)).
  { intros v' Hv'. etrans; [apply (Hz 0)|]. nia. }
  intros v' (m' & k' & Hm' & Hk' & Hv').
  destruct (Z_le_gt_dec v' 0) as [Hv0|Hv0]; [by apply Hneg|].
  rewrite Z.abs_eq in Hv' by lia. subst v'.
  pose proof (pow2_pos k' Hk') as H2k.
  destruct (Z_le_gt_dec e k') as [Hek|Hek].
  - replace (2 ^ k') with (2 ^ (k' - e) * 2 ^ e)
      by (rewrite <- Z.pow_add_r by lia; f_equal; lia).
    rewrite Z.mul_assoc. apply Hz.
  - assert (0 < e) as He0 by lia. specialize (Hm2 He0).
    assert (Hn0 : 0 < n).
    { destruct (Z.eq_dec n 0) as [Hn|Hn].
      - unfold e in He0. rewrite Hn in He0. cbn in He0. lia.
      - assert (0 <= n) by (apply Z.div_pos; nia). lia. }
    pose proof (digits_spec n Hn0) as [Hlo _]. fold e in Hlo.
    pose proof (Z.mul_div_le a (b * 2 ^ prec) ltac:(nia)) as Hlo2. fold n in Hlo2.
    assert (Hle : 2 * 2 ^ k' <= 2 ^ e).
    { rewrite <- Z.pow_succ_r by lia. apply pow2_le. lia. }
    assert (He1 : 2 ^ e = 2 * 2 ^ (e - 1)).
    { rewrite <- Z.pow_succ_r by lia. f_equal. lia. }
    pose proof (pow2_pos (e - 1) ltac:(lia)) as H2e1.
    assert (Hbase : 2 ^ (prec - 1) * 2 ^ e * b <= a).
    { change (2 ^ prec) with (2 * 2 ^ (prec - 1)) in Hlo2. nia. }
    assert (Hv' : m' * 2 ^ k' * b <= 2 ^ (prec - 1) * 2 ^ e * b).
    { change (2 ^ prec) with (2 * 2 ^ (prec - 1)) in Hm'.
      assert (0 < 2 ^ (prec - 1)) as HP by done. revert Hm' HP.
      generalize (2 ^ (prec - 1)). intros P Hm' HP.
      apply Z.mul_le_mono_nonneg_r; [lia|].
      trans (2 * P * 2 ^ k'); [nia|]. trans (P * (2 * 2 ^ k')); [lia|].
      apply Z.mul_le_mono_nonneg_l; lia. }
    etrans; [apply (Hz (2 ^ (prec - 1)))|]. lia.
Qed.

Lemma rnd_nearest z v : rnd z = Fin v → nearest_double z 1 v.
Proof.
  unfold rnd. pose proof (grid_nearest (Z.abs z) 1 ltac:(lia) ltac:(lia)) as [Hr Hn].
  pose proof (grid_nonneg (Z.abs z) 1 ltac:(lia) ltac:(lia)) as Hg.
  destruct (huge <=? grid (Z.abs z) 1); [by destruct (z <? 0)|].
  intros [= <-]. split.
  - destruct Hr as (m & k & Hm & Hk & Hv).
    destruct (Z.eq_dec z 0) as [->|Hz].
    + apply representable_0.
    + exists m, k. split; [done|]. split; [done|]. rewrite <- Hv. lia.
  - intros v' Hv'. pose proof (Hn v' Hv') as H1.
    pose proof (Hn (- v') (representable_opp _ Hv')) as H2. lia.
Qed.

Lemma nearest_bound z v B :
  nearest_double z 1 v → representable B → Z.abs z <= B → Z.abs v <= B.
Proof.
  intros [_ Hn] HB Hz.
  pose proof (Hn 0 representable_0). pose proof (Hn B HB).
  pose proof (Hn (- B) (representable_opp _ HB)). lia.
Qed.

(** Up to [2^1023] there is no overflow. *)
Lemma rnd_finite z : Z.abs z <= 2 ^ 1023 * scale → ∃ v, rnd z = Fin v.
Proof.
  intros Hz. unfold rnd.
  assert (grid (Z.abs z) 1 <= grid (2 ^ 52 * 2 ^ 2045) 1) as Hle.
  { apply grid_mono; try lia. rewrite !Z.mul_1_r. etrans; [exact Hz|].
    unfold scale, emin, emax, prec. rewrite <- !Z.pow_add_r by lia.
    apply pow2_le. lia. }
  pose proof (rnd_exact_abs (2 ^ 52) 2045 ltac:(done) ltac:(done)) as [Hg Hh].
  rewrite Hg in Hle.
  destruct (Z.leb_spec huge (grid (Z.abs z) 1)); [lia|]. eauto.
Qed.

Lemma to_cents_r2a s u : 0 <= u → to_cents (sgn s * u) (sgn s * r2a u).
Proof.
  intros Hu. pose proof scale_pos as HS.
  assert (0 <= rne_div (100 * u) scale) by (apply rne_div_ge; lia).
  set (h := rne_div (100 * u) scale) in *.
  assert (Hh : is_rne (100 * u) scale h) by (by apply rne_div_spec).
  exists (sgn s * h). split.
  - unfold nearest_hundredth. destruct Hh as [[Hlo Hhi] _].
    assert (Z.abs (100 * (sgn s * u) - sgn s * h * scale) = Z.abs (100 * u - h * scale))
      as ->.
    { destruct s; cbn [sgn]; [|f_equal; lia].
      rewrite <- (Z.abs_opp (100 * u - h * scale)). f_equal. lia. }
    lia.
  - pose proof (grid_nearest (h * scale) 100 ltac:(nia) ltac:(lia)) as [Hr Hn].
    fold (r2a u) in Hr, Hn. pose proof (r2a_nonneg u Hu).
    split.
    + destruct s; cbn [sgn]; [|by rewrite Z.mul_1_l].
      replace (-1 * r2a u) with (- r2a u) by lia. by apply representable_opp.
    + intros v' Hv'. pose proof (Hn v' Hv') as H1.
      pose proof (Hn (- v') (representable_opp _ Hv')) as H2.
      destruct s; cbn [sgn].
      * replace (-1 * r2a u * 100 - -1 * h * scale) with (- (r2a u * 100 - h * scale)) by lia.
        replace (v' * 100 - -1 * h * scale) with (- (- v' * 100 - h * scale)) by lia.
        by rewrite !Z.abs_opp.
      * replace (1 * r2a u * 100 - 1 * h * scale) with (r2a u * 100 - h * scale) by lia.
        replace (v' * 100 - 1 * h * scale) with (v' * 100 - h * scale) by lia. done.
Qed.

(** [float(w)] for a window of moderate size *)
Lemma of_int_nearest w fw :
  Z.abs w <= 2 ^ 1022 → of_int w = Ok fw →
  valid fw = true ∧ ∃ xw, fval fw = Some (Fin xw) ∧ nearest_double (w * scale) 1 xw
                          ∧ Z.abs xw <= 2 ^ 1022 * scale.
Proof.
  intros Hw Hfw. destruct (of_int_rnd w fw Hfw) as [Hv Hf]. split; [done|].
  pose proof scale_pos.
  destruct (rnd_finite (w * scale)) as [xw Hxw]; [nia|].
  exists xw. rewrite Hf, Hxw. split; [done|].
  pose proof (rnd_nearest _ _ Hxw) as Hn. split; [done|].
  apply (nearest_bound (w * scale)); [done|by apply representable_pow2|nia].
Qed.

(** *** The arithmetic of the handler against the specification *)

Lemma py_round2_rounded v x r :
  is_number v → has_value v x → py_round2 v = Ok r →
  rounded2 v r ∧ is_number r ∧ ∃ y, has_value r y.
Proof.
  unfold rounded2, has_value. intros Hv Hx Hr.
  destruct v as [|b|n|f| | |]; try done; cbn in Hr |- *.
  - injection Hr as <-. split; [done|]. split; [done|]. by eexists.
  - injection Hr as <-. split; [done|]. split; [done|]. by eexists.
  - apply bind_Ok in Hr as (r' & Hr' & [= <-]). cbn in Hx, Hv.
    destruct (fval_finite_cases _ _ Hx) as [(s & -> & ->)|(s & m & e & -> & ->)].
    + injection Hr' as <-. split; [|split; [done|by eexists]].
      exists 0, 0. split; [done|]. split; [by eexists|]. split; [done|].
      apply (to_cents_r2a false 0 ltac:(done)).
    + destruct (round2_finite s m e Hv) as (r & Hr & Hvr & Hfr & _).
      rewrite Hr in Hr'. injection Hr' as <-.
      pose proof (valid_finite_bounds _ _ _ Hv) as [He _].
      pose proof (pow2_pos (e - emin) ltac:(lia)).
      split; [|split; [done|by eexists]].
      eexists _, _. split; [done|]. split; [by eexists|]. split; [exact Hfr|].
      rewrite sval_finite. apply to_cents_r2a. nia.
Qed.

Lemma py_sub_difference s w d :
  moderate s → Z.abs w <= 2 ^ 1022 → py_sub s w = Ok d →
  difference_of s w d ∧ is_number d ∧ ∃ y, has_value d y.
Proof.
  unfold difference_of, has_value. intros [Hs (x & Hx & Hb)] Hw Hd.
  destruct s as [|b|n|f| | |]; try done; cbn in Hd |- *.
  - injection Hd as <-. split; [done|]. split; [done|]. by eexists.
  - injection Hd as <-. split; [done|]. split; [done|]. by eexists.
  - apply bind_Ok in Hd as (fw & Hfw & [= <-]). cbn in Hx, Hs.
    destruct (of_int_nearest w fw Hw Hfw) as (Hvw & xw & Hxw & Hnw & Hbw).
    destruct (sub_fval f fw x xw Hs Hvw Hx Hxw) as [Hvd Hfd].
    destruct (rnd_finite (x - xw)) as [y Hy].
    { change (2 ^ 1023) with (2 * 2 ^ 1022). lia. }
    rewrite Hy in Hfd.
    split; [|split; [done|by eexists]].
    exists x, xw, y. split; [done|]. split; [done|]. split; [by apply rnd_nearest|].
    split; [by eexists|done].
Qed.

Lemma py_add_sum s w d :
  moderate s → Z.abs w <= 2 ^ 1022 → py_add s w = Ok d →
  sum_of s w d ∧ is_number d ∧ ∃ y, has_value d y.
Proof.
  unfold sum_of, has_value. intros [Hs (x & Hx & Hb)] Hw Hd.
  destruct s as [|b|n|f| | |]; try done; cbn in Hd |- *.
  - injection Hd as <-. split; [done|]. split; [done|]. by eexists.
  - injection Hd as <-. split; [done|]. split; [done|]. by eexists.
  - apply bind_Ok in Hd as (fw & Hfw & [= <-]). cbn in Hx, Hs.
    destruct (of_int_nearest w fw Hw Hfw) as (Hvw & xw & Hxw & Hnw & Hbw).
    destruct (add_fval f fw x xw Hs Hvw Hx Hxw) as [Hvd Hfd].
    destruct (rnd_finite (x + xw)) as [y Hy].
    { change (2 ^ 1023) with (2 * 2 ^ 1022). lia. }
    rewrite Hy in Hfd.
    split; [|split; [done|by eexists]].
    exists x, xw, y. split; [done|]. split; [done|]. split; [by apply rnd_nearest|].
    split; [by eexists|done].
Qed.

Lemma py_max0_clamped d x c :
  is_number d → has_value d x → py_max0 d = Ok c →
  clamped0 d c ∧ is_number c ∧ ∃ y, has_value c y.
Proof.
  unfold clamped0, has_value. intros Hd Hx Hc. unfold py_max0 in Hc.
  apply bind_Ok in Hc as (b & Hb & [= <-]).
  assert (b = (x <? 0)) as ->.
  { destruct d as [|b'|n|f| | |]; try done; cbn in Hb, Hx; injection Hb as <-.
    - injection Hx as <-. pose proof scale_pos. destruct b'; cbn; symmetry;
        apply Z.ltb_ge; lia.
    - injection Hx as <-. pose proof scale_pos.
      destruct (Z.ltb_spec n 0), (Z.ltb_spec (n * scale) 0); try done; nia.
    - unfold SFltb. rewrite (SFcompare_fval f zero (Fin x) (Fin 0) Hd eq_refl Hx eq_refl).
      cbn [ext_compare]. unfold Z.ltb. done. }
  destruct (Z.ltb_spec x 0).
  - split; [|split; [done|by eexists]]. exists x. split; [done|]. by left.
  - split; [|split; [done|by eexists]]. exists x. split; [done|]. by right.
Qed.

(** *** Lower case on ASCII text *)

Lemma lower_letter_same a b :
  (if (65 <=? a)%N && (a <=? 90)%N then (a + 32)%N else a)
  = (if (65 <=? b)%N && (b <=? 90)%N then (b + 32)%N else b)
  ↔ same_letter a b.
Proof.
  unfold same_letter.
  destruct (N.leb_spec 65 a), (N.leb_spec a 90), (N.leb_spec 65 b), (N.leb_spec b 90);
    cbn; lia.
Qed.

Lemma ascii_lower_eq (l1 l2 : str) :
  ascii_lower l1 = ascii_lower l2 ↔ Forall2 same_letter l1 l2.
Proof.
  unfold ascii_lower. revert l2. induction l1 as [|a l1 IH]; intros [|b l2]; cbn.
  - split; [constructor|done].
  - split; [done|]. intros Hf. inversion Hf.
  - split; [done|]. intros Hf. inversion Hf.
  - split.
    + intros [= Hab Hl]. constructor; [by apply lower_letter_same|by apply IH].
    + intros Hf. inversion Hf as [|? ? ? ? Hab Hl]; subst. f_equal.
      * by apply lower_letter_same.
      * by apply IH.
Qed.

(** The lower-case forms contain one another just when the texts do
    without regard to case. *)
Lemma ascii_lower_occurs k t :
  substring (ascii_lower k) (ascii_lower t) ↔ occurs_nocase k t.
Proof.
  unfold substring, occurs_nocase, ascii_lower. split.
  - intros (pre & suf & Heq).
    apply fmap_app_inv in Heq as (l1 & l23 & -> & Heq & ->). symmetry in Heq.
    apply fmap_app_inv in Heq as (l2 & l3 & Hk & -> & ->).
    exists l1, l2, l3. split; [done|]. by apply ascii_lower_eq.
  - intros (pre & mid & suf & -> & Hf). apply ascii_lower_eq in Hf.
    fold (ascii_lower k). rewrite <- Hf. unfold ascii_lower.
    eexists _, _. by rewrite !map_app.
Qed.

(** *** The search on numbers *)

Lemma is_number_of_int w fw : Float.of_int w = Ok fw → Float.valid fw = true.
Proof. intros Hfw. by destruct (of_int_fval w fw Hfw). Qed.

Lemma py_sub_total s w :
  is_number s → window_ok w → ∃ d, py_sub s w = Ok d ∧ is_number d.
Proof.
  intros Hs [fw Hfw]. destruct s as [|b|n|f| | |]; try done; cbn.
  - eauto.
  - eauto.
  - rewrite Hfw. cbn. eexists. split; [done|]. cbn.
    apply sub_valid; [done|]. by eapply is_number_of_int.
Qed.

Lemma py_add_total e w :
  is_number e → window_ok w → ∃ g, py_add e w = Ok g ∧ is_number g.
Proof.
  intros He [fw Hfw]. destruct e as [|b|n|f| | |]; try done; cbn.
  - eauto.
  - eauto.
  - rewrite Hfw. cbn. eexists. split; [done|]. cbn.
    apply add_valid; [done|]. by eapply is_number_of_int.
Qed.

Lemma py_max0_total d : is_number d → ∃ c, py_max0 d = Ok c ∧ is_number c.
Proof.
  intros Hd. unfold py_max0.
  destruct d as [|b|n|f| | |]; try done; cbn.
  - eauto.
  - eexists. split; [done|]. by destruct (n <? 0).
  - eexists. split; [done|]. by destruct (SFltb f Float.zero).
Qed.

Lemma py_round2_total v : is_number v → ∃ r, py_round2 v = Ok r.
Proof.
  intros Hv. destruct v as [|b|n|f| | |]; try done; cbn; eauto.
  destruct (round2_total f Hv) as (r & -> & _). cbn. eauto.
Qed.

Section SearchNumbers.
Context `{Runtime}.

Lemma search_hit_total w seg :
  is_segment seg → window_ok w → ∃ m, search_hit w seg = Ok m.
Proof.
  intros (t & s & e & Ht & Hs & He & Hns & Hne) Hw.
  destruct (py_sub_total s w Hns Hw) as (d & Hd & Hnd).
  destruct (py_max0_total d Hnd) as (c & Hc & Hnc).
  destruct (py_add_total e w Hne Hw) as (g & Hg & Hng).
  destruct (py_round2_total s Hns) as (fa & Hfa).
  destruct (py_round2_total c Hnc) as (cs & Hcs).
  destruct (py_round2_total g Hng) as (ce & Hce).
  exists {| found_at := fa; clip_start := cs; clip_end := ce; text := str_strip t |}.
  apply element_search_hit. exists t, s, e. cbn.
  rewrite Hd. cbn. rewrite Hc. cbn. rewrite Hg. cbn. done.
Qed.

Lemma selects_total k w segs :
  Forall is_segment segs → window_ok w → ∃ R, selects k w segs R.
Proof.
  intros Hsegs Hw. induction Hsegs as [|seg segs Hseg _ [R IH]].
  - exists []. constructor.
  - destruct (search_hit_total w seg Hseg Hw) as [m Hm].
    destruct Hseg as (t & s & e & Ht & _).
    destruct (str_contains (str_lower t) (str_lower k)) eqn:Hc.
    + exists (m :: R). apply selects_hit; [|by apply search_hit_element|done].
      exists t. split; [done|]. by apply str_contains_ci.
    + exists R. eapply selects_skip; [done| |done].
      rewrite <- str_contains_ci, Hc. done.
Qed.

(** The lower case of the runtime with Greek letters is that of ASCII
    on ASCII text. *)
Lemma greek_lower_from_ascii before s :
  Forall is_ascii s → greek_lower_from before s = ascii_lower s.
Proof.
  intros Hs. revert before. induction Hs as [|c s Hc _ IH]; intros before; [done|].
  cbn. rewrite IH. f_equal. unfold is_ascii in Hc.
  destruct (N.eqb_spec c 931); [lia|]. unfold lower_char, greek_capital.
  destruct (N.leb_spec 913 c); [lia|]. cbn. by rewrite orb_false_r.
Qed.

Lemma greek_lowers_ascii : lowers_ascii (H:=greek_runtime).
Proof. intros s Hs. by apply greek_lower_from_ascii. Qed.

Lemma seg_matches_ascii k seg :
  lowers_ascii → Forall is_ascii k →
  (∀ t, seg !! lit "text" = Some (VStr t) → Forall is_ascii t) →
  seg_matches k seg ↔ seg_matches_nocase k seg.
Proof.
  intros Hlow Hk Ht. unfold seg_matches, seg_matches_nocase, contains_ci.
  split; intros (t & Hseg & Hc); exists t; (split; [done|]).
  - rewrite (Hlow k Hk), (Hlow t (Ht t Hseg)) in Hc. by apply ascii_lower_occurs.
  - rewrite (Hlow k Hk), (Hlow t (Ht t Hseg)). by apply ascii_lower_occurs.
Qed.

Lemma picks_iff (P Q : dict → Prop) w segs R :
  (∀ seg, seg ∈ segs → P seg ↔ Q seg) → picks P w segs R → picks Q w segs R.
Proof.
  intros HPQ (idx & Hlen & Hel & Hall & Hinc). exists idx.
  split; [done|]. split; [|split; [|done]].
  - intros j i m Hj Hm. destruct (Hel j i m Hj Hm) as (seg & Hi & HP & He).
    exists seg. split; [done|]. split; [|done].
    apply HPQ; [by eapply list_elem_of_lookup_2|done].
  - intros i seg Hi HQ. apply (Hall i seg Hi).
    apply HPQ; [by eapply list_elem_of_lookup_2|done].
Qed.

(** C1, as the code has it: the keyword is returned as sent, and the
    result of a search holds, in the order of the segments, one element
    for each segment whose text in lower case contains the keyword in
    lower case, and nothing else. Where [str.lower] is the lower case of
    ASCII and the keyword and the texts are ASCII, these are the
    segments whose text contains the keyword as a case-insensitive
    substring. On segments of the data model, with a window in the range
    of [float], the search returns. *)
Theorem search_selects_ignoring_case data :
  (∀ resp, search_keyword data = Ok resp →
     resp_keyword resp = keyword data
     ∧ picks (seg_matches (keyword data)) (window data) (segments data)
         (matches resp)
     ∧ (lowers_ascii → Forall is_ascii (keyword data) →
        (∀ seg t, seg ∈ segments data → seg !! lit "text" = Some (VStr t) →
                  Forall is_ascii t) →
        picks (seg_matches_nocase (keyword data)) (window data) (segments data)
          (matches resp)))
  ∧ (Forall is_segment (segments data) → window_ok (window data) →
     ∃ resp, search_keyword data = Ok resp).
Proof.
  split.
  - intros resp [Hk Hs]%search_keyword_Ok. split; [done|].
    assert (picks (seg_matches (keyword data)) (window data) (segments data)
              (matches resp)) as Hp by by apply selects_indices.
    split; [done|]. intros Hlow Hka Hta. revert Hp. apply picks_iff.
    intros seg Hin. apply seg_matches_ascii; [done..|]. intros t. by apply Hta.
  - intros Hsegs Hw.
    destruct (selects_total (keyword data) (window data) _ Hsegs Hw) as [R HR].
    exists {| resp_keyword := keyword data; matches := R |}.
    by apply search_keyword_Ok.
Qed.

Lemma element_for_of w seg m :
  Z.abs w <= 2 ^ 1022 →
  (∀ v, seg !! lit "start" = Some v ∨ seg !! lit "end" = Some v → moderate v) →
  element_for w seg m → element_of w seg m.
Proof.
  intros Hw Hmod (t & s & e & Ht & Hs & He & Hfa & Hcs & Hce & Htx).
  assert (Hms : moderate s) by (apply Hmod; by left).
  assert (Hme : moderate e) by (apply Hmod; by right).
  apply bind_Ok in Hcs as (d & Hd & Hcs). apply bind_Ok in Hcs as (c & Hc & Hcs).
  apply bind_Ok in Hce as (g & Hg & Hce).
  destruct (py_sub_difference s w d Hms Hw Hd) as (Hdd & Hnd & yd & Hyd).
  destruct (py_max0_clamped d yd c Hnd Hyd Hc) as (Hcc & Hnc & yc & Hyc).
  destruct (py_add_sum e w g Hme Hw Hg) as (Hgg & Hng & yg & Hyg).
  destruct Hms as [Hns (xs & Hxs & _)].
  exists t, s, e, d, c, g. repeat split; try done.
  - by destruct (py_round2_rounded s xs _ Hns Hxs Hfa).
  - by destruct (py_round2_rounded c yc _ Hnc Hyc Hcs).
  - by destruct (py_round2_rounded g yg _ Hng Hyg Hce).
  - rewrite Htx. apply str_strip_spec.
  - rewrite Htx. apply str_strip_spec.
  - rewrite Htx. apply str_strip_spec.
Qed.

(** C2: for times of at most [2^1022] seconds in size and a window
    likewise, every segment that matches has an element in the result
    whose [found_at] is its start rounded to two decimal places, whose
    [clip_start] is its start less the window, replaced by 0 where that
    is negative, rounded to two places, whose [clip_end] is its end plus
    the window rounded to two places, with no bound from above, and
    whose [text] is its text without the whitespace at the two ends;
    and every element of the result is such an element of a segment
    that matches. Rounding to two places is to a double nearest to a
    nearest multiple of 0.01, and leaves an [int] as it is; a sum or a
    difference with a [float] is the nearest double. *)
Theorem search_element_fields data resp :
  Z.abs (window data) <= 2 ^ 1022 →
  (∀ seg v, seg ∈ segments data →
     seg !! lit "start" = Some v ∨ seg !! lit "end" = Some v → moderate v) →
  search_keyword data = Ok resp →
  (∀ seg, seg ∈ segments data → seg_matches (keyword data) seg →
     ∃ m, m ∈ matches resp ∧ element_of (window data) seg m)
  ∧ (∀ m, m ∈ matches resp →
       ∃ seg, seg ∈ segments data ∧ seg_matches (keyword data) seg
              ∧ element_of (window data) seg m).
Proof.
  intros Hw Hmod [_ Hs]%search_keyword_Ok.
  destruct (selects_elements _ _ _ _ Hs) as [H1 H2]. split.
  - intros seg Hin Hk. destruct (H2 seg Hin Hk) as (m & Hm & Hel).
    exists m. split; [done|]. apply element_for_of; [done| |done].
    intros v. by apply Hmod.
  - intros m Hm. destruct (H1 m Hm) as (seg & Hin & Hk & Hel).
    exists seg. split; [done|]. split; [done|]. apply element_for_of; [done| |done].
    intros v. by apply Hmod.
Qed.

Lemma contains_ci_nil t : contains_ci t [].
Proof.
  unfold contains_ci. rewrite lower_empty. by exists [], (str_lower t).
Qed.

Lemma selects_all w segs R :
  selects [] w segs R → Forall2 (element_for w) segs R.
Proof.
  induction 1 as [|seg m L R Hk Hm _ IH|seg t L R Ht Hc _ IH].
  - constructor.
  - by constructor.
  - destruct Hc. apply contains_ci_nil.
Qed.

(** C4: with the empty keyword every segment matches: a response of
    the search has one element for each segment, in order, and on
    segments of the data model, with a window in the range of float,
    the search does return; and with a keyword that no text contains the
    search returns the body with no matches, a normal response with
    status 200. *)
Theorem search_empty_and_absent_keyword data :
  (keyword data = [] →
   (∀ resp, search_keyword data = Ok resp →
            Forall2 (element_for (window data)) (segments data) (matches resp))
   ∧ (Forall is_segment (segments data) → window_ok (window data) →
      ∃ resp, search_keyword data = Ok resp))
  ∧ (Forall (λ seg, ∃ t, seg !! lit "text" = Some (VStr t)
                         ∧ ¬ contains_ci t (keyword data)) (segments data) →
     search_keyword data = Ok {| resp_keyword := keyword data; matches := [] |}
     ∧ http_status (search_keyword data) = 200).
Proof.
  split.
  - intros Hk. split.
    + intros resp [_ HR]%search_keyword_Ok. rewrite Hk in HR.
      by apply selects_all.
    + intros Hsegs Hw.
      destruct (selects_total (keyword data) (window data) _ Hsegs Hw) as [R HR].
      exists {| resp_keyword := keyword data; matches := R |}.
      by apply search_keyword_Ok.
  - intros Hnone.
    assert (search_keyword data = Ok {| resp_keyword := keyword data; matches := [] |})
      as Hr.
    { apply search_keyword_Ok. split; [done|]. by apply selects_none. }
    by rewrite Hr.
Qed.

(** C3, as the code has it: the element computed from a segment with
    [start >= 0] and [end >= start] has a [clip_start] that is not
    negative, whatever the window; and its [clip_end] is at least its
    [clip_start] when the window is not negative. *)
Theorem clip_window_ordered w seg m s e :
  search_hit w seg = Ok m →
  seg !! lit "start" = Some s → seg !! lit "end" = Some e →
  is_number s → is_number e →
  py_le (VInt 0) s = true → py_le s e = true →
  py_lt (clip_start m) (VInt 0) = false
  ∧ (0 <= w → py_le (clip_start m) (clip_end m) = true).
Proof.
  intros Hm Hs He Hns Hne H0s Hse.
  apply search_hit_element in Hm as (t & s' & e' & _ & Hs' & He' & _ & Hcs & Hce & _).
  rewrite Hs in Hs'. injection Hs' as <-. rewrite He in He'. injection He' as <-.
  apply bind_Ok in Hcs as (d & Hd & Hcs). apply bind_Ok in Hcs as (c & Hc & Hcs).
  apply bind_Ok in Hce as (g & Hg & Hce).
  apply (py_le_xv (VInt 0) s I Hns) in H0s as (x0 & xs & Hx0 & Hxs & H0).
  injection Hx0 as <-. change (0 * scale) with 0 in H0.
  apply (py_le_xv s e Hns Hne) in Hse as (xs' & xe & Hxs' & Hxe & Hle).
  rewrite Hxs in Hxs'. injection Hxs' as <-.
  destruct (py_sub_xv s w d xs Hns Hxs Hd) as (Hnd & y & Hy & Hyle).
  destruct (py_max0_xv d c y Hnd Hy Hc) as (Hnc & z & Hz & H0z & Hmax).
  split.
  - destruct (py_round2_mono c c z z (clip_start m) (clip_start m)
                Hnc Hnc Hz Hz H0z (ext_le_refl z) Hcs Hcs)
      as (Hncs & _ & x' & _ & Hx' & _ & H0x' & _).
    by eapply (py_lt_xv (clip_start m) (VInt 0) x' (Fin 0)).
  - intros Hw.
    destruct (py_add_xv e w g xe Hne Hxe Hw Hg) as (Hng & yg & Hyg & Hgle).
    assert (ext_le z yg) as Hzg.
    { apply Hmax.
      - eapply ext_le_trans; [by apply Hyle|]. by eapply ext_le_trans.
      - eapply ext_le_trans; [exact H0|]. by eapply ext_le_trans. }
    destruct (py_round2_mono c g z yg (clip_start m) (clip_end m)
                Hnc Hng Hz Hyg H0z Hzg Hcs Hce)
      as (Hncs & Hnce & x' & y' & Hx' & Hy' & _ & Hle').
    apply py_le_xv; [done|done|]. exists x', y'. done.
Qed.
End SearchNumbers.

(** * Further properties of the handlers *)

(** ** The search: composition, the text and the window *)

Section SearchMore.
Context `{Runtime}.

Lemma search_loop_app kw w segs1 segs2 acc :
  search_loop kw w (segs1 ++ segs2) acc
  = (R ← search_loop kw w segs1 acc; search_loop kw w segs2 R).
Proof.
  revert acc. induction segs1 as [|seg segs1 IH]; intros acc; cbn; [done|].
  destruct (search_test kw seg) as [[|]|e]; cbn; [|apply IH|done].
  destruct (search_hit w seg) as [m|e]; cbn; [apply IH|done].
Qed.

(** X1: a search over two lists of segments one after the other is the
    search over the first followed by the search over the second: the
    matches are those of the first list, then those of the second, and
    an exception is the first one met in that order. *)
Theorem search_keyword_app segs1 segs2 k w :
  search_keyword {| segments := segs1 ++ segs2; keyword := k; window := w |}
  = (r1 ← search_keyword {| segments := segs1; keyword := k; window := w |};
     r2 ← search_keyword {| segments := segs2; keyword := k; window := w |};
     Ok {| resp_keyword := k; matches := matches r1 ++ matches r2 |}).
Proof.
  unfold search_keyword. cbn [segments keyword window].
  rewrite search_loop_app.
  destruct (search_loop (str_lower k) w segs1 []) as [R1|e]; cbn; [|done].
  rewrite search_loop_acc.
  destruct (search_loop (str_lower k) w segs2 []) as [R2|e]; cbn; done.
Qed.

End SearchMore.

Section SearchText.
Context `{Runtime}.

(** X2: the text of a match is the text of a segment without the
    whitespace at its two ends: it neither begins nor ends with a
    whitespace character, and whitespace inside it is kept. *)
Theorem match_text_stripped data resp m :
  search_keyword data = Ok resp → m ∈ matches resp →
  (∀ c, head (text m) = Some c → is_space c = false)
  ∧ (∀ c, last (text m) = Some c → is_space c = false)
  ∧ ∃ seg t pre suf,
      seg ∈ segments data ∧ seg !! lit "text" = Some (VStr t)
      ∧ t = pre ++ text m ++ suf
      ∧ Forall (λ c, is_space c = true) pre ∧ Forall (λ c, is_space c = true) suf.
Proof.
  intros [_ Hs]%search_keyword_Ok Hm.
  destruct (selects_elements _ _ _ _ Hs) as [Hel _].
  destruct (Hel m Hm) as (seg & Hseg & _ & (t & s & e & Ht & _ & _ & _ & _ & _ & ->)).
  destruct (str_strip_spec t) as ((pre & suf & Heq & Hpre & Hsuf) & Hhead & Hlast).
  split; [done|]. split; [done|]. by exists seg, t, pre, suf.
Qed.

(** X3: the text of every segment is lowered before anything else is
    looked at: a segment whose "text" is not a string makes the search
    raise for every keyword and every window, whether or not the other
    segments match. *)
Theorem search_needs_text_string segs k w :
  Exists (λ seg, ∃ v, seg !! lit "text" = Some v ∧ ∀ t, v ≠ VStr t) segs →
  ∃ e, search_keyword {| segments := segs; keyword := k; window := w |} = Raise e.
Proof.
  intros Hex.
  destruct (Res_cases (search_keyword {| segments := segs; keyword := k; window := w |}))
    as [[resp Hr]|[e He]]; [|eauto].
  apply search_keyword_Ok in Hr as [_ Hs]. cbn in Hs.
  apply selects_keys in Hs. rewrite Forall_forall in Hs.
  apply Exists_exists in Hex as (seg & Hin & v & Hv & Hno).
  destruct (Hs _ Hin) as (t & Ht & _). rewrite Hv in Ht. injection Ht as ->.
  by destruct (Hno t).
Qed.

End SearchText.

Section Window.
Context `{Runtime}.

Lemma selects_same_matches k w1 w2 segs R1 R2 :
  selects k w1 segs R1 → selects k w2 segs R2 →
  Forall2 (λ m1 m2, found_at m1 = found_at m2 ∧ text m1 = text m2) R1 R2.
Proof.
  intros H1. revert R2.
  induction H1 as [|seg m L R (t & Ht & Hc) Hm _ IH|seg t L R Ht Hc _ IH];
    intros R2 H2; inversion H2 as [|seg' m' L' R' Hk' Hm' HL'|seg' t' L' R' Ht' Hc' HL'];
    subst.
  - constructor.
  - constructor; [|by apply IH].
    destruct Hm as (t1 & s1 & e1 & Ht1 & Hs1 & _ & Hfa1 & _ & _ & Htx1).
    destruct Hm' as (t2 & s2 & e2 & Ht2 & Hs2 & _ & Hfa2 & _ & _ & Htx2).
    simplify_eq. split; congruence.
  - rewrite Ht in Ht'. injection Ht' as <-. done.
  - destruct Hk' as (t' & Ht' & Hc'). rewrite Ht in Ht'. injection Ht' as <-. done.
  - by apply IH.
Qed.

(** X4: the window moves the clip and nothing else: two searches of the
    same segments for the same keyword with different windows, when both
    return, return matches of the same segments, one for one, with the
    same [found_at] and the same [text]. *)
Theorem search_window_only_moves_clip segs k w1 w2 r1 r2 :
  search_keyword {| segments := segs; keyword := k; window := w1 |} = Ok r1 →
  search_keyword {| segments := segs; keyword := k; window := w2 |} = Ok r2 →
  Forall2 (λ m1 m2, found_at m1 = found_at m2 ∧ text m1 = text m2)
    (matches r1) (matches r2).
Proof.
  intros [_ H1]%search_keyword_Ok [_ H2]%search_keyword_Ok.
  by eapply selects_same_matches.
Qed.

End Window.

(** ** The clip of a match *)

Lemma ext_le_antisym a b : ext_le a b → ext_le b a → a = b.
Proof.
  destruct a as [|x|], b as [|y|]; try done.
  rewrite !ext_le_Fin. intros H1 H2. f_equal. lia.
Qed.

(** [s - w] is not positive when [s <= w]. *)
Lemma py_sub_le0 s w d :
  is_number s → py_le s (VInt w) = true → py_sub s w = Ok d →
  is_number d ∧ ∃ y, xv d = Some y ∧ ext_le y (Fin 0).
Proof.
  intros Hs Hle Hd. pose proof scale_pos.
  apply (py_le_xv s (VInt w) Hs I) in Hle as (x & xw & Hx & Hxw & Hle).
  injection Hxw as <-.
  destruct s as [|b|n|f| | |]; try done; cbn in Hx, Hd.
  - injection Hd as <-. injection Hx as <-. split; [done|]. eexists. split; [done|].
    rewrite ext_le_Fin in Hle. apply ext_le_Fin. nia.
  - injection Hd as <-. injection Hx as <-. split; [done|]. eexists. split; [done|].
    rewrite ext_le_Fin in Hle. apply ext_le_Fin. nia.
  - apply bind_Ok in Hd as (fw & Hfw & [= <-]).
    destruct (of_int_fval w fw Hfw) as (Hvw & vw & Hfvw & _).
    destruct (of_int_rnd w fw Hfw) as (_ & Hrw).
    cbn. split; [by apply sub_valid|].
    destruct x as [|vx|].
    + destruct f as [|[|]| |]; try done.
      destruct fw as [|[|]| |]; try done; exists NegInf; done.
    + destruct (sub_fval f fw vx vw Hs Hvw Hx Hfvw) as [_ Hf].
      eexists. split; [done|].
      rewrite <- rnd_zero. apply rnd_mono.
      assert (ext_le (rnd vx) (rnd (w * scale))) as Hr.
      { apply rnd_mono. by rewrite ext_le_Fin in Hle. }
      rewrite (rnd_exact f vx Hs Hx) in Hr.
      rewrite Hfvw in Hrw. injection Hrw as Hrw. rewrite <- Hrw in Hr.
      rewrite ext_le_Fin in Hr. lia.
    + done.
Qed.

Section ClipNumbers.
Context `{Runtime}.

(** X5: a match whose segment starts no later than [window] seconds into
    the recording (its start is at most the window) has a [clip_start]
    equal to zero. *)
Theorem clip_start_zero w seg m s :
  search_hit w seg = Ok m →
  seg !! lit "start" = Some s → is_number s →
  py_le s (VInt w) = true →
  num_compare (clip_start m) (VInt 0) = Some Eq.
Proof.
  intros Hm Hs Hns Hsw.
  apply search_hit_element in Hm as (t & s' & e' & _ & Hs' & _ & _ & Hcs & _ & _).
  rewrite Hs in Hs'. injection Hs' as <-.
  apply bind_Ok in Hcs as (d & Hd & Hcs). apply bind_Ok in Hcs as (c & Hc & Hcs).
  destruct (py_sub_le0 s w d Hns Hsw Hd) as (Hnd & y & Hy & Hy0).
  destruct (py_max0_xv d c y Hnd Hy Hc) as (Hnc & z & Hz & H0z & Hmax).
  assert (z = Fin 0) as ->.
  { apply ext_le_antisym; [|done]. apply Hmax; [done|apply ext_le_refl]. }
  destruct (py_round2_cases c (Fin 0) (clip_start m) Hnc Hz H0z Hcs) as (Hnr & Hcase).
  assert (xv (clip_start m) = Some (Fin 0)) as Hxr.
  { destruct Hcase as [(n & _ & Hn & Hr)|[(_ & Hr)|[(Hinf & _)|(mm & ee & Hv & Hx & _)]]];
      try done.
    injection Hx as Hx. apply valid_finite_bounds in Hv as [[He _] _].
    pose proof (pow2_pos (ee - emin) ltac:(lia)). lia. }
  by rewrite (num_compare_xv (clip_start m) (VInt 0) (Fin 0) (Fin 0) Hnr I Hxr eq_refl).
Qed.

(** X6: with a window that is not negative, on a segment with
    [0 <= start <= end], the time of the match lies in the clip:
    [clip_start <= found_at <= clip_end]. *)
Theorem found_at_within_clip w seg m s e :
  search_hit w seg = Ok m →
  seg !! lit "start" = Some s → seg !! lit "end" = Some e →
  is_number s → is_number e →
  py_le (VInt 0) s = true → py_le s e = true → 0 <= w →
  py_le (clip_start m) (found_at m) = true
  ∧ py_le (found_at m) (clip_end m) = true.
Proof.
  intros Hm Hs He Hns Hne H0s Hse Hw.
  apply search_hit_element in Hm as (t & s' & e' & _ & Hs' & He' & Hfa & Hcs & Hce & _).
  rewrite Hs in Hs'. injection Hs' as <-. rewrite He in He'. injection He' as <-.
  apply bind_Ok in Hcs as (d & Hd & Hcs). apply bind_Ok in Hcs as (c & Hc & Hcs).
  apply bind_Ok in Hce as (g & Hg & Hce).
  apply (py_le_xv (VInt 0) s I Hns) in H0s as (x0 & xs & Hx0 & Hxs & H0).
  injection Hx0 as <-. change (0 * scale) with 0 in H0.
  apply (py_le_xv s e Hns Hne) in Hse as (xs' & xe & Hxs' & Hxe & Hle).
  rewrite Hxs in Hxs'. injection Hxs' as <-.
  destruct (py_sub_xv s w d xs Hns Hxs Hd) as (Hnd & y & Hy & Hyle).
  destruct (py_max0_xv d c y Hnd Hy Hc) as (Hnc & z & Hz & H0z & Hmax).
  destruct (py_add_xv e w g xe Hne Hxe Hw Hg) as (Hng & yg & Hyg & Hgle).
  split.
  - assert (ext_le z xs) as Hzs by (apply Hmax; [by apply Hyle|done]).
    destruct (py_round2_mono c s z xs (clip_start m) (found_at m)
                Hnc Hns Hz Hxs H0z Hzs Hcs Hfa)
      as (Hncs & Hnfa & x' & y' & Hx' & Hy' & _ & Hle').
    apply py_le_xv; [done|done|]. exists x', y'. done.
  - assert (ext_le xs yg) as Hsg by (by eapply ext_le_trans).
    destruct (py_round2_mono s g xs yg (found_at m) (clip_end m)
                Hns Hng Hxs Hyg H0 Hsg Hfa Hce)
      as (Hnfa & Hnce & x' & y' & Hx' & Hy' & _ & Hle').
    apply py_le_xv; [done|done|]. exists x', y'. done.
Qed.

End ClipNumbers.

(** ** Paths and directory listings *)

Lemma startswith_app (p s : str) : startswith (p ++ s) p = true.
Proof. apply startswith_spec. by exists s. Qed.

Lemma startswith_slash (x : str) :
  startswith x [slash] = true ↔ head x = Some slash.
Proof.
  rewrite startswith_spec. split.
  - by intros [suf ->].
  - destruct x as [|c x]; [done|]. intros [= ->]. by exists x.
Qed.

Lemma first_component_no_slash (s : str) : slash ∉ first_component s.
Proof.
  induction s as [|c s IH]; cbn; [by apply not_elem_of_nil|].
  destruct (N.eqb_spec c slash) as [->|Hc]; [by apply not_elem_of_nil|].
  rewrite not_elem_of_cons. split; [congruence|done].
Qed.

Lemma first_component_id (s : str) : slash ∉ s → first_component s = s.
Proof.
  induction s as [|c s IH]; cbn; [done|].
  rewrite not_elem_of_cons. intros [Hc Hs].
  destruct (N.eqb_spec c slash) as [->|_]; [done|]. by rewrite IH.
Qed.

(** A string is its first component, then nothing or a slash and more. *)
Lemma first_component_split (s : str) :
  ∃ rest, s = first_component s ++ rest ∧ (rest = [] ∨ head rest = Some slash).
Proof.
  induction s as [|c s (rest & IH & Hrest)]; cbn.
  - exists []. by split; [|left].
  - destruct (N.eqb_spec c slash) as [->|_].
    + exists (slash :: s). by split; [|right].
    + exists rest. split; [by rewrite IH at 1|done].
Qed.

Lemma entry_of_join (d n : str) :
  n ≠ [] → slash ∉ n → entry_of d (d ++ [slash] ++ n) = Some n.
Proof.
  intros Hn Hs. unfold entry_of.
  rewrite (assoc_L (++)), startswith_app, drop_app_length, first_component_id by done.
  by destruct n.
Qed.

Lemma entry_of_Some (d p n : str) :
  entry_of d p = Some n →
  n ≠ [] ∧ (slash ∉ n)
  ∧ ∃ rest, p = d ++ [slash] ++ n ++ rest ∧ (rest = [] ∨ head rest = Some slash).
Proof.
  unfold entry_of. destruct (startswith p (d ++ [slash])) eqn:Hp; [|done].
  apply startswith_spec in Hp as [suf ->].
  rewrite drop_app_length.
  pose proof (first_component_no_slash suf) as Hno.
  destruct (first_component_split suf) as (rest & Hsuf & Hrest).
  destruct (first_component suf) as [|c n'] eqn:Hfc; [done|].
  intros [= <-]. split; [done|]. split; [done|].
  exists rest. split; [|done]. rewrite <- (assoc_L (++)). by rewrite Hsuf at 1.
Qed.

Lemma dir_names_spec (d : str) (w : World) (n : str) :
  n ∈ dir_names d w ↔ ∃ p, p ∈ files w ∧ entry_of d p = Some n.
Proof.
  unfold dir_names. rewrite elem_of_remove_dups, list_elem_of_omap.
  by setoid_rewrite elem_of_elements.
Qed.

Lemma dir_names_no_slash (d : str) (w : World) (n : str) :
  n ∈ dir_names d w → n ≠ [] ∧ slash ∉ n.
Proof.
  intros (p & _ & Hp)%dir_names_spec.
  apply entry_of_Some in Hp as (? & ? & _). done.
Qed.

Lemma dir_names_file (d : str) (w : World) (n : str) :
  n ≠ [] → slash ∉ n → d ++ [slash] ++ n ∈ files w → n ∈ dir_names d w.
Proof.
  intros Hn Hs Hin. apply dir_names_spec. eexists. split; [done|].
  by apply entry_of_join.
Qed.

(** ** [os.path.splitext] *)

Lemma rfind_from_None c s i : rfind_from c s i = None → c ∉ s.
Proof.
  revert i. induction s as [|d s IH]; intros i; cbn; [intros _; apply not_elem_of_nil|].
  destruct (rfind_from c s (S i)) eqn:Hr; [done|].
  destruct (N.eqb_spec d c) as [->|Hd]; [done|]. intros _.
  rewrite not_elem_of_cons. split; [congruence|by eapply IH].
Qed.

Lemma rfind_from_Some c s i j :
  rfind_from c s i = Some j →
  ∃ k, j = (i + k)%nat ∧ ∃ rest, drop k s = c :: rest ∧ c ∉ rest.
Proof.
  revert i j. induction s as [|d s IH]; intros i j; cbn; [done|].
  destruct (rfind_from c s (S i)) as [j'|] eqn:Hr.
  - intros [= <-]. destruct (IH _ _ Hr) as (k & -> & rest & Hd & Hn).
    exists (S k). split; [lia|]. by exists rest.
  - destruct (N.eqb_spec d c) as [->|Hd]; [|done]. intros [= <-].
    exists 0%nat. split; [lia|]. exists s. split; [done|]. by eapply rfind_from_None.
Qed.

Lemma not_elem_of_drop {A} (x : A) (l : list A) n : x ∉ l → x ∉ drop n l.
Proof.
  intros Hx Hin. apply Hx. rewrite <- (take_drop n l). apply elem_of_app. by right.
Qed.

(** The contract of [splitext]: the extension is the end of the path; it
    is empty, or it begins with a dot and has no other dot and no slash. *)
Lemma splitext_ext_spec (p : str) :
  (∃ root, p = root ++ splitext_ext p)
  ∧ (splitext_ext p = []
     ∨ ∃ rest, splitext_ext p = dot :: rest ∧ (dot ∉ rest) ∧ (slash ∉ rest)).
Proof.
  unfold splitext_ext.
  destruct (rfind_from dot p 0) as [j|] eqn:Hdot; [|split; [exists p; by rewrite app_nil_r|by left]].
  apply rfind_from_Some in Hdot as (k & -> & rest & Hk & Hrest). cbn [Nat.add].
  destruct (_ && _) eqn:Hcond; [|split; [exists p; by rewrite app_nil_r|by left]].
  split; [exists (take k p); by rewrite take_drop|]. right.
  exists rest. split; [done|]. split; [done|].
  apply andb_true_iff in Hcond as [Hle%bool_decide_eq_true _].
  assert (slash ∉ drop k p) as Hno.
  { destruct (rfind_from slash p 0) as [sep|] eqn:Hsl.
    - apply rfind_from_Some in Hsl as (ks & -> & rs & Hks & Hrs). cbn [Nat.add] in Hle.
      replace k with (S ks + (k - S ks))%nat by lia.
      rewrite <- drop_drop. apply not_elem_of_drop.
      replace (S ks) with (ks + 1)%nat by lia. rewrite <- drop_drop, Hks. done.
    - apply not_elem_of_drop. by eapply rfind_from_None. }
  rewrite Hk in Hno. by apply not_elem_of_cons in Hno as [_ ?].
Qed.

(** ** The directories *)

Section DirProps.
Context `{Runtime}.

Lemma path_join_dir (a b x : str) :
  b ≠ [] → last b ≠ Some slash → head x ≠ Some slash →
  path_join (path_join a b) x = path_join a b ++ [slash] ++ x.
Proof.
  intros Hb Hl Hx. unfold path_join at 1.
  destruct (startswith x [slash]) eqn:Hs; [by apply startswith_slash in Hs|].
  assert (path_join a b ≠ []) as Hne.
  { intros Hnil. apply (f_equal last) in Hnil. rewrite path_join_last in Hnil by done.
    cbn in Hnil. by apply last_None in Hnil. }
  rewrite bool_decide_eq_false_2 by done.
  rewrite bool_decide_eq_false_2; [done|]. by rewrite path_join_last.
Qed.

Lemma video_dir_join x :
  head x ≠ Some slash → path_join VIDEO_DIR x = VIDEO_DIR ++ [slash] ++ x.
Proof. intros Hx. by apply path_join_dir. Qed.

Lemma clips_dir_join x :
  head x ≠ Some slash → path_join CLIPS_DIR x = CLIPS_DIR ++ [slash] ++ x.
Proof. intros Hx. by apply path_join_dir. Qed.

Lemma audio_dir_join x :
  head x ≠ Some slash → path_join AUDIO_DIR x = AUDIO_DIR ++ [slash] ++ x.
Proof. intros Hx. by apply path_join_dir. Qed.

Lemma head_no_slash (x : str) : slash ∉ x → head x ≠ Some slash.
Proof. destruct x as [|c x]; [done|]. intros Hx [= ->]. apply Hx. left. Qed.

End DirProps.

(** ** The four directories *)

Section Apart.
Context `{Runtime}.

(** The four directories are one prefix followed by their names. *)
Lemma dirs_prefix :
  ∃ P, VIDEO_DIR = P ++ lit "videos" ∧ TEMP_DIR = P ++ lit "temp"
       ∧ CLIPS_DIR = P ++ lit "clips" ∧ AUDIO_DIR = P ++ lit "audio".
Proof.
  unfold VIDEO_DIR, TEMP_DIR, CLIPS_DIR, AUDIO_DIR, path_join.
  cbn [startswith lit].
  destruct (_ || _).
  - by exists BASE_DIR.
  - exists (BASE_DIR ++ [slash]). by rewrite <- !(assoc_L (++)).
Qed.

Lemma startswith_app_inv (P a b : str) :
  startswith (P ++ a) (P ++ b) = startswith a b.
Proof.
  induction P as [|c P IH]; [done|]. cbn. by rewrite N.eqb_refl, IH.
Qed.

Lemma dir_join i d x :
  [VIDEO_DIR; TEMP_DIR; CLIPS_DIR; AUDIO_DIR] !! i = Some d →
  head x ≠ Some slash → path_join d x = d ++ [slash] ++ x.
Proof.
  intros Hi Hx.
  destruct i as [|[|[|[|?]]]]; simplify_eq/=; by apply path_join_dir.
Qed.

(** No path below one directory begins like a path below another. *)
Lemma dirs_side_by_side i j d1 d2 x :
  [VIDEO_DIR; TEMP_DIR; CLIPS_DIR; AUDIO_DIR] !! i = Some d1 →
  [VIDEO_DIR; TEMP_DIR; CLIPS_DIR; AUDIO_DIR] !! j = Some d2 →
  i ≠ j → startswith (d1 ++ [slash] ++ x) (d2 ++ [slash]) = false.
Proof.
  intros Hi Hj Hij. destruct dirs_prefix as (P & Hv & Ht & Hc & Ha).
  destruct i as [|[|[|[|?]]]], j as [|[|[|[|?]]]]; simplify_eq/=;
    rewrite ?Hv, ?Ht, ?Hc, ?Ha, <- !(assoc_L (++)), startswith_app_inv; done.
Qed.

Lemma dirs_paths_differ i j d1 d2 x y :
  [VIDEO_DIR; TEMP_DIR; CLIPS_DIR; AUDIO_DIR] !! i = Some d1 →
  [VIDEO_DIR; TEMP_DIR; CLIPS_DIR; AUDIO_DIR] !! j = Some d2 →
  i ≠ j → d1 ++ [slash] ++ x ≠ d2 ++ [slash] ++ y.
Proof.
  intros Hi Hj Hij Heq.
  pose proof (dirs_side_by_side i j d1 d2 x Hi Hj Hij) as Hpre.
  rewrite Heq, (assoc_L (++)), startswith_app in Hpre. done.
Qed.

(** X7: the four directories lie side by side: a path built in one of
    them for a file name, a name with no slash in it that is not [..],
    is no path built in another for such a name, and is not listed in
    another. *)
Theorem directories_apart i j d1 d2 x y :
  [VIDEO_DIR; TEMP_DIR; CLIPS_DIR; AUDIO_DIR] !! i = Some d1 →
  [VIDEO_DIR; TEMP_DIR; CLIPS_DIR; AUDIO_DIR] !! j = Some d2 →
  i ≠ j → (slash ∉ x) → x ≠ lit ".." → (slash ∉ y) → y ≠ lit ".." →
  path_join d1 x ≠ path_join d2 y ∧ entry_of d2 (path_join d1 x) = None.
Proof.
  intros Hi Hj Hij Hx%head_no_slash _ Hy%head_no_slash _.
  rewrite (dir_join i d1 x Hi Hx), (dir_join j d2 y Hj Hy). split.
  - by eapply dirs_paths_differ.
  - unfold entry_of. by rewrite (dirs_side_by_side i j d1 d2 x Hi Hj Hij).
Qed.


End Apart.

(** ** Runs of handlers *)

Lemma M_bind_Ok {A B} (m : M A) (f : A → M B) w b w' :
  (m ≫= f) w = (Ok b, w') ↔ ∃ a w1, m w = (Ok a, w1) ∧ f a w1 = (Ok b, w').
Proof.
  unfold mbind, M_bind. destruct (m w) as [[a|e] w1]; split.
  - eauto.
  - by intros (a' & w1' & [= -> ->] & ?).
  - done.
  - by intros (a' & w1' & [=] & _).
Qed.

Lemma path_exists_run p w : path_exists p w = (Ok (bool_decide (p ∈ files w)), w).
Proof. done. Qed.

Section ClipLookup.
Context `{Runtime}.

(** *** [generate_clip] *)

Lemma clip_body_Ok data vp ap cid cvp cap w r w' :
  clip_body data vp ap cid cvp cap w = (Ok r, w') →
  r = ClipCreated cid (lit "/clips/" ++ cid ++ lit ".mp4")
        (if bool_decide (cap ∈ files w')
         then Some (lit "/audio/" ++ cid ++ lit ".wav") else None).
Proof.
  unfold clip_body. intros Hb.
  apply M_bind_Ok in Hb as (_ & w1 & _ & Hb).
  apply M_bind_Ok in Hb as (has_audio & w2 & _ & Hb).
  apply M_bind_Ok in Hb as (_ & w3 & _ & Hb).
  apply M_bind_Ok in Hb as (made & w4 & Hex & Hb).
  rewrite path_exists_run in Hex. injection Hex as <- <-.
  unfold mret, M_ret in Hb. by injection Hb as <- <-.
Qed.

(** Past the lookup [generate_clip] goes on to make the clips: it
    returns what it made, or raises. *)
Lemma generate_clip_found data w first rest :
  filter (λ f, startswith f (req_video_id data) = true) (dir_names VIDEO_DIR w)
    = first :: rest →
  (∃ e, (generate_clip data w).1 = Raise e)
  ∨ (∃ clip_id video_clip audio_clip,
       (generate_clip data w).1 = Ok (ClipCreated clip_id video_clip audio_clip)).
Proof.
  intros Hf. rewrite generate_clip_unfold, Hf. cbv zeta.
  destruct (clip_body _ _ _ _ _ _ _) as [[r|e] w'] eqn:Hb.
  - apply clip_body_Ok in Hb as ->. right. eauto.
  - left. exists e. by destruct (clip_cleanup_run
      (path_join CLIPS_DIR (uuids w (drawn w) ++ lit ".mp4")) w') as (w'' & -> & _).
Qed.

Lemma listed_video_found data w n :
  n ∈ dir_names VIDEO_DIR w → startswith n (req_video_id data) = true →
  (∃ e, (generate_clip data w).1 = Raise e)
  ∨ (∃ clip_id video_clip audio_clip,
       (generate_clip data w).1 = Ok (ClipCreated clip_id video_clip audio_clip)).
Proof.
  intros Hn Hpre.
  assert (n ∈ filter (λ f, startswith f (req_video_id data) = true)
                (dir_names VIDEO_DIR w)) as Hf.
  { by apply list_elem_of_filter. }
  destruct (filter _ _) as [|first rest] eqn:Hfilter.
  - by apply elem_of_nil in Hf.
  - by eapply generate_clip_found.
Qed.

(** X9: the video of a request is looked up by prefix: when a file sits
    in the videos directory under a name that begins with the
    [video_id] of the request (the whole name, a part of it, or the
    empty string), [generate_clip] does not answer "Video file not
    found": it goes on to make the clips, and returns them or raises. *)
Theorem generate_clip_finds_by_prefix data w n :
  n ≠ [] → slash ∉ n → path_join VIDEO_DIR n ∈ files w →
  startswith n (req_video_id data) = true →
  (∃ e, (generate_clip data w).1 = Raise e)
  ∨ (∃ clip_id video_clip audio_clip,
       (generate_clip data w).1 = Ok (ClipCreated clip_id video_clip audio_clip)).
Proof.
  intros Hn Hs Hin Hpre.
  rewrite video_dir_join in Hin by by apply head_no_slash.
  apply dir_names_file in Hin; [|done..].
  by eapply listed_video_found.
Qed.

(** X10: a [video_id] with a slash names no video: whatever the files,
    the request is answered with "Video file not found", and the world
    is left as it was. *)
Theorem generate_clip_rejects_slash data w :
  slash ∈ req_video_id data →
  generate_clip data w = (Ok (ClipError (lit "Video file not found")), w).
Proof.
  intros Hs. rewrite generate_clip_unfold, filter_none; [done|].
  apply Forall_forall. intros f Hf Hpre.
  apply dir_names_no_slash in Hf as [_ Hf]. apply Hf.
  apply startswith_spec in Hpre as [suf ->]. apply elem_of_app. by left.
Qed.

(** X11: what [generate_clip] returns when the clips are made: the
    identifier drawn for the clip, the address of the video clip, and
    the address of the audio clip exactly when the audio clip file is
    there at the end, so that [get_audio_clip] on that identifier then
    serves the file, and answers "Audio clip not found" when the
    response has no audio clip. *)
Theorem generate_clip_audio_served data w cid vc ac w1 :
  generate_clip data w = (Ok (ClipCreated cid vc ac), w1) →
  cid = uuids w (drawn w)
  ∧ vc = lit "/clips/" ++ cid ++ lit ".mp4"
  ∧ (ac = None ∨ ac = Some (lit "/audio/" ++ cid ++ lit ".wav"))
  ∧ get_audio_clip cid w1
    = (Ok (match ac with
           | Some _ =>
               FileResponse (path_join AUDIO_DIR (cid ++ lit ".wav")) (lit "audio/wav")
           | None => ServeError (lit "Audio clip not found")
           end), w1).
Proof.
  rewrite generate_clip_unfold.
  destruct (filter _ _) as [|first rest]; [done|]. cbv zeta.
  destruct (clip_body _ _ _ _ _ _ _) as [[r|e] w'] eqn:Hb;
    [|by destruct (clip_cleanup _ w') as [[]]].
  intros [= -> ->]. apply clip_body_Ok in Hb. injection Hb as -> -> ->.
  split; [done|]. split; [done|].
  unfold get_audio_clip, mbind, M_bind. rewrite path_exists_run.
  destruct (bool_decide _); split; (by left) || (by right) || done.
Qed.

End ClipLookup.

(** ** The two attempts of [create_video_clip] *)

Section Fallback.
Context `{Runtime}.

(** X12: [create_video_clip] tries the stream copy and, only when that
    command ran and ended with a status that is not 0, the re-encoding,
    on the files the copy left. Where a command that cannot be started
    raises something else than a [CalledProcessError], the failure of a
    command that [create_video_clip] reports is never the one of the
    copy: it is the one of the re-encoding, after both commands ran. *)
Theorem create_video_clip_fallback video_path st et output_path w :
  let duration := Float.sub et st in
  let copy := [lit "ffmpeg"; lit "-y"; lit "-i"; video_path;
               lit "-ss"; float_str st; lit "-t"; float_str duration;
               lit "-c"; lit "copy"; output_path] in
  let reencode := [lit "ffmpeg"; lit "-y"; lit "-i"; video_path;
                   lit "-ss"; float_str st; lit "-t"; float_str duration;
                   lit "-c:v"; lit "libx264"; lit "-c:a"; lit "aac"; output_path] in
  let run := create_video_clip video_path st et output_path w in
  (∀ cmd fs e, tool w cmd fs = NotStarted e → ∀ rc c, e ≠ CalledProcessError rc c) →
  (invoked run.2 = invoked w ++ [copy] ∨ invoked run.2 = invoked w ++ [copy; reencode])
  ∧ (invoked run.2 = invoked w ++ [copy; reencode] ↔
     ∃ fs rc, tool w copy (files w) = Ran fs rc ∧ rc ≠ 0)
  ∧ (∀ rc cmd, run.1 = Raise (CalledProcessError rc cmd) →
       cmd = reencode ∧ invoked run.2 = invoked w ++ [copy; reencode]).
Proof.
  intros duration copy reencode run Hstart. subst run.
  unfold create_video_clip, except_called, try_except, raise, subprocess_run.
  fold duration copy reencode.
  assert (∀ l : list (list str), l ++ [copy] ≠ l ++ [copy; reencode]) as Hne.
  { intros l Heq. by apply app_inv_head in Heq. }
  destruct (tool w copy (files w)) as [fs1 rc1|e1] eqn:H1.
  - destruct (Z.eqb_spec rc1 0) as [->|Hrc1]; cbn [fst snd].
    + split; [by left|]. split; [|done]. split.
      * intros Heq. cbn in Heq. by apply Hne in Heq.
      * by intros (fs & rc & [= <- <-] & Hrc).
    + cbn [tool log_command set_files files invoked].
      destruct (tool w reencode fs1) as [fs2 rc2|e2] eqn:H2;
        [destruct (Z.eqb_spec rc2 0) as [->|Hrc2]|];
        cbn [fst snd invoked log_command set_files];
        rewrite <- (assoc_L (++)); cbn [app];
        (split; [by right|]); (split; [split; [eauto|done]|]).
      * done.
      * by intros rc cmd [= <- <-].
      * intros rc cmd [= ->]. by destruct (Hstart _ _ _ H2 rc cmd).
  - assert (∀ rc c, e1 ≠ CalledProcessError rc c) as He1 by by eapply Hstart.
    destruct e1; try (by destruct (He1 returncode cmd)); cbn [fst snd invoked log_command];
      (split; [by left|]; split; [|done]; split;
       [intros Heq; by apply Hne in Heq|by intros (fs & rc & [=] & _)]).
Qed.

End Fallback.

Lemma run_eq {A} (m : Res A * World) (r : Res A) : m.1 = r → m = (r, m.2).
Proof. destruct m. by intros <-. Qed.

(** ** Uploads *)

Section Upload.
Context `{Runtime}.

Lemma subprocess_run_removal cmd w : removal (subprocess_run cmd w).2 = removal w.
Proof. unfold subprocess_run. by repeat case_match. Qed.

Lemma upload_body_removal vid vp ap w :
  removal (upload_body vid vp ap w).2 = removal w.
Proof.
  unfold upload_body, extract_audio, transcribe_audio, write_file, subprocess_run,
    mbind, M_bind, mret, M_ret.
  repeat case_match; simplify_eq; done.
Qed.

Lemma upload_body_Ok vid vp ap w resp w1 :
  upload_body vid vp ap w = (Ok resp, w1) →
  resp = {| video_id := vid; ingest_segments := [] |} ∧ writing w vp = Written.
Proof.
  unfold upload_body. intros Hb.
  apply M_bind_Ok in Hb as (u & w2 & Hw & Hb).
  apply M_bind_Ok in Hb as (u' & w3 & _ & Hb).
  apply M_bind_Ok in Hb as (segs & w4 & Hs & Hb).
  unfold transcribe_audio, mret, M_ret in Hs, Hb. injection Hs as <- <-.
  injection Hb as <- <-. split; [done|].
  unfold write_file in Hw. by destruct (writing w vp).
Qed.

Lemma upload_video_unfold name w :
  upload_video {| filename := Some name |} w =
  let vid := uuids w (drawn w) in
  let ext := splitext_ext name in
  let video_path :=
    path_join VIDEO_DIR (vid ++ if bool_decide (ext = []) then lit ".mp4" else ext) in
  match upload_body vid video_path (path_join TEMP_DIR (vid ++ lit ".wav"))
          (next_uuid w) with
  | (Ok a, w') => (Ok a, w')
  | (Raise e, w') =>
      if bool_decide (video_path ∈ files w') then
        match os_remove video_path w' with
        | (Ok _, w'') => (Raise e, w'')
        | (Raise e', w'') => (Raise e', w'')
        end
      else (Raise e, w')
  end.
Proof.
  unfold upload_video, mbind, M_bind, uuid4, try_except, path_exists. cbn [filename].
  cbv zeta. destruct (upload_body _ _ _ _) as [[a|e] w']; [done|].
  destruct (bool_decide _); [|done]. by destruct (os_remove _ w') as [[]].
Qed.

(** X13: where the operating system permits the removal of the video
    file, a failure inside [upload_video] is raised as it is, and the
    handler leaves the files that the failing step left, less the video
    file and nothing else: what was extracted so far stays in the
    temporary directory. *)
Theorem upload_failure_removes_video name w e w1 :
  let vid := uuids w (drawn w) in
  let ext := splitext_ext name in
  let video_path :=
    path_join VIDEO_DIR (vid ++ if bool_decide (ext = []) then lit ".mp4" else ext) in
  let run := upload_body vid video_path (path_join TEMP_DIR (vid ++ lit ".wav"))
               (next_uuid w) in
  removal w video_path = None →
  upload_video {| filename := Some name |} w = (Raise e, w1) →
  run.1 = Raise e
  ∧ (video_path ∉ files w1)
  ∧ files w1 = files run.2 ∖ {[video_path]}
  ∧ invoked w1 = invoked run.2.
Proof.
  intros vid ext video_path run Hrm. rewrite upload_video_unfold. cbv zeta.
  fold vid ext video_path run.
  assert (removal run.2 video_path = None) as Hrm'.
  { unfold run. by rewrite upload_body_removal. }
  destruct run as [[a|e0] w'] eqn:Hrun; [done|]. cbn [fst snd] in *.
  destruct (bool_decide (video_path ∈ files w')) eqn:Hin.
  - unfold os_remove. rewrite Hin, Hrm'. intros [= <- <-]. cbn.
    split; [done|]. split; [|done].
    rewrite elem_of_difference, elem_of_singleton. tauto.
  - intros [= <- <-]. apply bool_decide_eq_false in Hin.
    split; [done|]. split; [done|]. split; [|done].
    apply set_eq. intros p. rewrite elem_of_difference, elem_of_singleton.
    split; [|tauto]. intros Hp. split; [done|]. by intros ->.
Qed.

(** X14: an upload that returns has written the video under the
    identifier it returns, with the extension of the name the client
    sent ([.mp4] when that name has none); with an identifier that has
    no slash, as long as that file is there a request to
    [generate_clip] for the identifier finds a video and goes on to make
    the clips. *)
Theorem upload_then_generate_clip name w resp w1 :
  slash ∉ uuids w (drawn w) →
  upload_video {| filename := Some name |} w = (Ok resp, w1) →
  ∃ ext,
    (ext = lit ".mp4" ∧ splitext_ext name = []
     ∨ ext = splitext_ext name ∧ ext ≠ [])
    ∧ video_id resp = uuids w (drawn w)
    ∧ writing w (path_join VIDEO_DIR (video_id resp ++ ext)) = Written
    ∧ ∀ data w2,
        req_video_id data = video_id resp →
        path_join VIDEO_DIR (video_id resp ++ ext) ∈ files w2 →
        (∃ e, (generate_clip data w2).1 = Raise e)
        ∨ (∃ clip_id video_clip audio_clip,
             (generate_clip data w2).1
             = Ok (ClipCreated clip_id video_clip audio_clip)).
Proof.
  intros Hvid. rewrite upload_video_unfold. cbv zeta.
  set (vid := uuids w (drawn w)) in *.
  set (ext := if bool_decide (splitext_ext name = []) then lit ".mp4"
              else splitext_ext name).
  destruct (upload_body _ _ _ _) as [[a|e0] w'] eqn:Hrun.
  2: { destruct (bool_decide (_ ∈ files w')); [|done].
       by destruct (os_remove _ w') as [[]]. }
  intros [= -> ->]. apply upload_body_Ok in Hrun as [-> Hw]. cbn [video_id].
  exists ext. split; [|split; [done|split; [exact Hw|]]].
  { subst ext. destruct (bool_decide_reflect (splitext_ext name = [])); [by left|by right]. }
  assert (ext ≠ [] ∧ slash ∉ ext) as [Hne Hno].
  { subst ext. destruct (bool_decide_reflect (splitext_ext name = [])) as [Heq|Hneq].
    - split; [done|]. apply (bool_decide_unpack _). by vm_compute.
    - split; [done|].
      destruct (splitext_ext_spec name) as [_ [?|(rest & -> & _ & Hs)]]; [done|].
      rewrite not_elem_of_cons. by split. }
  intros data w2 Hid Hin.
  assert (slash ∉ vid ++ ext) as Hslash.
  { rewrite elem_of_app. tauto. }
  rewrite video_dir_join in Hin by by apply head_no_slash.
  apply dir_names_file in Hin; [|by destruct vid, ext|done].
  eapply listed_video_found; [done|]. rewrite Hid. apply startswith_app.
Qed.


End Upload.

(** ** Occurrences in the text of an exception *)

Lemma substring_refl (s : str) : substring s s.
Proof. exists [], []. by rewrite app_nil_r. Qed.

Lemma substring_app_l (k a b : str) : substring k a → substring k (a ++ b).
Proof.
  intros (pre & suf & ->). exists pre, (suf ++ b). by rewrite <- !(assoc_L (++)).
Qed.

Lemma substring_app_r (k a b : str) : substring k b → substring k (a ++ b).
Proof.
  intros (pre & suf & ->). exists (a ++ pre), suf. by rewrite <- !(assoc_L (++)).
Qed.

Lemma join_comma_substring (k x : str) (l : list str) :
  x ∈ l → substring k x → substring k (join_comma l).
Proof.
  intros Hx Hk. induction l as [|y l IH]; [by apply elem_of_nil in Hx|].
  apply elem_of_cons in Hx as [<-|Hx].
  - destruct l; [done|]. by apply substring_app_l.
  - destruct l as [|z l]; [by apply elem_of_nil in Hx|].
    change (substring k (y ++ lit ", " ++ join_comma (z :: l))).
    apply substring_app_r, substring_app_r. by apply IH.
Qed.

Section ReprProps.
Context `{Runtime}.

Lemma repr_char_plain q c :
  (q = 34 ∨ q = 39)%N → plain c = true → repr_char q c = [c].
Proof.
  unfold plain, repr_char. rewrite !andb_true_iff, !negb_true_iff.
  intros Hq ((((H32 & H127) & H34) & H39) & H92).
  apply N.leb_le in H32. apply N.ltb_lt in H127.
  apply N.eqb_neq in H34, H39, H92.
  assert ((c =? q) = false)%N as -> by (apply N.eqb_neq; lia).
  rewrite (proj2 (N.eqb_neq c 92)) by done. cbn [orb].
  rewrite !(proj2 (N.eqb_neq c _)) by lia.
  rewrite (proj2 (N.ltb_ge c 32)) by lia. cbn [orb].
  by rewrite (proj2 (N.ltb_lt c 127)).
Qed.

Lemma flat_map_plain q (k : str) :
  (q = 34 ∨ q = 39)%N → forallb plain k = true → flat_map (repr_char q) k = k.
Proof.
  intros Hq. induction k as [|c k IH]; [done|]. cbn [forallb flat_map].
  intros [Hc Hk]%andb_true_iff. by rewrite repr_char_plain, IH.
Qed.

(** [repr] keeps an occurrence of plain characters. *)
Lemma repr_str_substring (k s : str) :
  forallb plain k = true → substring k s → substring k (repr_str s).
Proof.
  intros Hk (pre & suf & ->). unfold repr_str.
  set (q := if _ && _ then _ else _).
  assert (q = 34 ∨ q = 39)%N as Hq by (subst q; destruct (_ && _); auto).
  rewrite !flat_map_app, (flat_map_plain q k Hq Hk).
  apply substring_app_r, substring_app_l, substring_app_r, substring_app_l.
  apply substring_refl.
Qed.

Lemma repr_list_substring (k x : str) (cmd : list str) :
  forallb plain k = true → x ∈ cmd → substring k x → substring k (repr_list cmd).
Proof.
  intros Hk Hx Hs. unfold repr_list.
  apply substring_app_r, substring_app_l.
  apply (join_comma_substring k (repr_str x)).
  - by apply list_elem_of_fmap_2.
  - by apply repr_str_substring.
Qed.

(** The text of the failure of a command holds every plain part of every
    argument. *)
Lemma called_substring (k x : str) rc (cmd : list str) :
  forallb plain k = true → x ∈ cmd → substring k x →
  str_contains (exn_str (CalledProcessError rc cmd)) k = true.
Proof.
  intros Hk Hx Hs. apply str_contains_spec.
  pose proof (repr_list_substring k x cmd Hk Hx Hs) as Hr.
  cbn [exn_str].
  destruct (rc <? 0); [destruct (signal_repr (- rc))|];
    by apply substring_app_r, substring_app_l.
Qed.

End ReprProps.

(** ** Downloads *)

Section Youtube.
Context `{Runtime}.

Lemma download_removal t u w : removal (download t u w).2 = removal w.
Proof.
  unfold download, except_called, try_except, raise, subprocess_run.
  repeat case_match; simplify_eq; done.
Qed.

Lemma youtube_body_removal vid t ap u w :
  removal (youtube_body vid t ap u w).2 = removal w.
Proof.
  unfold youtube_body, mbind, M_bind.
  pose proof (download_removal t u w) as Hd.
  destruct (download t u w) as [[[]|e] w1]; [|done]. cbn [snd] in Hd.
  rewrite video_files_of_run.
  destruct (filter _ _) as [|first rest]; [done|].
  unfold extract_audio, transcribe_audio, mret, M_ret.
  pose proof (subprocess_run_removal
    [lit "ffmpeg"; lit "-y"; lit "-i"; path_join VIDEO_DIR first; lit "-ac";
     lit "1"; lit "-ar"; lit "16000"; ap] w1) as Hs.
  destruct (subprocess_run _ w1) as [[[]|e] w2]; cbn [snd] in *; congruence.
Qed.

Lemma youtube_body_Ok vid t ap u w resp w1 :
  youtube_body vid t ap u w = (Ok resp, w1) →
  resp = {| video_id := vid; ingest_segments := [] |}.
Proof.
  unfold youtube_body. intros Hb.
  apply M_bind_Ok in Hb as (u1 & w2 & _ & Hb).
  apply M_bind_Ok in Hb as (vfs & w3 & _ & Hb).
  destruct vfs as [|first rest]; [done|].
  apply M_bind_Ok in Hb as (u2 & w4 & _ & Hb).
  apply M_bind_Ok in Hb as (segs & w5 & Hs & Hb).
  unfold transcribe_audio, mret, M_ret in Hs, Hb. injection Hs as <- <-.
  by injection Hb as <- <-.
Qed.

(** A removal whose failure is passed over: it ends without an
    exception, adds no file, and takes the file away when the operating
    system permits. *)
Lemma try_remove_run (p : str) w :
  ∃ w', try_pass (os_remove p) w = (Ok (), w')
    ∧ removal w' = removal w ∧ invoked w' = invoked w
    ∧ (∀ q, q ∈ files w' → q ∈ files w)
    ∧ (removal w p = None → p ∉ files w').
Proof.
  unfold try_pass, try_except, os_remove.
  destruct (bool_decide (p ∈ files w)) eqn:Hin; [destruct (removal w p) eqn:Hrm|].
  - exists w. by repeat split.
  - eexists. split; [done|]. cbn. repeat split; try done.
    + intros q Hq. by apply elem_of_difference in Hq as [? _].
    + intros _ Hq. apply elem_of_difference in Hq as [_ Hq].
      apply Hq. by apply elem_of_singleton.
  - exists w. repeat split; try done. intros _. by apply bool_decide_eq_false in Hin.
Qed.

(** The loop of removals ends without an exception; it adds no file, and
    takes away each listed file that the operating system lets go. *)
Lemma remove_all_run (l : list str) w :
  ∃ w', remove_all l w = (Ok (), w')
    ∧ removal w' = removal w ∧ invoked w' = invoked w
    ∧ (∀ p, p ∈ files w' → p ∈ files w)
    ∧ (∀ vf, vf ∈ l → removal w (path_join VIDEO_DIR vf) = None →
         path_join VIDEO_DIR vf ∉ files w').
Proof.
  revert w. induction l as [|vf l IH]; intros w.
  - exists w. repeat split; try done. intros vf Hvf. by apply elem_of_nil in Hvf.
  - cbn [remove_all]. unfold mbind, M_bind.
    destruct (try_remove_run (path_join VIDEO_DIR vf) w)
      as (w1 & -> & Hr1 & Hi1 & Hsub1 & Hgone1).
    destruct (IH w1) as (w' & -> & Hr & Hi & Hsub & Hgone).
    exists w'. repeat split; try congruence.
    + intros p Hp. by apply Hsub1, Hsub.
    + intros vf' [->|Hvf']%elem_of_cons Hperm.
      * intros Hq. by apply Hsub, Hgone1 in Hq.
      * apply Hgone; [done|]. by rewrite Hr1.
Qed.

Lemma youtube_unfold url w :
  youtube url w =
  let vid := uuids w (drawn w) in
  match youtube_body vid (path_join VIDEO_DIR (vid ++ lit ".%(ext)s"))
          (path_join TEMP_DIR (vid ++ lit ".wav")) url (next_uuid w) with
  | (Ok a, w') => (Ok a, w')
  | (Raise e, w') =>
      (Raise (classify e),
       (remove_all (filter (λ f, startswith f vid = true) (dir_names VIDEO_DIR w'))
          w').2)
  end.
Proof.
  unfold youtube, mbind, M_bind, uuid4, try_except. cbv zeta.
  destruct (youtube_body _ _ _ _ _) as [[a|e] w']; [done|].
  rewrite video_files_of_run.
  by destruct (remove_all_run
                 (filter (λ f, startswith f (uuids w (drawn w)) = true)
                    (dir_names VIDEO_DIR w')) w') as (w'' & -> & _).
Qed.

Lemma classify_cases e :
  classify e = HTTPException 400
                 (lit "Failed to download video. Please check the URL and try again.")
  ∨ classify e = HTTPException 500
                   (lit "YouTube downloader error. Please ensure yt-dlp is installed: pip install yt-dlp")
  ∨ classify e = HTTPException 500 (lit "Error processing YouTube video: " ++ exn_str e).
Proof.
  unfold classify. destruct (str_contains _ _); [by left|].
  destruct (_ || _); [right; by left|right; by right].
Qed.

(** X16: [youtube] answers a failure, whatever it is, with an
    [HTTPException]: with status 400 and the text of a failed download,
    or with status 500 and the text of a downloader error, or with
    status 500 and the text of the exception after "Error processing
    YouTube video: ". No other exception leaves the handler. *)
Theorem youtube_raises_http_only url w e :
  (youtube url w).1 = Raise e →
  e = HTTPException 400
        (lit "Failed to download video. Please check the URL and try again.")
  ∨ e = HTTPException 500
          (lit "YouTube downloader error. Please ensure yt-dlp is installed: pip install yt-dlp")
  ∨ ∃ msg, e = HTTPException 500 (lit "Error processing YouTube video: " ++ msg).
Proof.
  rewrite youtube_unfold. cbv zeta.
  destruct (youtube_body _ _ _ _ _) as [[a|e0] w']; [done|].
  intros [= <-]. destruct (classify_cases e0) as [-> | [-> | ->]]; eauto.
Qed.

(** X17: a download that ends with status 0 and leaves no name that begins
    with the identifier in the videos directory is answered with status
    400 and "Failed to download video"; the world is the one the
    download left. *)
Theorem youtube_no_file url w w1 :
  let vid := uuids w (drawn w) in
  download (path_join VIDEO_DIR (vid ++ lit ".%(ext)s")) url (next_uuid w)
    = (Ok (), w1) →
  Forall (λ f, startswith f vid = false) (dir_names VIDEO_DIR w1) →
  youtube url w
  = (Raise (HTTPException 400
              (lit "Failed to download video. Please check the URL and try again.")),
     w1).
Proof.
  intros vid Hd Hno. rewrite youtube_unfold. cbv zeta. fold vid.
  assert (filter (λ f, startswith f vid = true) (dir_names VIDEO_DIR w1) = [])
    as Hnil.
  { apply filter_none. eapply Forall_impl; [exact Hno|]. cbn. intros f ->. done. }
  unfold youtube_body, mbind, M_bind. rewrite Hd, video_files_of_run, Hnil.
  unfold raise. rewrite Hnil. done.
Qed.

(** X18: after a failure of [youtube], where the operating system permits
    removals, no file is left in the videos directory under a name that
    begins with the identifier of the request: what the download left is
    removed. *)
Theorem youtube_failure_removes_downloads url w e w1 n :
  (∀ p, removal w p = None) →
  youtube url w = (Raise e, w1) →
  startswith n (uuids w (drawn w)) = true → n ≠ [] → slash ∉ n →
  path_join VIDEO_DIR n ∉ files w1.
Proof.
  intros Hperm. rewrite youtube_unfold. cbv zeta.
  set (vid := uuids w (drawn w)).
  pose proof (youtube_body_removal vid (path_join VIDEO_DIR (vid ++ lit ".%(ext)s"))
                (path_join TEMP_DIR (vid ++ lit ".wav")) url (next_uuid w)) as Hrm.
  destruct (youtube_body _ _ _ _ _) as [[a|e0] w'] eqn:Hb; [done|]. cbn [snd] in Hrm.
  destruct (remove_all_run (filter (λ f, startswith f vid = true)
                              (dir_names VIDEO_DIR w')) w')
    as (w'' & Hrun & _ & _ & Hsub & Hgone).
  rewrite Hrun. intros [= <- <-] Hpre Hn Hs Hin.
  destruct (decide (n ∈ dir_names VIDEO_DIR w')) as [Hl|Hnl].
  - apply (Hgone n); [by apply list_elem_of_filter| |done].
    rewrite Hrm. apply Hperm.
  - apply Hnl. apply Hsub in Hin.
    rewrite video_dir_join in Hin by by apply head_no_slash.
    by apply dir_names_file.
Qed.

(** X19: both results of the ingestion handlers carry the identifier drawn
    for the request and no segment: the transcription is switched off. *)
Theorem ingest_returns_no_segments w resp w1 :
  (∀ file, upload_video file w = (Ok resp, w1) →
     video_id resp = uuids w (drawn w) ∧ ingest_segments resp = [])
  ∧ (∀ url, youtube url w = (Ok resp, w1) →
       video_id resp = uuids w (drawn w) ∧ ingest_segments resp = []).
Proof.
  split.
  - intros [[name|]]; [|done]. rewrite upload_video_unfold. cbv zeta.
    destruct (upload_body _ _ _ _) as [[a|e0] w'] eqn:Hrun.
    + intros [= -> ->]. by apply upload_body_Ok in Hrun as [-> _].
    + destruct (bool_decide (_ ∈ files w')); [|done].
      by destruct (os_remove _ w') as [[]].
  - intros url. rewrite youtube_unfold. cbv zeta.
    destruct (youtube_body _ _ _ _ _) as [[a|e0] w'] eqn:Hb; [|done].
    intros [= -> ->]. by apply youtube_body_Ok in Hb as ->.
Qed.

End Youtube.

Section YoutubeTool.
Context `{Runtime}.

(** Both attempts of the download run and end with a status that is not
    0: the body of [youtube] raises the failure of the second. *)
Lemma download_fails_twice t url w fs1 rc1 fs2 rc2 :
  let cmd1 := [lit "python"; lit "-m"; lit "yt_dlp"; lit "-f";
               lit "best[ext=mp4]/best"; lit "-o"; t; url] in
  let cmd2 := [lit "python"; lit "-m"; lit "yt_dlp"; lit "-o"; t; url] in
  tool w cmd1 (files w) = Ran fs1 rc1 → rc1 ≠ 0 →
  tool w cmd2 fs1 = Ran fs2 rc2 → rc2 ≠ 0 →
  (download t url w).1 = Raise (CalledProcessError rc2 cmd2).
Proof.
  intros cmd1 cmd2 H1 Hrc1 H2 Hrc2.
  unfold download, except_called, try_except, subprocess_run.
  fold cmd1 cmd2. rewrite H1. apply Z.eqb_neq in Hrc1, Hrc2. rewrite Hrc1.
  cbn [tool log_command set_files files]. rewrite H2, Hrc2. done.
Qed.

Lemma youtube_download_raises url w e :
  let vid := uuids w (drawn w) in
  (download (path_join VIDEO_DIR (vid ++ lit ".%(ext)s")) url (next_uuid w)).1
    = Raise e →
  (youtube url w).1 = Raise (classify e).
Proof.
  intros vid Hd. rewrite youtube_unfold. cbv zeta. fold vid.
  unfold youtube_body, mbind, M_bind.
  destruct (download _ _ _) as [[u|e0] w']; [done|]. cbn in Hd. by injection Hd as ->.
Qed.

(** X20: when both attempts of the download run and end with a status that
    is not 0, [youtube] never answers with the text of a general
    processing error: the text of the failure names the command, which
    holds "yt_dlp", so the answer is the downloader error with status
    500, or, where that text also holds "Video download failed", the
    failed download with status 400. *)
Theorem youtube_tool_failure url w fs1 rc1 fs2 rc2 :
  let vid := uuids w (drawn w) in
  let video_template := path_join VIDEO_DIR (vid ++ lit ".%(ext)s") in
  let cmd1 := [lit "python"; lit "-m"; lit "yt_dlp"; lit "-f";
               lit "best[ext=mp4]/best"; lit "-o"; video_template; url] in
  let cmd2 := [lit "python"; lit "-m"; lit "yt_dlp"; lit "-o"; video_template; url] in
  tool w cmd1 (files w) = Ran fs1 rc1 → rc1 ≠ 0 →
  tool w cmd2 fs1 = Ran fs2 rc2 → rc2 ≠ 0 →
  (youtube url w).1
  = Raise (if str_contains (exn_str (CalledProcessError rc2 cmd2))
                (lit "Video download failed")
           then HTTPException 400
                  (lit "Failed to download video. Please check the URL and try again.")
           else HTTPException 500
                  (lit "YouTube downloader error. Please ensure yt-dlp is installed: pip install yt-dlp")).
Proof.
  intros vid video_template cmd1 cmd2 H1 Hrc1 H2 Hrc2.
  rewrite (youtube_download_raises url w (CalledProcessError rc2 cmd2)).
  2: { by apply (download_fails_twice _ _ (next_uuid w) fs1 rc1 fs2). }
  unfold classify. destruct (str_contains _ (lit "Video download failed")); [done|].
  rewrite (called_substring (lit "yt_dlp") (lit "yt_dlp") rc2 cmd2); [done|done| |].
  - subst cmd2. set_solver.
  - apply substring_refl.
Qed.

(** X21: a URL that holds the text "Video download failed" turns the
    failure of the download tool into the answer for a download that
    produced no file: status 400, whatever the rest of the URL and the
    status of the tool. *)
Theorem youtube_url_text_gives_400 url w fs1 rc1 fs2 rc2 :
  let vid := uuids w (drawn w) in
  let video_template := path_join VIDEO_DIR (vid ++ lit ".%(ext)s") in
  let cmd1 := [lit "python"; lit "-m"; lit "yt_dlp"; lit "-f";
               lit "best[ext=mp4]/best"; lit "-o"; video_template; url] in
  let cmd2 := [lit "python"; lit "-m"; lit "yt_dlp"; lit "-o"; video_template; url] in
  tool w cmd1 (files w) = Ran fs1 rc1 → rc1 ≠ 0 →
  tool w cmd2 fs1 = Ran fs2 rc2 → rc2 ≠ 0 →
  substring (lit "Video download failed") url →
  (youtube url w).1
  = Raise (HTTPException 400
             (lit "Failed to download video. Please check the URL and try again."))
  ∧ http_status (youtube url w).1 = 400.
Proof.
  intros vid video_template cmd1 cmd2 H1 Hrc1 H2 Hrc2 Hurl.
  rewrite (youtube_download_raises url w (CalledProcessError rc2 cmd2)).
  2: { by apply (download_fails_twice _ _ (next_uuid w) fs1 rc1 fs2). }
  unfold classify.
  rewrite (called_substring (lit "Video download failed") url rc2 cmd2); [done|done| |done].
  subst cmd2. set_solver.
Qed.

End YoutubeTool.

(** ** The cleanup of [youtube] *)

Section Cleanup.
Context `{Runtime}.

Lemma try_remove_only (p : str) w q :
  q ∈ files w → q ≠ p → q ∈ files (try_pass (os_remove p) w).2.
Proof.
  intros Hq Hne. unfold try_pass, try_except, os_remove.
  destruct (bool_decide (p ∈ files w)); [destruct (removal w p)|]; try done.
  cbn. apply elem_of_difference. split; [done|]. by rewrite elem_of_singleton.
Qed.

Lemma remove_all_only (l : list str) w p :
  p ∈ files w → p ∉ files (remove_all l w).2 →
  ∃ vf, vf ∈ l ∧ p = path_join VIDEO_DIR vf.
Proof.
  revert w. induction l as [|vf l IH]; intros w Hp Hgone; [done|].
  cbn [remove_all] in Hgone. unfold mbind, M_bind in Hgone.
  pose proof (try_remove_only (path_join VIDEO_DIR vf) w p Hp) as Hkeep.
  destruct (try_remove_run (path_join VIDEO_DIR vf) w) as (w1 & Hrun & _).
  rewrite Hrun in Hgone, Hkeep. cbn [snd] in Hkeep.
  destruct (decide (p = path_join VIDEO_DIR vf)) as [->|Hne].
  - exists vf. split; [left|done].
  - destruct (IH w1 (Hkeep Hne) Hgone) as (vf' & Hvf' & ->).
    exists vf'. split; [by right|done].
Qed.

(** X22: the cleanup of [youtube] takes away nothing but downloads of the
    request: a file that the failing body left and that is gone after
    the handler sat in the videos directory under a name that begins
    with the identifier of the request. *)
Theorem youtube_cleanup_only_downloads url w e w1 p :
  let vid := uuids w (drawn w) in
  let run := youtube_body vid (path_join VIDEO_DIR (vid ++ lit ".%(ext)s"))
               (path_join TEMP_DIR (vid ++ lit ".wav")) url (next_uuid w) in
  youtube url w = (Raise e, w1) →
  p ∈ files run.2 → p ∉ files w1 →
  ∃ n, p = path_join VIDEO_DIR n ∧ startswith n vid = true
       ∧ n ≠ [] ∧ (slash ∉ n).
Proof.
  intros vid run. rewrite youtube_unfold. cbv zeta. fold vid run.
  destruct run as [[a|e0] w'] eqn:Hrun; [done|]. cbn [snd].
  intros [= <- <-] Hp Hgone.
  destruct (remove_all_only _ _ _ Hp Hgone) as (n & Hn & ->).
  apply list_elem_of_filter in Hn as [Hpre Hn].
  apply dir_names_no_slash in Hn as [Hne Hs]. by exists n.
Qed.

(** X23: the cleanup of [youtube] never changes what is reported: when
    the body fails, the handler raises the error picked from the text of
    that failure, whatever the operating system does with the removals,
    refusals included; the cleanup runs no command and adds no file. *)
Theorem youtube_cleanup_never_masks url w e0 :
  let vid := uuids w (drawn w) in
  let run := youtube_body vid (path_join VIDEO_DIR (vid ++ lit ".%(ext)s"))
               (path_join TEMP_DIR (vid ++ lit ".wav")) url (next_uuid w) in
  run.1 = Raise e0 →
  (youtube url w).1 = Raise (classify e0)
  ∧ invoked (youtube url w).2 = invoked run.2
  ∧ ∀ p, p ∈ files (youtube url w).2 → p ∈ files run.2.
Proof.
  intros vid run Hrun. rewrite youtube_unfold. cbv zeta. fold vid run.
  destruct run as [[a|e] w'] eqn:Hb; [done|]. cbn in Hrun. injection Hrun as ->.
  destruct (remove_all_run (filter (λ f, startswith f vid = true)
                              (dir_names VIDEO_DIR w')) w')
    as (w'' & Hrm & _ & Hinv & Hsub & _).
  rewrite Hrm. cbn [fst snd]. done.
Qed.

End Cleanup.

(** ** Serving the clips *)

Section ServeProps.
Context `{Runtime}.

(** X24: for an identifier with no slash in it, each of the two routes
    that serve clips leaves the world as it was, whatever it answers,
    and serves only what is there: it answers with the file of that
    identifier, with the media type of the route, when that file exists,
    and the file is listed in the clips directory, or the audio
    directory, itself; and it answers with the body of the error, and no
    file, when there is no such file. *)
Theorem clip_routes_confined clip_id w :
  (slash ∉ clip_id) →
  let video := path_join CLIPS_DIR (clip_id ++ lit ".mp4") in
  let audio := path_join AUDIO_DIR (clip_id ++ lit ".wav") in
  ((get_video_clip clip_id w = (Ok (FileResponse video (lit "video/mp4")), w)
    ∧ video ∈ files w
    ∧ entry_of CLIPS_DIR video = Some (clip_id ++ lit ".mp4"))
   ∨ (get_video_clip clip_id w = (Ok (ServeError (lit "Clip not found")), w)
      ∧ video ∉ files w))
  ∧ ((get_audio_clip clip_id w = (Ok (FileResponse audio (lit "audio/wav")), w)
      ∧ audio ∈ files w
      ∧ entry_of AUDIO_DIR audio = Some (clip_id ++ lit ".wav"))
     ∨ (get_audio_clip clip_id w = (Ok (ServeError (lit "Audio clip not found")), w)
        ∧ audio ∉ files w)).
Proof.
  intros Hc video audio.
  assert (∀ e, (slash ∉ e) → e ≠ [] →
            (slash ∉ clip_id ++ e) ∧ clip_id ++ e ≠ []) as Hname.
  { intros e He Hne. split; [rewrite elem_of_app; tauto|by destruct clip_id, e]. }
  split.
  - unfold get_video_clip, mbind, M_bind. rewrite path_exists_run. fold video.
    destruct (bool_decide_reflect (video ∈ files w)) as [Hin|Hout]; [left|by right].
    split; [done|]. split; [done|].
    destruct (Hname (lit ".mp4")) as [Hs Hne]; [by apply (bool_decide_unpack _)|done|].
    unfold video. rewrite clips_dir_join by by apply head_no_slash.
    by apply entry_of_join.
  - unfold get_audio_clip, mbind, M_bind. rewrite path_exists_run. fold audio.
    destruct (bool_decide_reflect (audio ∈ files w)) as [Hin|Hout]; [left|by right].
    split; [done|]. split; [done|].
    destruct (Hname (lit ".wav")) as [Hs Hne]; [by apply (bool_decide_unpack _)|done|].
    unfold audio. rewrite audio_dir_join by by apply head_no_slash.
    by apply entry_of_join.
Qed.

End ServeProps.

(** ** The theorems at the examples *)

Lemma hello_is_segment : is_segment hello_segment.
Proof. exists (lit "Hello world"), (float_lit 10), (float_lit 12). by vm_compute. Defined.

Lemma window_5_ok : window_ok 5.
Proof. eexists. vm_compute. reflexivity. Defined.

Lemma segment_text t s e : segment t s e !! lit "text" = Some (VStr (lit t)).
Proof. unfold segment. by rewrite lookup_insert_eq. Qed.

Lemma segment_start t s e : segment t s e !! lit "start" = Some s.
Proof.
  unfold segment. rewrite lookup_insert_ne by (by vm_compute).
  by rewrite lookup_insert_eq.
Qed.

Lemma segment_end t s e : segment t s e !! lit "end" = Some e.
Proof.
  unfold segment. rewrite !lookup_insert_ne by (by vm_compute).
  by rewrite lookup_insert_eq.
Qed.

Lemma shout_is_ascii seg t :
  seg ∈ segments shout_request → seg !! lit "text" = Some (VStr t) →
  Forall is_ascii t.
Proof.
  intros Hin Ht. cbn [segments shout_request] in Hin.
  repeat (apply elem_of_cons in Hin as [->|Hin]);
    [| | |by apply elem_of_nil in Hin];
    rewrite segment_text in Ht; injection Ht as <-;
    vm_compute; repeat constructor.
Defined.

Lemma search_selects_ignoring_case_witness :
  search_keyword (H:=example_runtime) shout_request = Ok shout_response
  ∧ picks (seg_matches_nocase (lit "WORLD")) 5
      (segments shout_request) (matches shout_response).
Proof.
  assert (search_keyword (H:=example_runtime) shout_request = Ok shout_response)
    as Hrun.
  { vm_compute. reflexivity. }
  split; [exact Hrun|].
  destruct (search_selects_ignoring_case (H:=example_runtime) shout_request)
    as [Hsound _].
  apply (Hsound shout_response Hrun).
  - intros s _. reflexivity.
  - vm_compute. repeat constructor.
  - exact shout_is_ascii.
Defined.

(** C1 as stated fails: with the lower case of CPython the text "ΑΣΑ"
    becomes "ασα" and the keyword "ΑΣ" becomes "ας", with the sigma in
    its final form: the text contains the keyword as it is written,
    and so without regard to case, and the search finds nothing. *)
Lemma final_sigma_hides_match :
  substring sigma_keyword sigma_text
  ∧ occurs_nocase sigma_keyword sigma_text
  ∧ search_keyword (H:=greek_runtime) sigma_request
    = Ok {| resp_keyword := sigma_keyword; matches := [] |}.
Proof.
  split; [by exists [], [913%N]|]. split.
  - exists [], sigma_keyword, [913%N]. split; [done|].
    repeat constructor; by left.
  - vm_compute. reflexivity.
Qed.

Lemma pi_moderate seg v :
  seg ∈ segments pi_request →
  seg !! lit "start" = Some v ∨ seg !! lit "end" = Some v → moderate v.
Proof.
  cbn [segments pi_request]. intros ->%list_elem_of_singleton. unfold pi_segment.
  rewrite segment_start, segment_end.
  intros [[= <-]|[= <-]]; (split; [by vm_compute|]); eexists;
    (split; [reflexivity|]); vm_compute; discriminate.
Defined.

Lemma search_element_fields_witness :
  search_keyword (H:=example_runtime) pi_request = Ok pi_response
  ∧ ∃ seg, seg ∈ segments pi_request
           ∧ seg_matches (H:=example_runtime) (keyword pi_request) seg
           ∧ element_of 5 seg pi_match.
Proof.
  assert (search_keyword (H:=example_runtime) pi_request = Ok pi_response)
    as Hrun.
  { vm_compute. reflexivity. }
  split; [exact Hrun|].
  apply (proj2 (search_element_fields (H:=example_runtime) pi_request pi_response
                  ltac:(vm_compute; discriminate) pi_moderate Hrun)).
  left.
Defined.

(** C3 as stated fails: the segment starts at 0.0 and ends at 1.0, the
    window is -10, and the element has [clip_start] 10.0 and [clip_end]
    -9.0. *)
Lemma negative_window_inverts_clip :
  search_keyword (H:=example_runtime) early_request
  = Ok {| resp_keyword := lit "a";
          matches := [{| found_at := float_lit 0; clip_start := float_lit 10;
                         clip_end := float_lit (-9); text := lit "a" |}] |}
  ∧ early_segment !! lit "start" = Some (float_lit 0)
  ∧ early_segment !! lit "end" = Some (float_lit 1)
  ∧ py_le (VInt 0) (float_lit 0) = true
  ∧ py_le (float_lit 0) (float_lit 1) = true
  ∧ py_le (float_lit 10) (float_lit (-9)) = false.
Proof. repeat split; vm_compute; reflexivity. Qed.

Lemma clip_window_ordered_witness :
  py_lt (clip_start hello_match) (VInt 0) = false
  ∧ py_le (clip_start hello_match) (clip_end hello_match) = true.
Proof.
  destruct (clip_window_ordered 5 hello_segment hello_match
              (float_lit 10) (float_lit 12))
    as [Hstart Hend]; try (vm_compute; reflexivity).
  split; [exact Hstart|]. apply Hend. lia.
Defined.

Lemma search_empty_and_absent_keyword_witness :
  (∃ resp, search_keyword (H:=example_runtime)
             {| segments := [hello_segment]; keyword := []; window := 5 |} = Ok resp
           ∧ Forall2 (element_for 5) [hello_segment] (matches resp))
  ∧ search_keyword (H:=example_runtime)
      {| segments := [hello_segment]; keyword := lit "zebra"; window := 5 |}
    = Ok {| resp_keyword := lit "zebra"; matches := [] |}.
Proof.
  split.
  - destruct (proj1 (@search_empty_and_absent_keyword example_runtime
                       {| segments := [hello_segment]; keyword := []; window := 5 |})
                eq_refl) as [Hall Hret].
    destruct Hret as [resp Hresp].
    + constructor; [exact hello_is_segment|constructor].
    + exact window_5_ok.
    + exists resp. split; [exact Hresp|]. exact (Hall resp Hresp).
  - apply (proj2 (@search_empty_and_absent_keyword example_runtime
                    {| segments := [hello_segment]; keyword := lit "zebra"; window := 5 |})).
    constructor; [|constructor].
    exists (lit "Hello world"). split; [by vm_compute|].
    intros Hc. apply (str_contains_ci (H:=example_runtime)) in Hc.
    vm_compute in Hc. discriminate.
Defined.

Lemma search_needs_keys_witness :
  has_keys open_segment = false
  ∧ ∃ k e, search_keyword (H:=example_runtime)
             {| segments := [open_segment]; keyword := k; window := 7 |} = Raise e.
Proof.
  split; [reflexivity|].
  apply (proj1 (@search_needs_keys example_runtime [open_segment] 7
                  (Exists_cons_hd _ open_segment [] eq_refl))).
Defined.

Lemma generate_clip_cleanup_witness :
  (generate_clip (H:=example_runtime) clip_request clip_world).1 = Raise audio_failure
  ∧ (lit "/app/clips/id0.mp4"
     ∉ files (generate_clip (H:=example_runtime) clip_request clip_world).2)
  ∧ (lit "/app/audio/id0.wav"
     ∈ files (generate_clip (H:=example_runtime) clip_request clip_world).2).
Proof.
  destruct (@generate_clip_cleanup example_runtime clip_request clip_world
              (lit "abc.mp4") [] audio_failure)
    as (Hraise & Hgone & Haudio & _); try (vm_compute; reflexivity).
  split; [exact Hraise|]. split.
  - apply Hgone. reflexivity.
  - apply Haudio. apply (bool_decide_unpack _). vm_compute. exact I.
Defined.


Lemma generate_clip_not_found_witness :
  Forall (λ f, startswith f (lit "xyz") = false)
    (dir_names (VIDEO_DIR (H:=example_runtime)) clip_world)
  ∧ generate_clip (H:=example_runtime)
      {| req_video_id := lit "xyz"; start_time := S754_zero false;
         end_time := S754_zero false |} clip_world
    = (Ok (ClipError (lit "Video file not found")), clip_world).
Proof.
  assert (Forall (λ f, startswith f (lit "xyz") = false)
            (dir_names (VIDEO_DIR (H:=example_runtime)) clip_world)) as Hno.
  { vm_compute. repeat constructor. }
  split; [exact Hno|].
  exact (proj1 (@generate_clip_not_found example_runtime
                  {| req_video_id := lit "xyz"; start_time := S754_zero false;
                     end_time := S754_zero false |} clip_world Hno)).
Defined.

Lemma found_at_within_clip_witness :
  py_le (clip_start hello_match) (found_at hello_match) = true
  ∧ py_le (found_at hello_match) (clip_end hello_match) = true.
Proof.
  apply (found_at_within_clip 5 hello_segment hello_match
           (float_lit 10) (float_lit 12));
    try (vm_compute; reflexivity). lia.
Defined.

Lemma clip_start_zero_witness :
  py_le (float_lit 2) (VInt 7) = true
  ∧ num_compare
      (clip_start {| found_at := float_lit 2; clip_start := VInt 0;
                     clip_end := float_lit 19; text := lit "Hello world" |})
      (VInt 0) = Some Eq.
Proof.
  split; [vm_compute; reflexivity|].
  apply (clip_start_zero 7
           (segment "Hello world" (float_lit 2) (float_lit 12))
           {| found_at := float_lit 2; clip_start := VInt 0;
              clip_end := float_lit 19; text := lit "Hello world" |}
           (float_lit 2));
    vm_compute; reflexivity.
Defined.

Lemma match_text_stripped_witness :
  ∃ seg t pre suf,
    seg ∈ [segment "  Hello world " (VInt 1) (VInt 2)]
    ∧ seg !! lit "text" = Some (VStr t)
    ∧ t = pre ++ lit "Hello world" ++ suf
    ∧ Forall (λ c, is_space c = true) pre ∧ Forall (λ c, is_space c = true) suf.
Proof.
  assert (search_keyword (H:=example_runtime)
            {| segments := [segment "  Hello world " (VInt 1) (VInt 2)];
               keyword := lit "WORLD"; window := 0 |}
          = Ok {| resp_keyword := lit "WORLD";
                  matches := [{| found_at := VInt 1; clip_start := VInt 1;
                                 clip_end := VInt 2; text := lit "Hello world" |}] |})
    as Hrun by (vm_compute; reflexivity).
  exact (proj2 (proj2 (match_text_stripped _ _ _ Hrun (list_elem_of_here _ _)))).
Defined.

Lemma upload_failure_removes_video_witness :
  (upload_video (H:=example_runtime) {| filename := Some (lit "talk.mov") |}
     partial_world).1
  = Raise (CalledProcessError 1
             [lit "ffmpeg"; lit "-y"; lit "-i"; lit "/app/videos/id0.mov";
              lit "-ac"; lit "1"; lit "-ar"; lit "16000"; lit "/app/temp/id0.wav"])
  ∧ lit "/app/videos/id0.mov"
    ∉ files (upload_video (H:=example_runtime) {| filename := Some (lit "talk.mov") |}
               partial_world).2.
Proof.
  destruct (upload_failure_removes_video (H:=example_runtime) (lit "talk.mov")
              partial_world
              (CalledProcessError 1
                 [lit "ffmpeg"; lit "-y"; lit "-i"; lit "/app/videos/id0.mov";
                  lit "-ac"; lit "1"; lit "-ar"; lit "16000"; lit "/app/temp/id0.wav"])
              (upload_video (H:=example_runtime)
                 {| filename := Some (lit "talk.mov") |} partial_world).2)
    as (_ & Hgone & _).
  - reflexivity.
  - apply run_eq. vm_compute. reflexivity.
  - split; [vm_compute; reflexivity|exact Hgone].
Defined.

Lemma upload_then_generate_clip_witness :
  ∃ ext,
    ext = lit ".mov"
    ∧ writing studio_world (lit "/app/videos/id0" ++ ext) = Written
    ∧ ((∃ e, (generate_clip (H:=example_runtime)
                {| req_video_id := lit "id0"; start_time := S754_zero false;
                   end_time := S754_zero false |}
                (upload_video (H:=example_runtime)
                   {| filename := Some (lit "talk.mov") |} studio_world).2).1
             = Raise e)
       ∨ (∃ clip_id video_clip audio_clip,
            (generate_clip (H:=example_runtime)
               {| req_video_id := lit "id0"; start_time := S754_zero false;
                  end_time := S754_zero false |}
               (upload_video (H:=example_runtime)
                  {| filename := Some (lit "talk.mov") |} studio_world).2).1
            = Ok (ClipCreated clip_id video_clip audio_clip))).
Proof.
  destruct (upload_then_generate_clip (H:=example_runtime) (lit "talk.mov")
              studio_world
              {| video_id := lit "id0"; ingest_segments := [] |}
              (upload_video (H:=example_runtime)
                 {| filename := Some (lit "talk.mov") |} studio_world).2)
    as (ext & Hext & _ & Hw & Hfind).
  - apply (bool_decide_unpack _). vm_compute. exact I.
  - apply run_eq. vm_compute. reflexivity.
  - assert (ext = lit ".mov") as ->.
    { destruct Hext as [[_ Hnone]|[-> _]]; [|vm_compute; reflexivity].
      vm_compute in Hnone. discriminate. }
    exists (lit ".mov"). split; [reflexivity|]. split; [reflexivity|].
    apply Hfind; [reflexivity|].
    apply (bool_decide_unpack _). vm_compute. exact I.
Defined.


Lemma ingest_returns_no_segments_witness :
  (∃ resp, (upload_video (H:=example_runtime) {| filename := Some (lit "talk.mov") |}
              studio_world).1 = Ok resp
           ∧ ingest_segments resp = [])
  ∧ (∃ resp, (youtube (H:=example_runtime) watch_url download_world).1 = Ok resp
             ∧ ingest_segments resp = []).
Proof.
  split.
  - assert ((upload_video (H:=example_runtime) {| filename := Some (lit "talk.mov") |}
               studio_world).1
            = Ok {| video_id := lit "id0"; ingest_segments := [] |}) as Hrun.
    { vm_compute. reflexivity. }
    exists {| video_id := lit "id0"; ingest_segments := [] |}. split; [exact Hrun|].
    exact (proj2 (proj1 (ingest_returns_no_segments (H:=example_runtime) studio_world _ _)
                    _ (run_eq _ _ Hrun))).
  - assert ((youtube (H:=example_runtime) watch_url download_world).1
            = Ok {| video_id := lit "id0"; ingest_segments := [] |}) as Hrun.
    { vm_compute. reflexivity. }
    exists {| video_id := lit "id0"; ingest_segments := [] |}. split; [exact Hrun|].
    exact (proj2 (proj2 (ingest_returns_no_segments (H:=example_runtime) download_world _ _)
                    _ (run_eq _ _ Hrun))).
Defined.

Lemma youtube_raises_http_only_witness :
  (youtube (H:=example_runtime) watch_url partial_world).1
  = Raise (HTTPException 500
             (lit "YouTube downloader error. Please ensure yt-dlp is installed: pip install yt-dlp"))
  ∧ ∃ sc detail,
      (youtube (H:=example_runtime) watch_url partial_world).1
      = Raise (HTTPException sc detail).
Proof.
  assert ((youtube (H:=example_runtime) watch_url partial_world).1
          = Raise (HTTPException 500
                     (lit "YouTube downloader error. Please ensure yt-dlp is installed: pip install yt-dlp")))
    as Hrun by (vm_compute; reflexivity).
  split; [exact Hrun|].
  destruct (youtube_raises_http_only (H:=example_runtime) watch_url partial_world _ Hrun)
    as [He|[He|[msg He]]]; eauto.
Defined.

Lemma youtube_no_file_witness :
  (youtube (H:=example_runtime) watch_url studio_world).1
  = Raise (HTTPException 400
             (lit "Failed to download video. Please check the URL and try again.")).
Proof.
  rewrite (youtube_no_file (H:=example_runtime) watch_url studio_world
             (download (lit "/app/videos/id0.%(ext)s") watch_url
                (next_uuid studio_world)).2).
  - reflexivity.
  - apply run_eq. vm_compute. reflexivity.
  - vm_compute. repeat constructor.
Defined.

Lemma youtube_failure_removes_downloads_witness :
  lit "/app/videos/id0.part"
  ∈ files (youtube_body (H:=example_runtime) (lit "id0")
             (lit "/app/videos/id0.%(ext)s") (lit "/app/temp/id0.wav")
             watch_url (next_uuid partial_world)).2
  ∧ lit "/app/videos/id0.part"
    ∉ files (youtube (H:=example_runtime) watch_url partial_world).2.
Proof.
  split; [apply (bool_decide_unpack _); vm_compute; exact I|].
  apply (youtube_failure_removes_downloads (H:=example_runtime) watch_url partial_world
           (HTTPException 500
              (lit "YouTube downloader error. Please ensure yt-dlp is installed: pip install yt-dlp"))
           _ (lit "id0.part")).
  - reflexivity.
  - apply run_eq. vm_compute. reflexivity.
  - reflexivity.
  - discriminate.
  - apply (bool_decide_unpack _). vm_compute. exact I.
Defined.

Lemma youtube_cleanup_only_downloads_witness :
  ∃ n, lit "/app/videos/id0.part" = path_join (VIDEO_DIR (H:=example_runtime)) n
       ∧ startswith n (lit "id0") = true.
Proof.
  destruct (youtube_cleanup_only_downloads (H:=example_runtime) watch_url partial_world
              (HTTPException 500
                 (lit "YouTube downloader error. Please ensure yt-dlp is installed: pip install yt-dlp"))
              (youtube (H:=example_runtime) watch_url partial_world).2
              (lit "/app/videos/id0.part"))
    as (n & Hp & Hpre & _).
  - apply run_eq. vm_compute. reflexivity.
  - apply (bool_decide_unpack _). vm_compute. exact I.
  - apply (bool_decide_unpack _). vm_compute. exact I.
  - exists n. split; [exact Hp|exact Hpre].
Defined.

Lemma youtube_tool_failure_witness :
  (youtube (H:=example_runtime) watch_url hostile_world).1
  = Raise (HTTPException 500
             (lit "YouTube downloader error. Please ensure yt-dlp is installed: pip install yt-dlp")).
Proof.
  rewrite (youtube_tool_failure (H:=example_runtime) watch_url hostile_world ∅ 1 ∅ 1);
    [vm_compute; reflexivity|reflexivity|lia|reflexivity|lia].
Defined.

Lemma youtube_url_text_gives_400_witness :
  substring (lit "Video download failed") bad_url
  ∧ http_status (youtube (H:=example_runtime) bad_url hostile_world).1 = 400.
Proof.
  assert (substring (lit "Video download failed") bad_url) as Hurl.
  { exists (lit "https://example.com/"), []. vm_compute. reflexivity. }
  split; [exact Hurl|].
  apply (youtube_url_text_gives_400 (H:=example_runtime) bad_url hostile_world ∅ 1 ∅ 1);
    [reflexivity|lia|reflexivity|lia|exact Hurl].
Defined.

Lemma generate_clip_finds_by_prefix_witness :
  (∃ e, (generate_clip (H:=example_runtime)
           {| req_video_id := lit "ab"; start_time := S754_zero false;
              end_time := S754_zero false |} clip_world).1 = Raise e)
  ∨ (∃ clip_id video_clip audio_clip,
       (generate_clip (H:=example_runtime)
          {| req_video_id := lit "ab"; start_time := S754_zero false;
             end_time := S754_zero false |} clip_world).1
       = Ok (ClipCreated clip_id video_clip audio_clip)).
Proof.
  apply (generate_clip_finds_by_prefix (H:=example_runtime) _ clip_world (lit "abc.mp4")).
  - discriminate.
  - apply (bool_decide_unpack _). vm_compute. exact I.
  - apply (bool_decide_unpack _). vm_compute. exact I.
  - reflexivity.
Defined.

Lemma generate_clip_rejects_slash_witness :
  generate_clip (H:=example_runtime)
    {| req_video_id := lit "../videos/abc"; start_time := S754_zero false;
       end_time := S754_zero false |} clip_world
  = (Ok (ClipError (lit "Video file not found")), clip_world).
Proof.
  apply (generate_clip_rejects_slash (H:=example_runtime)).
  apply (bool_decide_unpack _). vm_compute. exact I.
Defined.

Lemma generate_clip_audio_served_witness :
  (generate_clip (H:=example_runtime) clip_request studio_world).1
  = Ok (ClipCreated (lit "id0") (lit "/clips/id0.mp4") (Some (lit "/audio/id0.wav")))
  ∧ (get_audio_clip (H:=example_runtime) (lit "id0")
       (generate_clip (H:=example_runtime) clip_request studio_world).2).1
    = Ok (FileResponse (lit "/app/audio/id0.wav") (lit "audio/wav")).
Proof.
  assert ((generate_clip (H:=example_runtime) clip_request studio_world).1
          = Ok (ClipCreated (lit "id0") (lit "/clips/id0.mp4")
                  (Some (lit "/audio/id0.wav")))) as Hrun.
  { vm_compute. reflexivity. }
  split; [exact Hrun|].
  destruct (generate_clip_audio_served (H:=example_runtime) clip_request studio_world
              _ _ _ _ (run_eq _ _ Hrun)) as (_ & _ & _ & ->).
  reflexivity.
Defined.

Lemma clip_routes_confined_witness :
  (get_video_clip (H:=example_runtime) (lit "c1")
     (set_files {[ lit "/app/clips/c1.mp4" ]} studio_world)
   = (Ok (FileResponse (lit "/app/clips/c1.mp4") (lit "video/mp4")),
      set_files {[ lit "/app/clips/c1.mp4" ]} studio_world)
   ∧ entry_of (CLIPS_DIR (H:=example_runtime)) (lit "/app/clips/c1.mp4")
     = Some (lit "c1.mp4"))
  ∧ get_audio_clip (H:=example_runtime) (lit "c1")
      (set_files {[ lit "/app/clips/c1.mp4" ]} studio_world)
    = (Ok (ServeError (lit "Audio clip not found")),
       set_files {[ lit "/app/clips/c1.mp4" ]} studio_world).
Proof.
  destruct (clip_routes_confined (H:=example_runtime) (lit "c1")
              (set_files {[ lit "/app/clips/c1.mp4" ]} studio_world))
    as [[(Hv & _ & He)|[_ Hv]] [(_ & Ha & _)|[Ha _]]].
  - apply (bool_decide_unpack _). vm_compute. exact I.
  - exfalso. revert Ha. apply (bool_decide_unpack _). vm_compute. exact I.
  - split; [split; [exact Hv|exact He]|exact Ha].
  - exfalso. apply Hv. apply (bool_decide_unpack _). vm_compute. exact I.
  - exfalso. apply Hv. apply (bool_decide_unpack _). vm_compute. exact I.
Defined.

Lemma search_needs_text_string_witness :
  ∃ e, search_keyword (H:=example_runtime)
         {| segments := [hello_segment; <[lit "text" := VInt 5]> ∅];
            keyword := lit "zebra"; window := 7 |} = Raise e.
Proof.
  apply (search_needs_text_string (H:=example_runtime)).
  apply Exists_cons_tl, Exists_cons_hd. exists (VInt 5). split; [reflexivity|].
  intros t. discriminate.
Defined.

Lemma youtube_cleanup_never_masks_witness :
  (youtube (H:=example_runtime) watch_url stubborn_world).1
  = Raise (HTTPException 500
             (lit "YouTube downloader error. Please ensure yt-dlp is installed: pip install yt-dlp"))
  ∧ lit "/app/videos/id0.part"
    ∈ files (youtube (H:=example_runtime) watch_url
               stubborn_world).2.
Proof.
  destruct (youtube_cleanup_never_masks (H:=example_runtime)
              watch_url stubborn_world
              (CalledProcessError 1
                 [lit "python"; lit "-m"; lit "yt_dlp"; lit "-o";
                  lit "/app/videos/id0.%(ext)s"; watch_url]))
    as (Hraise & _ & _).
  - vm_compute. reflexivity.
  - split.
    + rewrite Hraise. vm_compute. reflexivity.
    + apply (bool_decide_unpack _). vm_compute. exact I.
Defined.

Lemma search_window_only_moves_clip_witness :
  Forall2 (λ m1 m2, found_at m1 = found_at m2 ∧ text m1 = text m2)
    [hello_match]
    [{| found_at := float_lit 10; clip_start := float_lit 10;
        clip_end := float_lit 12; text := lit "Hello world" |}].
Proof.
  apply (search_window_only_moves_clip (H:=example_runtime) [hello_segment] (lit "world")
           5 0 hello_response
           {| resp_keyword := lit "world";
              matches := [{| found_at := float_lit 10; clip_start := float_lit 10;
                             clip_end := float_lit 12; text := lit "Hello world" |}] |});
    vm_compute; reflexivity.
Defined.

Lemma directories_apart_witness :
  lit "/app/temp/id0.wav" ≠ lit "/app/videos/id0.wav"
  ∧ entry_of (VIDEO_DIR (H:=example_runtime)) (lit "/app/temp/id0.wav") = None.
Proof.
  apply (directories_apart (H:=example_runtime) 1 0
           (TEMP_DIR (H:=example_runtime)) (VIDEO_DIR (H:=example_runtime))
           (lit "id0.wav") (lit "id0.wav"));
    [reflexivity|reflexivity|lia
    |apply (bool_decide_unpack _); vm_compute; exact I|discriminate
    |apply (bool_decide_unpack _); vm_compute; exact I|discriminate].
Defined.


Lemma create_video_clip_fallback_witness :
  invoked (create_video_clip (H:=example_runtime) (lit "/app/videos/abc.mp4")
             (S754_zero false) (S754_zero false) (lit "/app/clips/c1.mp4")
             hostile_world).2
  = [[lit "ffmpeg"; lit "-y"; lit "-i"; lit "/app/videos/abc.mp4";
      lit "-ss"; lit "0.0"; lit "-t"; lit "0.0"; lit "-c"; lit "copy";
      lit "/app/clips/c1.mp4"];
     [lit "ffmpeg"; lit "-y"; lit "-i"; lit "/app/videos/abc.mp4";
      lit "-ss"; lit "0.0"; lit "-t"; lit "0.0"; lit "-c:v"; lit "libx264";
      lit "-c:a"; lit "aac"; lit "/app/clips/c1.mp4"]].
Proof.
  destruct (create_video_clip_fallback (H:=example_runtime) (lit "/app/videos/abc.mp4")
              (S754_zero false) (S754_zero false) (lit "/app/clips/c1.mp4")
              hostile_world) as (_ & Hiff & _).
  - intros cmd fs e Hns. discriminate Hns.
  - apply Hiff. exists ∅, 1. split; [reflexivity|lia].
Defined.

(** ** The model on known values *)

(** [round(2.675, 2) == 2.67]: the double below 2.675 is rounded. *)
Example round2_2_675 :
  Float.round2 (S754_finite false 6023564501608038 (-51))
  = Ok (S754_finite false 6012305502539612 (-51)).
Proof. vm_compute. reflexivity. Qed.

(** [round(0.125, 2) == 0.12]: an exact tie goes to the even digit. *)
Example round2_0_125 :
  Float.round2 (S754_finite false 4503599627370496 (-55))
  = Ok (S754_finite false 8646911284551352 (-56)).
Proof. vm_compute. reflexivity. Qed.

(** [round(1.005, 2) == 1.0] and [round(0.005, 2) == 0.01] *)
Example round2_1_005 :
  Float.round2 (S754_finite false 4526117625507348 (-52))
  = Ok (S754_finite false 4503599627370496 (-52))
  ∧ Float.round2 (S754_finite false 5764607523034235 (-60))
    = Ok (S754_finite false 5764607523034235 (-59)).
Proof. split; vm_compute; reflexivity. Qed.

(** [0.1 + 0.2 == 0.30000000000000004] *)
Example add_0_1_0_2 :
  Float.add (S754_finite false 7205759403792794 (-56))
            (S754_finite false 7205759403792794 (-55))
  = S754_finite false 5404319552844596 (-54).
Proof. vm_compute. reflexivity. Qed.

(** [float(2**1024)] raises, [float(2**53 + 1) == 2.0**53]. *)
Example of_int_range :
  Float.of_int (2 ^ 1024)
  = Raise (OverflowError (lit "int too large to convert to float"))
  ∧ Float.of_int (2 ^ 53 + 1) = Ok (S754_finite false 4503599627370496 1).
Proof. split; vm_compute; reflexivity. Qed.

(** The scenario of the specification with start 2.0 and window 7:
    [clip_start] is clamped to 0, the [int] that [max] returns. *)
Example clip_start_clamped :
  search_hit 7 (segment "Hello world" (float_lit 2) (float_lit 12))
  = Ok {| found_at := float_lit 2; clip_start := VInt 0;
          clip_end := float_lit 19; text := lit "Hello world" |}.
Proof. vm_compute. reflexivity. Qed.

(** [str(e)] of the failure of a command, and [repr] of a string with a
    quote. *)
Example exn_str_called :
  exn_str (H:=example_runtime) (CalledProcessError 1 [lit "ffmpeg"; lit "-y"])
  = lit "Command '['ffmpeg', '-y']' returned non-zero exit status 1."
  ∧ repr_str (H:=example_runtime) (lit "it's") = [34%N] ++ lit "it's" ++ [34%N].
Proof. split; vm_compute; reflexivity. Qed.

(** [os.path.splitext] and [os.path.join] *)
Example path_examples :
  splitext_ext (lit "talk.final.mov") = lit ".mov"
  ∧ splitext_ext (lit ".bashrc") = []
  ∧ splitext_ext (lit "dir.d/file") = []
  ∧ path_join (lit "/app") (lit "videos") = lit "/app/videos"
  ∧ path_join (lit "/app") (lit "/etc/passwd") = lit "/etc/passwd".
Proof. repeat split; vm_compute; reflexivity. Qed.

(** [" Hello\t".strip() == "Hello"] *)
Example strip_example :
  str_strip ([32%N] ++ lit "Hello" ++ [9%N]) = lit "Hello".
Proof. vm_compute. reflexivity. Qed.
